(** * uxuistudio backend: site-generation agents and WordPress deployment

    A shallow embedding of the TypeScript sources under [backend-node/src]:

    - [ai/AIService.ts]          (generation client, payload extraction)
    - [ai/PromptTemplates.ts]    (prompt templates, substitution of variables)
    - [ai/agents/*.ts]           (planning, design and content agents, orchestrator)
    - [integrations/wordpress/*] (SSH command channel, REST client, deployment)
    - [middleware/auth.ts], [services/site.service.ts]
                                 (authentication, start of a site generation)

    JavaScript strings are sequences of UTF-16 code units, JavaScript numbers
    are IEEE 754 binary64 values (the Standard Library's [spec_float]), and
    the built-ins the sources call ([String.prototype.trim], [RegExp] matching
    of the two fence patterns, [JSON.parse], [JSON.stringify]) are embedded
    as executable functions following ECMA-262. *)

From Stdlib Require Import ZArith NArith List Bool Lia String Ascii.
From Stdlib Require Import SpecFloat.
Import ListNotations.

Local Open Scope Z_scope.

(* ===================================================================== *)
(** * JavaScript strings *)
(* ===================================================================== *)

Module JsString.

(** A string is the list of its UTF-16 code units. *)
Definition t := list N.

Definition of_ascii (a : ascii) : N := N_of_ascii a.

(** [u "text"] is the JavaScript string with the same (ASCII) characters. *)
Definition u (s : string) : t := List.map of_ascii (list_ascii_of_string s).

(** [uq] is [u] with every apostrophe read as a double quote, so that
    texts containing double quotes can be written as literals. *)
Definition uq (s : string) : t :=
  List.map (fun c => if N.eqb c 39 then 34%N else c) (u s).

Definition eqb (a b : t) : bool :=
  if list_eq_dec N.eq_dec a b then true else false.

(** [WhiteSpace] and [LineTerminator] code units (ECMA-262, 12.2 and 12.3):
    what [String.prototype.trim] strips. *)
Definition is_trim_space (c : N) : bool :=
  ((9 <=? c) && (c <=? 13) || (c =? 32) || (c =? 160) || (c =? 5760)
   || (8192 <=? c) && (c <=? 8202) || (c =? 8232) || (c =? 8233)
   || (c =? 8239) || (c =? 8287) || (c =? 12288) || (c =? 65279))%N.

Fixpoint trim_start (s : t) : t :=
  match s with
  | c :: s' => if is_trim_space c then trim_start s' else s
  | [] => []
  end.

Definition trim_end (s : t) : t := rev (trim_start (rev s)).

(** [String.prototype.trim]. *)
Definition trim (s : t) : t := trim_end (trim_start s).

(** No leading and no trailing white space. *)
Definition no_space_ends (s : t) : Prop :=
  match s with
  | [] => True
  | c :: _ => is_trim_space c = false /\ is_trim_space (last s c) = false
  end.

(** [is_prefix p s]: [s] starts with [p]. *)
Fixpoint is_prefix (p s : t) : bool :=
  match p, s with
  | [], _ => true
  | a :: p', b :: s' => N.eqb a b && is_prefix p' s'
  | _ :: _, [] => false
  end.

(** [find p s]: the text before and the text after the leftmost
    occurrence of [p] in [s]. *)
Fixpoint find (p s : t) : option (t * t) :=
  if is_prefix p s then Some ([], skipn (List.length p) s)
  else match s with
       | [] => None
       | c :: s' =>
           match find p s' with
           | Some (before, after) => Some (c :: before, after)
           | None => None
           end
       end.

(** [String.prototype.includes]. *)
Definition includes (s p : t) : bool :=
  match find p s with Some _ => true | None => false end.

(** Decimal digits of a natural number, as code units. *)
Fixpoint digits_fuel (fuel : nat) (n : N) (acc : t) : t :=
  match fuel with
  | O => acc
  | S fuel' =>
      let acc' := (48 + n mod 10)%N :: acc in
      if (n <? 10)%N then acc' else digits_fuel fuel' (n / 10)%N acc'
  end.

Definition of_N (n : N) : t := digits_fuel (S (N.to_nat (N.log2 n))) n [].

(** Template-literal rendering of an integer, as in [`${code}`]. *)
Definition of_Z (z : Z) : t :=
  match z with
  | Zneg p => 45%N :: of_N (Npos p)
  | _ => of_N (Z.to_N z)
  end.

End JsString.

Definition jsstring : Type := JsString.t.

(* ===================================================================== *)
(** * JavaScript numbers *)
(* ===================================================================== *)

Module JsNumber.

(** The Number type: IEEE 754 binary64. *)
Definition t := spec_float.

Definition prec : Z := 53.
Definition emax : Z := 1024.

Definition add : t -> t -> t := SFadd prec emax.
Definition div : t -> t -> t := SFdiv prec emax.
Definition ltb : t -> t -> bool := SFltb.

Definition zero : t := S754_zero false.
Definition of_Z (z : Z) : t := binary_normalize prec emax z 0 false.
Definition of_nat (n : nat) : t := of_Z (Z.of_nat n).

Definition is_finite (x : t) : bool :=
  match x with
  | S754_zero _ | S754_finite _ _ _ => true
  | _ => false
  end.

(** The finite values of binary64: 53-bit significands, exponents of the
    unit in the last place between -1074 and 971. *)
Definition canonical (x : t) : Prop :=
  match x with
  | S754_finite _ m e =>
      (2 ^ 52 <= Zpos m < 2 ^ 53 /\ -1074 <= e <= 971)
      \/ (Zpos m < 2 ^ 52 /\ e = -1074)
  | _ => True
  end.

(** Same value, telling [+0] from [-0] (as [Object.is] does). *)
Definition same (x y : t) : bool :=
  match x, y with
  | S754_zero a, S754_zero b => Bool.eqb a b
  | S754_infinity a, S754_infinity b => Bool.eqb a b
  | S754_nan, S754_nan => true
  | S754_finite a m e, S754_finite b m' e' =>
      Bool.eqb a b && Pos.eqb m m' && Z.eqb e e'
  | _, _ => false
  end.

(** [===] does not tell the two zeros apart. *)
Definition drop_zero_sign (x : t) : t :=
  match x with
  | S754_zero _ => S754_zero false
  | _ => x
  end.

(** ** From a decimal to the nearest binary64 (ties to even) *)

Definition round_half_even (q r d : Z) : Z :=
  match 2 * r ?= d with
  | Lt => q
  | Gt => q + 1
  | Eq => if Z.even q then q else q + 1
  end.

(** [floor_log2 n d], for positive [n] and [d]: the [l] with
    [2^l <= n/d < 2^(l+1)] when [n/d >= 1], and some negative number
    otherwise. *)
Definition floor_log2 (n d : Z) : Z :=
  let l0 := Z.log2 n - Z.log2 d in
  if d * 2 ^ l0 <=? n then l0 else l0 - 1.

(** The result with significand [q] (at most [2^53]) and unit in the last
    place [2^(e1 - 1074)]. *)
Definition finish (sg : bool) (q e1 : Z) : t :=
  let m := if q =? 2 ^ 53 then 2 ^ 52 else q in
  let e1' := if q =? 2 ^ 53 then e1 + 1 else e1 in
  if 2045 <? e1' then S754_infinity sg
  else match m with
       | Zpos p => S754_finite sg p (e1' - 1074)
       | _ => S754_zero sg
       end.

(** [round_ratio sg n d]: the binary64 value nearest to [n / d]
    (for [0 <= n], [0 < d]), ties to even, with sign [sg].

    The fraction is first multiplied by [2^1074], so that the unit in the
    last place of the result is [2^e1] with [0 <= e1]: a normal result
    keeps 53 bits ([e1 = l - 52]) and a subnormal one has [e1 = 0]. *)
Definition round_ratio (sg : bool) (n d : Z) : t :=
  if n <=? 0 then S754_zero sg
  else
    let n1 := n * 2 ^ 1074 in
    let e1 := Z.max (floor_log2 n1 d - 52) 0 in
    let d1 := d * 2 ^ e1 in
    finish sg (round_half_even (n1 / d1) (n1 mod d1) d1) e1.

(** [of_decimal sg m k]: the Number for the decimal [m * 10^k]. *)
Definition of_decimal (sg : bool) (m k : Z) : t :=
  if 0 <=? k then round_ratio sg (m * 10 ^ k) 1
  else round_ratio sg m (10 ^ (- k)).

(** ** Reading a JSON number literal (ECMA-404, section 8)

    An optional minus sign; an integer part, either [0] or digits not
    starting with [0]; an optional fraction, a dot and at least one digit;
    an optional exponent, [e] or [E], an optional sign and at least one
    digit. *)

Definition is_digit (c : N) : bool := ((48 <=? c) && (c <=? 57))%N.

(** Reads a run of digits, continuing the value [acc]; returns the value,
    the number of digits read, and the rest of the text. *)
Fixpoint read_digits (s : jsstring) (acc cnt : Z) : Z * Z * jsstring :=
  match s with
  | c :: s' =>
      if is_digit c then read_digits s' (10 * acc + (Z.of_N c - 48)) (cnt + 1)
      else (acc, cnt, s)
  | [] => (acc, cnt, [])
  end.

Definition read_sign (s : jsstring) : bool * jsstring :=
  match s with
  | c :: s' => if (c =? 45)%N then (true, s') else (false, s)
  | [] => (false, [])
  end.

Definition read_exp_sign (s : jsstring) : bool * jsstring :=
  match s with
  | c :: s' =>
      if (c =? 45)%N then (true, s')
      else if (c =? 43)%N then (false, s')
      else (false, s)
  | [] => (false, [])
  end.

(** What [read_digits] does to its accumulator for one digit. *)
Definition digit_step (a : Z) (c : N) : Z := 10 * a + (Z.of_N c - 48).

(** The text is empty or starts with something other than a digit. *)
Definition at_non_digit (rest : jsstring) : Prop :=
  match rest with
  | [] => True
  | c :: _ => is_digit c = false
  end.

(** The exponent part, if any; [None] when the text is malformed. *)
Definition read_exponent (s : jsstring) : option Z :=
  match s with
  | [] => Some 0
  | c :: s' =>
      if ((c =? 101) || (c =? 69))%N then
        let '(neg, s1) := read_exp_sign s' in
        let '(v, cnt, rest) := read_digits s1 0 0 in
        match rest with
        | [] => if cnt =? 0 then None else Some (if neg then - v else v)
        | _ :: _ => None
        end
      else None
  end.

(** The decimal [(m, k)], standing for [m * 10^k], denoted by a literal
    without sign. *)
Definition unsigned_decimal (s1 : jsstring) : option (Z * Z) :=
  let '(ip, n_int, s2) := read_digits s1 0 0 in
  if n_int =? 0 then None
  else if (1 <? n_int) && JsString.is_prefix [48%N] s1 then None
  else
    let frac :=
      match s2 with
      | c :: s3 =>
          if (c =? 46)%N then
            let '(m, n_frac, s4) := read_digits s3 ip 0 in
            if n_frac =? 0 then None else Some (m, n_frac, s4)
          else Some (ip, 0, s2)
      | [] => Some (ip, 0, s2)
      end in
    match frac with
    | None => None
    | Some (m, n_frac, s4) =>
        match read_exponent s4 with
        | None => None
        | Some ex => Some (m, ex - n_frac)
        end
    end.

(** The decimal [(sign, m, k)] denoted by a literal. *)
Definition decimal_of_literal (s : jsstring) : option (bool * Z * Z) :=
  let '(sg, s1) := read_sign s in
  match unsigned_decimal s1 with
  | Some (m, k) => Some (sg, m, k)
  | None => None
  end.

Definition of_literal (s : jsstring) : option t :=
  match decimal_of_literal s with
  | Some (sg, m, k) => Some (of_decimal sg m k)
  | None => None
  end.

(** ** Number::toString (ECMA-262, 6.1.6.1.20), radix 10 *)

(** The exact value [m * 2^e] as a fraction. *)
Definition exact_ratio (m : positive) (e : Z) : Z * Z :=
  if 0 <=? e then (Zpos m * 2 ^ e, 1) else (Zpos m, 2 ^ (- e)).

Fixpoint count_digits (fuel : nat) (q : Z) : Z :=
  match fuel with
  | O => 1
  | S fuel' => if q <? 10 then 1 else 1 + count_digits fuel' (q / 10)
  end.

Fixpoint count_shift (fuel : nat) (n d : Z) : Z :=
  match fuel with
  | O => 1
  | S fuel' => if d <=? 10 * n then 1 else 1 + count_shift fuel' (10 * n) d
  end.

(** [mag10 n d] is the [p] with [10^(p-1) <= n/d < 10^p]. *)
Definition mag10 (n d : Z) : Z :=
  if d <=? n then count_digits 400 (n / d) else 1 - count_shift 400 n d.

(** The two [k]-digit decimals [s * 10^(p-k)] around [n/d], nearest first;
    each is given as [(s, p)]. *)
Definition candidates (n d p k : Z) : list (Z * Z) :=
  let sh := k - p in
  let '(a, b) := if 0 <=? sh then (n * 10 ^ sh, d) else (n, d * 10 ^ (- sh)) in
  let lo := (a / b, p) in
  let hi := if a / b + 1 =? 10 ^ k then (10 ^ (k - 1), p + 1) else (a / b + 1, p) in
  match 2 * (a mod b) ?= b with
  | Lt => [lo; hi]
  | Gt => [hi; lo]
  | Eq => if Z.even (a / b) then [lo; hi] else [hi; lo]
  end.

Definition zeros (n : Z) : jsstring := repeat 48%N (Z.to_nat n).

(** Steps 6 to 11 of Number::toString: the digits [ds] of [s] (there are
    [k] of them) and the decimal exponent [p]. *)
Definition format (ds : jsstring) (p : Z) : jsstring :=
  let k := Z.of_nat (List.length ds) in
  if (k <=? p) && (p <=? 21) then ds ++ zeros (p - k)
  else if (0 <? p) && (p <=? 21) then
    firstn (Z.to_nat p) ds ++ [46%N] ++ skipn (Z.to_nat p) ds
  else if (-6 <? p) && (p <=? 0) then
    [48%N; 46%N] ++ zeros (- p) ++ ds
  else
    let ex := p - 1 in
    let sign := if ex <? 0 then 45%N else 43%N in
    let tail := [101%N; sign] ++ JsString.of_Z (Z.abs ex) in
    match ds with
    | [d1] => d1 :: tail
    | d1 :: more => d1 :: 46%N :: more ++ tail
    | [] => tail
    end.

Definition render (c : Z * Z) : jsstring :=
  format (JsString.of_Z (fst c)) (snd c).

(** The first candidate, if any, that reads back as [x]. *)
Fixpoint first_reading (x : t) (cs : list (Z * Z)) : option jsstring :=
  match cs with
  | c :: cs' =>
      match of_literal (render c) with
      | Some y => if same y x then Some (render c) else first_reading x cs'
      | None => first_reading x cs'
      end
  | [] => None
  end.

(** The shortest digit string that reads back as [x = n/d], trying
    [k], [k+1], ... digits. *)
Fixpoint shortest (fuel : nat) (x : t) (n d p k : Z) : option jsstring :=
  match fuel with
  | O => None
  | S fuel' =>
      match first_reading x (candidates n d p k) with
      | Some txt => Some txt
      | None => shortest fuel' x n d p (k + 1)
      end
  end.

(** The exact decimal expansion of [m * 2^e], written [<digits>e<k>].
    Seventeen digits always suffice for binary64, so the search above
    finds a text first; this keeps [to_string] total. *)
Definition exact_literal (m : positive) (e : Z) : jsstring :=
  let '(s, k) := if 0 <=? e then (Zpos m * 2 ^ e, 0) else (Zpos m * 5 ^ (- e), e) in
  JsString.of_Z s ++ [101%N] ++ JsString.of_Z k.

Definition to_string_pos (m : positive) (e : Z) : jsstring :=
  let '(n, d) := exact_ratio m e in
  match shortest 17 (S754_finite false m e) n d (mag10 n d) 1 with
  | Some txt => txt
  | None => exact_literal m e
  end.

Definition to_string (x : t) : jsstring :=
  match x with
  | S754_nan => JsString.u "NaN"
  | S754_zero _ => JsString.u "0"
  | S754_infinity false => JsString.u "Infinity"
  | S754_infinity true => JsString.u "-Infinity"
  | S754_finite false m e => to_string_pos m e
  | S754_finite true m e => 45%N :: to_string_pos m e
  end.

End JsNumber.

Definition number : Type := JsNumber.t.

(* ===================================================================== *)
(** * JSON values, [JSON.parse] and [JSON.stringify] *)
(* ===================================================================== *)

Module Json.

Import JsString.

(** The values [JSON.parse] builds.  An object lists its own properties
    in the order in which they are enumerated ([OrdinaryOwnPropertyKeys]):
    the array indices in ascending order, then the other keys in the order
    of their creation. *)
#[local] Unset Elimination Schemes.
Inductive json : Type :=
| JNull
| JBool (b : bool)
| JNumber (x : number)
| JString (s : jsstring)
| JArray (items : list json)
| JObject (members : list (jsstring * json)).
#[local] Set Elimination Schemes.

Fixpoint obj_get (k : jsstring) (ms : list (jsstring * json)) : option json :=
  match ms with
  | [] => None
  | (k', v) :: ms' => if JsString.eqb k k' then Some v else obj_get k ms'
  end.

(** The array index a key denotes: the key is the canonical decimal text
    of an integer below [2^32 - 1]. *)
Definition array_index (k : jsstring) : option N :=
  let n := fold_left (fun acc c => (10 * acc + (c - 48))%N) k 0%N in
  if (n <? 4294967295)%N && JsString.eqb (JsString.of_N n) k then Some n else None.

(** The value of an existing property is replaced where it stands. *)
Fixpoint replace_value (k : jsstring) (v : json) (ms : list (jsstring * json))
  : list (jsstring * json) :=
  match ms with
  | [] => []
  | (k', v') :: ms' =>
      if JsString.eqb k k' then (k, v) :: ms' else (k', v') :: replace_value k v ms'
  end.

(** A new array index goes before the first greater index, or at the end
    of the indices. *)
Fixpoint insert_index (i : N) (k : jsstring) (v : json) (ms : list (jsstring * json))
  : list (jsstring * json) :=
  match ms with
  | [] => [(k, v)]
  | (k', v') :: ms' =>
      match array_index k' with
      | Some j => if (j <? i)%N then (k', v') :: insert_index i k v ms'
                  else (k, v) :: ms
      | None => (k, v) :: ms
      end
  end.

(** [CreateDataProperty]: a repeated key overwrites the earlier value. *)
Definition obj_set (k : jsstring) (v : json) (ms : list (jsstring * json))
  : list (jsstring * json) :=
  match obj_get k ms with
  | Some _ => replace_value k v ms
  | None =>
      match array_index k with
      | Some i => insert_index i k v ms
      | None => ms ++ [(k, v)]
      end
  end.

(** ** Tokens *)

Inductive token : Type :=
| TLBrace | TRBrace | TLBracket | TRBracket | TColon | TComma
| TString (s : jsstring)
| TNumber (x : number)
| TTrue | TFalse | TNull.

Inductive lex_mode : Type :=
| LDefault
| LString (acc : jsstring)                      (* inside a string; [acc] reversed *)
| LEscape (acc : jsstring)                      (* after a backslash *)
| LUnicode (acc : jsstring) (todo : nat) (v : N) (* inside a \u escape *)
| LNumber (cs : jsstring)                       (* inside a number; [cs] reversed *)
| LWord (cs : jsstring).                        (* inside true, false or null *)

(** JSON white space: tab, line feed, carriage return, space. *)
Definition is_ws (c : N) : bool :=
  ((c =? 9) || (c =? 10) || (c =? 13) || (c =? 32))%N.

Definition is_number_char (c : N) : bool :=
  (JsNumber.is_digit c || (c =? 45) || (c =? 43) || (c =? 46)
   || (c =? 101) || (c =? 69))%N.

Definition is_letter (c : N) : bool := ((97 <=? c) && (c <=? 122))%N.

Definition hex_value (c : N) : option N :=
  if ((48 <=? c) && (c <=? 57))%N then Some (c - 48)%N
  else if ((97 <=? c) && (c <=? 102))%N then Some (c - 87)%N
  else if ((65 <=? c) && (c <=? 70))%N then Some (c - 55)%N
  else None.

Definition word_token (w : jsstring) : option token :=
  if JsString.eqb w (u "true") then Some TTrue
  else if JsString.eqb w (u "false") then Some TFalse
  else if JsString.eqb w (u "null") then Some TNull
  else None.

(** The token, if any, that is complete when a mode is left. *)
Definition close (m : lex_mode) : option (list token) :=
  match m with
  | LDefault => Some []
  | LNumber cs =>
      match JsNumber.of_literal (rev cs) with
      | Some x => Some [TNumber x]
      | None => None
      end
  | LWord cs =>
      match word_token (rev cs) with
      | Some t => Some [t]
      | None => None
      end
  | _ => None
  end.

Definition step_default (c : N) : option (lex_mode * list token) :=
  if is_ws c then Some (LDefault, [])
  else if (c =? 123)%N then Some (LDefault, [TLBrace])
  else if (c =? 125)%N then Some (LDefault, [TRBrace])
  else if (c =? 91)%N then Some (LDefault, [TLBracket])
  else if (c =? 93)%N then Some (LDefault, [TRBracket])
  else if (c =? 58)%N then Some (LDefault, [TColon])
  else if (c =? 44)%N then Some (LDefault, [TComma])
  else if (c =? 34)%N then Some (LString [], [])
  else if (JsNumber.is_digit c || (c =? 45))%N then Some (LNumber [c], [])
  else if is_letter c then Some (LWord [c], [])
  else None.

Definition unescape (c : N) : option N :=
  if (c =? 34)%N then Some 34%N
  else if (c =? 92)%N then Some 92%N
  else if (c =? 47)%N then Some 47%N
  else if (c =? 98)%N then Some 8%N
  else if (c =? 102)%N then Some 12%N
  else if (c =? 110)%N then Some 10%N
  else if (c =? 114)%N then Some 13%N
  else if (c =? 116)%N then Some 9%N
  else None.

(** One code unit of input: the next mode and the tokens completed. *)
Definition step (m : lex_mode) (c : N) : option (lex_mode * list token) :=
  match m with
  | LDefault => step_default c
  | LString acc =>
      if (c =? 34)%N then Some (LDefault, [TString (rev acc)])
      else if (c =? 92)%N then Some (LEscape acc, [])
      else if (c <? 32)%N then None
      else Some (LString (c :: acc), [])
  | LEscape acc =>
      if (c =? 117)%N then Some (LUnicode acc 4 0%N, [])
      else match unescape c with
           | Some d => Some (LString (d :: acc), [])
           | None => None
           end
  | LUnicode acc todo v =>
      match hex_value c with
      | Some h =>
          let v' := (16 * v + h)%N in
          match todo with
          | S (S todo') => Some (LUnicode acc (S todo') v', [])
          | _ => Some (LString (v' :: acc), [])
          end
      | None => None
      end
  | LNumber cs =>
      if is_number_char c then Some (LNumber (c :: cs), [])
      else match close m, step_default c with
           | Some t1, Some (m', t2) => Some (m', t1 ++ t2)
           | _, _ => None
           end
  | LWord cs =>
      if is_letter c then Some (LWord (c :: cs), [])
      else match close m, step_default c with
           | Some t1, Some (m', t2) => Some (m', t1 ++ t2)
           | _, _ => None
           end
  end.

Fixpoint lex (m : lex_mode) (s : jsstring) : option (list token) :=
  match s with
  | [] => close m
  | c :: s' =>
      match step m c with
      | Some (m', ts) =>
          match lex m' s' with
          | Some rest => Some (ts ++ rest)
          | None => None
          end
      | None => None
      end
  end.

(** ** The grammar, as a machine with a stack of open containers *)

Inductive frame : Type :=
| FArray (items : list json)                           (* elements so far, reversed *)
| FObject (ms : list (jsstring * json)) (key : jsstring). (* members so far; key awaiting its value *)

Inductive pstate : Type :=
| SValue (st : list frame)
| SArrayFirst (st : list frame)
| SArrayNext (items : list json) (st : list frame)
| SObjectFirst (st : list frame)
| SObjectKey (ms : list (jsstring * json)) (st : list frame)
| SObjectColon (ms : list (jsstring * json)) (key : jsstring) (st : list frame)
| SObjectNext (ms : list (jsstring * json)) (st : list frame)
| SDone (v : json).

(** A value [v] is complete under the open containers [st]. *)
Definition reduce (v : json) (st : list frame) : pstate :=
  match st with
  | [] => SDone v
  | FArray items :: st' => SArrayNext (v :: items) st'
  | FObject ms k :: st' => SObjectNext (obj_set k v ms) st'
  end.

Definition begin_value (t : token) (st : list frame) : option pstate :=
  match t with
  | TNull => Some (reduce JNull st)
  | TTrue => Some (reduce (JBool true) st)
  | TFalse => Some (reduce (JBool false) st)
  | TNumber x => Some (reduce (JNumber x) st)
  | TString s => Some (reduce (JString s) st)
  | TLBracket => Some (SArrayFirst st)
  | TLBrace => Some (SObjectFirst st)
  | _ => None
  end.

Definition ptrans (s : pstate) (t : token) : option pstate :=
  match s, t with
  | SValue st, _ => begin_value t st
  | SArrayFirst st, TRBracket => Some (reduce (JArray []) st)
  | SArrayFirst st, _ => begin_value t (FArray [] :: st)
  | SArrayNext items st, TComma => Some (SValue (FArray items :: st))
  | SArrayNext items st, TRBracket => Some (reduce (JArray (rev items)) st)
  | SObjectFirst st, TRBrace => Some (reduce (JObject []) st)
  | SObjectFirst st, TString k => Some (SObjectColon [] k st)
  | SObjectKey ms st, TString k => Some (SObjectColon ms k st)
  | SObjectColon ms k st, TColon => Some (SValue (FObject ms k :: st))
  | SObjectNext ms st, TComma => Some (SObjectKey ms st)
  | SObjectNext ms st, TRBrace => Some (reduce (JObject ms) st)
  | _, _ => None
  end.

Fixpoint run (s : pstate) (ts : list token) : option json :=
  match ts with
  | [] => match s with SDone v => Some v | _ => None end
  | t :: ts' =>
      match ptrans s t with
      | Some s' => run s' ts'
      | None => None
      end
  end.

(** [JSON.parse text]; [None] stands for the [SyntaxError] it throws. *)
Definition parse (text : jsstring) : option json :=
  match lex LDefault text with
  | Some ts => run (SValue []) ts
  | None => None
  end.

(** ** [JSON.stringify] (no indentation, no replacer) *)

Definition hex_digit (n : N) : N :=
  if (n <? 10)%N then (48 + n)%N else (87 + n)%N.

(** [\uXXXX], lower-case hexadecimal. *)
Definition unicode_escape (c : N) : jsstring :=
  [92%N; 117%N; hex_digit (c / 4096 mod 16); hex_digit (c / 256 mod 16);
   hex_digit (c / 16 mod 16); hex_digit (c mod 16)]%N.

Definition is_high_surrogate (c : N) : bool := ((55296 <=? c) && (c <=? 56319))%N.
Definition is_low_surrogate (c : N) : bool := ((56320 <=? c) && (c <=? 57343))%N.

(** A code unit that is not part of a surrogate pair. *)
Definition quote_unit (c : N) : jsstring :=
  if (c =? 8)%N then [92%N; 98%N]
  else if (c =? 9)%N then [92%N; 116%N]
  else if (c =? 10)%N then [92%N; 110%N]
  else if (c =? 12)%N then [92%N; 102%N]
  else if (c =? 13)%N then [92%N; 114%N]
  else if (c =? 34)%N then [92%N; 34%N]
  else if (c =? 92)%N then [92%N; 92%N]
  else if ((c <? 32) || is_high_surrogate c || is_low_surrogate c)%N
       then unicode_escape c
  else [c].

Fixpoint quote_units (s : jsstring) : jsstring :=
  match s with
  | [] => []
  | c :: s' =>
      match s' with
      | d :: s'' =>
          if is_high_surrogate c && is_low_surrogate d
          then c :: d :: quote_units s''
          else quote_unit c ++ quote_units s'
      | [] => quote_unit c
      end
  end.

(** [QuoteJSONString]. *)
Definition quote (s : jsstring) : jsstring := 34%N :: quote_units s ++ [34%N].

Fixpoint join (sep : jsstring) (parts : list jsstring) : jsstring :=
  match parts with
  | [] => []
  | [p] => p
  | p :: ps => p ++ sep ++ join sep ps
  end.

Fixpoint stringify (v : json) : jsstring :=
  match v with
  | JNull => u "null"
  | JBool true => u "true"
  | JBool false => u "false"
  | JNumber x => if JsNumber.is_finite x then JsNumber.to_string x else u "null"
  | JString s => quote s
  | JArray items => [91%N] ++ join [44%N] (List.map stringify items) ++ [93%N]
  | JObject ms =>
      [123%N]
        ++ join [44%N]
             (List.map (fun kv => quote (fst kv) ++ [58%N] ++ stringify (snd kv)) ms)
        ++ [125%N]
  end.

(** ** Properties of values *)

(** Every number in the value is finite. *)
Fixpoint all_finite (v : json) : bool :=
  match v with
  | JNumber x => JsNumber.is_finite x
  | JArray items => forallb all_finite items
  | JObject ms => forallb (fun kv => all_finite (snd kv)) ms
  | _ => true
  end.

(** The value with every [-0] replaced by [0]: what [===] sees. *)
Fixpoint drop_zero_signs (v : json) : json :=
  match v with
  | JNumber x => JNumber (JsNumber.drop_zero_sign x)
  | JArray items => JArray (List.map drop_zero_signs items)
  | JObject ms => JObject (List.map (fun kv => (fst kv, drop_zero_signs (snd kv))) ms)
  | _ => v
  end.

(** ** The tokens of a serialized value *)

(** The parts, with a comma between them. *)
Definition sep (parts : list (list token)) : list token :=
  match parts with
  | [] => []
  | p :: ps => p ++ flat_map (fun q => TComma :: q) ps
  end.

(** The tokens of [stringify v], for a value whose numbers are finite. *)
Fixpoint toks (v : json) : list token :=
  match v with
  | JNull => [TNull]
  | JBool true => [TTrue]
  | JBool false => [TFalse]
  | JNumber x => [TNumber (JsNumber.drop_zero_sign x)]
  | JString s => [TString s]
  | JArray items => TLBracket :: sep (List.map toks items) ++ [TRBracket]
  | JObject ms =>
      TLBrace
        :: sep (List.map (fun kv => TString (fst kv) :: TColon :: toks (snd kv)) ms)
        ++ [TRBrace]
  end.

(** The text is empty or starts with a code unit that ends a number and a
    word. *)
Definition delimited (rest : jsstring) : Prop :=
  match rest with
  | [] => True
  | c :: _ => is_number_char c = false /\ is_letter c = false
  end.

(** ** Well-formed values: what [parse] builds *)

(** [k] is enumerated before [k'] when both are keys of one object. *)
Definition precedes (k k' : jsstring) : Prop :=
  match array_index k, array_index k' with
  | Some i, Some j => (i < j)%N
  | Some _, None => True
  | None, Some _ => False
  | None, None => True
  end.

Fixpoint key_order (ks : list jsstring) : Prop :=
  match ks with
  | [] => True
  | k :: ks' => Forall (precedes k) ks' /\ key_order ks'
  end.

(** The keys of an object: none twice, in enumeration order. *)
Definition property_keys (ks : list jsstring) : Prop := NoDup ks /\ key_order ks.

(** Every number is a binary64 value and the keys of every object are
    distinct and in enumeration order. *)
Fixpoint wf (v : json) : Prop :=
  match v with
  | JNumber x => JsNumber.canonical x
  | JArray items =>
      (fix all (l : list json) : Prop :=
         match l with
         | [] => True
         | v' :: l' => wf v' /\ all l'
         end) items
  | JObject ms =>
      property_keys (List.map fst ms)
      /\ (fix all (l : list (jsstring * json)) : Prop :=
            match l with
            | [] => True
            | kv :: l' => wf (snd kv) /\ all l'
            end) ms
  | _ => True
  end.

Definition wf_members (ms : list (jsstring * json)) : Prop :=
  property_keys (List.map fst ms) /\ Forall (fun kv => wf (snd kv)) ms.

Definition wf_frame (f : frame) : Prop :=
  match f with
  | FArray items => Forall wf items
  | FObject ms _ => wf_members ms
  end.

Definition wf_state (s : pstate) : Prop :=
  match s with
  | SValue st | SArrayFirst st | SObjectFirst st => Forall wf_frame st
  | SArrayNext items st => Forall wf items /\ Forall wf_frame st
  | SObjectKey ms st | SObjectColon ms _ st | SObjectNext ms st =>
      wf_members ms /\ Forall wf_frame st
  | SDone v => wf v
  end.

Definition wf_token (t : token) : Prop :=
  match t with
  | TNumber x => JsNumber.canonical x
  | _ => True
  end.

(** The text of [v], followed by a delimiter, is lexed as the tokens of
    [v]. *)
Definition lexes_as_toks (v : json) : Prop :=
  all_finite v = true -> wf v ->
  forall rest, delimited rest ->
               lex LDefault (stringify v ++ rest)
               = option_map (app (toks v)) (lex LDefault rest).

(** The tokens of [v] are parsed as [v], up to the sign of zero. *)
Definition parses_back (v : json) : Prop :=
  wf v ->
  forall st rest,
    run (SValue st) (toks v ++ rest) = run (reduce (drop_zero_signs v) st) rest.

Definition no_line_feed (s : jsstring) : Prop := Forall (fun c => c <> 10%N) s.

(** No number in the value is [-0]. *)
Fixpoint no_negative_zero (v : json) : bool :=
  match v with
  | JNumber (S754_zero true) => false
  | JArray items => forallb no_negative_zero items
  | JObject ms => forallb (fun kv => no_negative_zero (snd kv)) ms
  | _ => true
  end.

End Json.

(* ===================================================================== *)
(** * Exceptions *)
(* ===================================================================== *)

Module Js.

(** The classes of the errors that occur: the built-in ones, those of
    [integrations/wordpress/errors.ts], and errors raised by the
    libraries the sources call (SDK, ssh2, axios). *)
Inductive error_class : Type :=
| ClsError | ClsTypeError | ClsSyntaxError
| ClsSSHError
| ClsWPError | ClsWPAuthError | ClsWPNetworkError
| ClsForeign.

(** An error object: its class (constructor), and its own properties. *)
Record exn : Type := mk_exn {
  cls : error_class;
  name : jsstring;
  message : jsstring;
  statusCode : option Z;
  code : option jsstring;
  command : option jsstring
}.

(** [new Error(message)] *)
Definition Error (msg : jsstring) : exn :=
  mk_exn ClsError (JsString.u "Error") msg None None None.

Definition TypeError (msg : jsstring) : exn :=
  mk_exn ClsTypeError (JsString.u "TypeError") msg None None None.

(** [e instanceof C], following the [extends] clauses. *)
Definition instance_of (e : exn) (c : error_class) : bool :=
  match c, cls e with
  | ClsError, _ => true
  | ClsTypeError, ClsTypeError => true
  | ClsSyntaxError, ClsSyntaxError => true
  | ClsSSHError, ClsSSHError => true
  | ClsWPError, (ClsWPError | ClsWPAuthError | ClsWPNetworkError) => true
  | ClsWPAuthError, ClsWPAuthError => true
  | ClsWPNetworkError, ClsWPNetworkError => true
  | ClsForeign, ClsForeign => true
  | _, _ => false
  end.

(** The result of running a piece of code (or of awaiting a promise):
    a value, or a thrown error (a rejection). *)
Inductive outcome (A : Type) : Type :=
| Returned (a : A)
| Thrown (e : exn).
Arguments Returned {A} a.
Arguments Thrown {A} e.

Definition bind {A B : Type} (c : outcome A) (k : A -> outcome B) : outcome B :=
  match c with
  | Returned a => k a
  | Thrown e => Thrown e
  end.

(** [try { body } catch (error) { handler }] *)
Definition try_catch {A : Type} (body : outcome A) (handler : exn -> outcome A)
  : outcome A :=
  match body with
  | Returned a => Returned a
  | Thrown e => handler e
  end.

(** A JavaScript value read from a parsed payload; [None] is [undefined]. *)
Definition value : Type := option Json.json.

(** ToBoolean. *)
Definition truthy (v : value) : bool :=
  match v with
  | None => false
  | Some Json.JNull => false
  | Some (Json.JBool b) => b
  | Some (Json.JNumber x) =>
      match x with
      | S754_zero _ | S754_nan => false
      | _ => true
      end
  | Some (Json.JString s) => match s with [] => false | _ => true end
  | Some _ => true
  end.

(** [data.key]: reading a property of [null] throws; a value that is
    not an object has none of the properties read here. *)
Definition get (data : Json.json) (key : string) : outcome value :=
  match data with
  | Json.JNull =>
      Thrown (TypeError (JsString.u "Cannot read properties of null (reading '"
                           ++ JsString.u key ++ JsString.u "')"))
  | Json.JObject ms => Returned (Json.obj_get (JsString.u key) ms)
  | _ => Returned None
  end.

End Js.

Notation "x <- c ;; k" := (Js.bind c (fun x => k))
  (at level 61, c at next level, right associativity).

(* ===================================================================== *)
(** * ai/PromptTemplates.ts *)
(* ===================================================================== *)

Module PromptTemplates.

Import JsString.

Definition PLANNING_AGENT_PROMPT : jsstring := uq
"You are a website planning expert. Analyze the business and create a complete site architecture.

Business: {{businessName}}
Type: {{businessType}}
Description: {{description}}

Generate a JSON response with:
1. pages: Array of page structures (title, slug, template, sections, priority)
2. features: Essential website features needed
3. navigation: Site navigation structure
4. siteMap: Complete sitemap

Requirements:
- Include essential pages (Home, About, Services/Products, Contact)
- Add industry-specific pages
- Prioritize pages by importance
- Ensure SEO-friendly slugs
- Confidence score must be >= 0.75

Output ONLY valid JSON matching this schema:
{
  'pages': [{'title': string, 'slug': string, 'template': string, 'sections': string[], 'priority': number}],
  'features': string[],
  'navigation': [{'label': string, 'url': string}],
  'siteMap': string[],
  'confidence': number,
  'assumptions': string[]
}".

Definition CONTENT_AGENT_PROMPT : jsstring := uq
"You are an expert content writer. Generate compelling, SEO-optimized content for a website.

Business: {{businessName}}
Type: {{businessType}}
Pages: {{pages}}

For each page, generate:
1. Engaging, professional content (300-500 words)
2. SEO title (50-60 characters)
3. Meta description (150-160 characters)
4. Focus keyword

Requirements:
- Write in a professional, engaging tone
- Include relevant keywords naturally
- No placeholders or [brackets]
- Proper grammar and formatting
- Industry-appropriate language

Output ONLY valid JSON:
{
  'pages': [{'title': string, 'slug': string, 'content': string, 'seoTitle': string, 'seoDescription': string, 'focusKeyword': string}],
  'confidence': number
}".

Definition DESIGN_AGENT_PROMPT : jsstring := uq
"You are a web design expert. Select the optimal theme and design system.

Business: {{businessName}}
Type: {{businessType}}
Industry: {{industry}}

Select:
1. WordPress theme (Astra, OceanWP, or GeneratePress recommended)
2. Color palette (primary, secondary, accent, background, text)
3. Typography (heading and body fonts from Google Fonts)
4. Design style (modern, classic, bold, minimal)

Requirements:
- Colors should match industry standards
- Ensure accessibility (WCAG AA)
- Professional appearance
- Mobile-first design

Output ONLY valid JSON:
{
  'theme': string,
  'colorPalette': {'primary': string, 'secondary': string, 'accent': string, 'background': string, 'text': string},
  'typography': {'headingFont': string, 'bodyFont': string},
  'style': string,
  'confidence': number
}".

(** The replacement text of [String.prototype.replace] for one match
    (GetSubstitution, with no capture groups): [$$] is a dollar sign,
    [$&] the matched text, [$`] the text before the match, [$'] the
    text after it. *)
Fixpoint expand (replacement matched before after : jsstring) : jsstring :=
  match replacement with
  | [] => []
  | c :: r =>
      if (c =? 36)%N then
        match r with
        | d :: r' =>
            if (d =? 36)%N then 36%N :: expand r' matched before after
            else if (d =? 38)%N then matched ++ expand r' matched before after
            else if (d =? 96)%N then before ++ expand r' matched before after
            else if (d =? 39)%N then after ++ expand r' matched before after
            else c :: expand r matched before after
        | [] => [c]
        end
      else c :: expand r matched before after
  end.

(** [s.replace(new RegExp(p, 'g'), replacement)] for a pattern [p]
    without special characters.  [skip] counts the code units of the
    current match still to drop; [before] is the text already passed,
    reversed. *)
Fixpoint replace_all_from (p replacement : jsstring) (skip : nat)
  (before s : jsstring) : jsstring :=
  match s with
  | [] => []
  | c :: s' =>
      match skip with
      | S skip' => replace_all_from p replacement skip' (c :: before) s'
      | O =>
          if is_prefix p s then
            expand replacement p (rev before) (skipn (List.length p) s)
              ++ replace_all_from p replacement (List.length p - 1) (c :: before) s'
          else c :: replace_all_from p replacement 0 (c :: before) s'
      end
  end.

Definition replace_all (p replacement s : jsstring) : jsstring :=
  replace_all_from p replacement 0 [] s.

(** [substituteVariables]: the variables are the object's entries, in
    order; every value here is a string. *)
Definition substituteVariables (template : jsstring)
  (variables : list (string * jsstring)) : jsstring :=
  fold_left
    (fun result kv =>
       let placeholder := u "{{" ++ u (fst kv) ++ u "}}" in
       replace_all placeholder (snd kv) result)
    variables template.

End PromptTemplates.

(* ===================================================================== *)
(** * ai/AIService.ts *)
(* ===================================================================== *)

Module AIService.

Import JsString Json Js.

Inductive provider_name : Type := anthropic | openai.

Record AIProviderConfig : Type := {
  provider : provider_name;
  apiKey : jsstring;
  model : jsstring;
  maxTokens : number;
  temperature : number
}.

(** The argument of [messages.create]. *)
Record request : Type := {
  req_model : jsstring;
  req_max_tokens : number;
  req_temperature : number;
  req_system : option jsstring;
  req_prompt : jsstring
}.

Inductive content_block : Type :=
| TextBlock (text : jsstring)
| OtherBlock (type : jsstring).

(** The service: its configuration, and the provider it talks to (what
    [messages.create] answers, or the error it rejects with). *)
Record t : Type := {
  config : AIProviderConfig;
  messages_create : request -> outcome (list content_block)
}.

(** [this.anthropic] is set by the constructor when the provider is
    Anthropic and an API key is given. *)
Definition has_client (ai : t) : bool :=
  match provider (config ai), apiKey (config ai) with
  | anthropic, _ :: _ => true
  | _, _ => false
  end.

Definition number_or (x default : number) : number :=
  if truthy (Some (JNumber x)) then x else default.

Definition string_or (s default : jsstring) : jsstring :=
  match s with [] => default | _ => s end.

Definition generateWithAnthropic (ai : t) (prompt : jsstring)
  (systemPrompt : option jsstring) : outcome jsstring :=
  content <- messages_create ai
               {| req_model := string_or (model (config ai)) (u "claude-3-5-sonnet-20241022");
                  req_max_tokens := number_or (maxTokens (config ai)) (JsNumber.of_Z 2000);
                  req_temperature := number_or (temperature (config ai))
                                       (JsNumber.of_decimal false 7 (-1));
                  req_system := systemPrompt;
                  req_prompt := prompt |} ;;
  match content with
  | [] => Thrown (TypeError (u "Cannot read properties of undefined (reading 'type')"))
  | TextBlock text :: _ => Returned text
  | OtherBlock _ :: _ => Thrown (Error (u "Unexpected response format from Anthropic"))
  end.

Definition str (s : string) : json := JString (u s).
Definition num (z : Z) : json := JNumber (JsNumber.of_Z z).

Definition mock_page (title slug template : string) (sections : list string)
  (priority : Z) : json :=
  JObject [(u "title", str title); (u "slug", str slug); (u "template", str template);
           (u "sections", JArray (List.map str sections)); (u "priority", num priority)].

Definition mock_link (label url : string) : json :=
  JObject [(u "label", str label); (u "url", str url)].

Definition mock_planning : json :=
  JObject
    [(u "pages",
       JArray [mock_page "Home" "home" "homepage" ["hero"; "services"; "cta"]%string 1;
               mock_page "About" "about" "standard" ["story"; "team"]%string 2;
               mock_page "Services" "services" "services" ["list"; "pricing"]%string 3;
               mock_page "Contact" "contact" "contact" ["form"; "map"]%string 4]);
     (u "features", JArray [str "Contact Form"; str "SEO"; str "Mobile Responsive"]);
     (u "navigation",
       JArray [mock_link "Home" "/"; mock_link "About" "/about";
               mock_link "Services" "/services"; mock_link "Contact" "/contact"]);
     (u "siteMap", JArray [str "/"; str "/about"; str "/services"; str "/contact"]);
     (u "confidence", JNumber (JsNumber.of_decimal false 85 (-2)));
     (u "assumptions", JArray [str "Standard business website structure"])].

Definition mock_other : json :=
  JObject [(u "confidence", JNumber (JsNumber.of_decimal false 8 (-1)));
           (u "data", str "Mock response")].

Definition mockResponse (prompt : jsstring) : jsstring :=
  if includes prompt (u "planning") then stringify mock_planning
  else stringify mock_other.

Definition generateCompletion (ai : t) (prompt : jsstring)
  (systemPrompt : option jsstring) : outcome jsstring :=
  try_catch
    (if has_client ai then generateWithAnthropic ai prompt systemPrompt
     else Returned (mockResponse prompt))
    (fun error => Thrown (Error (u "AI generation failed: " ++ message error))).

(** The first match of [opening ([\s\S]*?) \n```]: its capture group. *)
Definition fence_closing : jsstring := 10%N :: u "```".

Definition match_fence (opening response : jsstring) : option jsstring :=
  match find opening response with
  | Some (_, after) =>
      match find fence_closing after with
      | Some (group, _) => Some group
      | None => None
      end
  | None => None
  end.

(** [response.match(/```json\n([\s\S]*?)\n```/) || response.match(/```\n([\s\S]*?)\n```/)] *)
Definition jsonMatch (response : jsstring) : option jsstring :=
  match match_fence (u "```json" ++ [10%N]) response with
  | Some group => Some group
  | None => match_fence (u "```" ++ [10%N]) response
  end.

Definition invalid_json_error : exn := Error (u "Invalid JSON response from AI").

Definition parseJSONResponse (response : jsstring) : outcome json :=
  let jsonString :=
    match jsonMatch response with
    | Some group => group
    | None => response
    end in
  match parse (trim jsonString) with
  | Some data => Returned data
  | None => Thrown invalid_json_error
  end.


(** A text from which no payload can be read: neither the whole trimmed
    text nor a fenced block in it is JSON. *)
Definition syntactically_invalid (response : jsstring) : Prop :=
  parse (trim response) = None
  /\ forall group, jsonMatch response = Some group -> parse (trim group) = None.

End AIService.

(* ===================================================================== *)
(** * ai/types.ts and the agents *)
(* ===================================================================== *)

Module Agents.

Import JsString Json Js PromptTemplates.

Record AgentInput : Type := {
  businessName : jsstring;
  businessType : jsstring;
  description : jsstring;
  industry : option jsstring;
  targetAudience : option jsstring
}.

(** The [data] of an agent's output. *)
Inductive agent_data : Type :=
| NoData                                                 (* null *)
| PlanData (pages features navigation siteMap : value)
| DesignData (theme colorPalette typography style : value)
| ContentData (pages posts : value).

Record AgentOutput : Type := {
  success : bool;
  confidence : number;
  data : agent_data;
  assumptions : value;
  errors : option (list jsstring)
}.

(** A member read at the declared type [number]
    ([parseJSONResponse<T & { confidence: number }>]); a payload whose
    member is not a number lies outside that type and is read as NaN. *)
Definition as_number (v : value) : number :=
  match v with
  | Some (JNumber x) => x
  | _ => S754_nan
  end.

(** The [catch] block shared by the three agents. *)
Definition failed (error : exn) : outcome AgentOutput :=
  Returned {| success := false; confidence := JsNumber.zero; data := NoData;
              assumptions := None; errors := Some [message error] |}.

Module PlanningAgent.
Definition execute (ai : AIService.t) (input : AgentInput) : outcome AgentOutput :=
  try_catch
    (let prompt := substituteVariables PLANNING_AGENT_PROMPT
                     [("businessName"%string, businessName input);
                      ("businessType"%string, businessType input);
                      ("description"%string, description input)] in
     response <- AIService.generateCompletion ai prompt
                   (Some (u "You are a website planning expert. Always respond with valid JSON only.")) ;;
     data <- AIService.parseJSONResponse response ;;
     conf <- get data "confidence" ;;
     pages <- get data "pages" ;;
     features <- get data "features" ;;
     navigation <- get data "navigation" ;;
     siteMap <- get data "siteMap" ;;
     assumptions <- get data "assumptions" ;;
     Returned {| success := true; confidence := as_number conf;
                 data := PlanData pages features navigation siteMap;
                 assumptions := assumptions; errors := None |})
    failed.
End PlanningAgent.

Module DesignAgent.
Definition execute (ai : AIService.t) (input : AgentInput) : outcome AgentOutput :=
  try_catch
    (let prompt := substituteVariables DESIGN_AGENT_PROMPT
                     [("businessName"%string, businessName input);
                      ("businessType"%string, businessType input);
                      ("industry"%string,
                        match industry input with
                        | Some (c :: s) => c :: s
                        | _ => businessType input
                        end)] in
     response <- AIService.generateCompletion ai prompt
                   (Some (u "You are a web design expert. Always respond with valid JSON only.")) ;;
     data <- AIService.parseJSONResponse response ;;
     conf <- get data "confidence" ;;
     theme <- get data "theme" ;;
     colorPalette <- get data "colorPalette" ;;
     typography <- get data "typography" ;;
     style <- get data "style" ;;
     Returned {| success := true; confidence := as_number conf;
                 data := DesignData theme colorPalette typography style;
                 assumptions := None; errors := None |})
    failed.
End DesignAgent.

Module ContentAgent.

(** [{ title: p.title, slug: p.slug }]; [JSON.stringify] leaves out the
    members that are [undefined]. *)
Definition title_and_slug (p : json) : outcome json :=
  title <- get p "title" ;;
  slug <- get p "slug" ;;
  Returned (JObject
              (match title with Some v => [(u "title", v)] | None => [] end
               ++ match slug with Some v => [(u "slug", v)] | None => [] end)).

Fixpoint map_pages (ps : list json) : outcome (list json) :=
  match ps with
  | [] => Returned []
  | p :: ps' =>
      o <- title_and_slug p ;;
      os <- map_pages ps' ;;
      Returned (o :: os)
  end.

(** [pages.map(p => ...)] on whatever [pages] is. *)
Definition pages_summary (pages : value) : outcome json :=
  match pages with
  | Some (JArray ps) => os <- map_pages ps ;; Returned (JArray os)
  | None => Thrown (TypeError (u "Cannot read properties of undefined (reading 'map')"))
  | Some JNull => Thrown (TypeError (u "Cannot read properties of null (reading 'map')"))
  | Some _ => Thrown (TypeError (u "pages.map is not a function"))
  end.

Definition execute (ai : AIService.t) (input : AgentInput) (pages : value)
  : outcome AgentOutput :=
  try_catch
    (summary <- pages_summary pages ;;
     let prompt := substituteVariables CONTENT_AGENT_PROMPT
                     [("businessName"%string, businessName input);
                      ("businessType"%string, businessType input);
                      ("pages"%string, stringify summary)] in
     response <- AIService.generateCompletion ai prompt
                   (Some (u "You are an expert content writer. Always respond with valid JSON only.")) ;;
     data <- AIService.parseJSONResponse response ;;
     conf <- get data "confidence" ;;
     pages' <- get data "pages" ;;
     posts <- get data "posts" ;;
     Returned {| success := true; confidence := as_number conf;
                 data := ContentData pages'
                           (if truthy posts then posts else Some (JArray []));
                 assumptions := None; errors := None |})
    failed.
End ContentAgent.

End Agents.

(* ===================================================================== *)
(** * ai/agents/Orchestrator.ts *)
(* ===================================================================== *)

Module Orchestrator.

Import JsString Json Js Agents.

Record OrchestrationResult : Type := {
  success : bool;
  siteArchitecture : option agent_data;   (* [None]: the property is absent *)
  content : option agent_data;
  design : option agent_data;
  overallConfidence : number;
  errors : list jsstring
}.

(** The own properties of a result object, in the order the object
    literal lists them. *)
Definition own_keys (r : OrchestrationResult) : list string :=
  ["success"%string]
    ++ match siteArchitecture r with Some _ => ["siteArchitecture"%string] | None => [] end
    ++ match content r with Some _ => ["content"%string] | None => [] end
    ++ match design r with Some _ => ["design"%string] | None => [] end
    ++ ["overallConfidence"%string; "errors"%string].

Inductive agent_name : Type := Planning | Design | Content.

(** What a run does besides returning: the progress events it emits and
    the agents it invokes, in order. *)
Inductive effect : Type :=
| Emitted (step : jsstring) (progress : Z) (message : jsstring)
| Invoked (agent : agent_name).

(** The three agents held by an orchestrator. *)
Record t : Type := {
  planningAgent : AgentInput -> outcome AgentOutput;
  contentAgent : AgentInput -> value -> outcome AgentOutput;
  designAgent : AgentInput -> outcome AgentOutput
}.

(** [new Orchestrator(aiService)] *)
Definition make (aiService : AIService.t) : t :=
  {| planningAgent := PlanningAgent.execute aiService;
     contentAgent := ContentAgent.execute aiService;
     designAgent := DesignAgent.execute aiService |}.

(** [planningResult.data.pages] *)
Definition data_pages (d : agent_data) : outcome value :=
  match d with
  | NoData => Thrown (TypeError (u "Cannot read properties of null (reading 'pages')"))
  | PlanData pages _ _ _ => Returned pages
  | ContentData pages _ => Returned pages
  | DesignData _ _ _ _ => Returned None
  end.

(** [confidences.reduce((a, b) => a + b, 0) / confidences.length]:
    the mean as JavaScript computes it, the sum taken from left to right
    in binary64 and divided by the count. *)
Definition average (confidences : list number) : number :=
  JsNumber.div (fold_left JsNumber.add confidences JsNumber.zero)
               (JsNumber.of_nat (List.length confidences)).

(** The result of the outer [catch] block. *)
Definition fatal (error : exn) : OrchestrationResult :=
  {| success := false; siteArchitecture := None; content := None; design := None;
     overallConfidence := JsNumber.zero; errors := [message error] |}.

Definition errors_or (r : AgentOutput) (default : string) : list jsstring :=
  match Agents.errors r with
  | Some es => es
  | None => [u default]
  end.

Definition progress_planning : effect :=
  Emitted (u "planning") 10 (u "Analyzing business and creating site architecture...").
Definition progress_design : effect :=
  Emitted (u "design") 30 (u "Selecting theme and design system...").
Definition progress_content : effect :=
  Emitted (u "content") 50 (u "Generating page content and SEO metadata...").
Definition progress_complete : effect :=
  Emitted (u "complete") 100 (u "Site generation complete!").

Definition orchestrate (o : t) (input : AgentInput)
  : list effect * OrchestrationResult :=
  (* Step 1: Planning Agent *)
  let tr1 := [progress_planning; Invoked Planning] in
  match planningAgent o input with
  | Thrown error => (tr1, fatal error)
  | Returned planningResult =>
      if negb (Agents.success planningResult) then
        (tr1, {| success := false; siteArchitecture := None; content := None;
                 design := None; overallConfidence := JsNumber.zero;
                 errors := errors_or planningResult "Planning failed" |})
      else
        let errors1 : list jsstring := [] in
        let confidences1 := [Agents.confidence planningResult] in
        (* Step 2: Design Agent *)
        let tr2 := tr1 ++ [progress_design; Invoked Design] in
        match designAgent o input with
        | Thrown error => (tr2, fatal error)
        | Returned designResult =>
            let '(errors2, confidences2) :=
              if negb (Agents.success designResult)
              then (errors1 ++ errors_or designResult "Design selection failed", confidences1)
              else (errors1, confidences1 ++ [Agents.confidence designResult]) in
            (* Step 3: Content Agent *)
            let tr3 := tr2 ++ [progress_content] in
            match data_pages (Agents.data planningResult) with
            | Thrown error => (tr3, fatal error)
            | Returned pages =>
                let tr4 := tr3 ++ [Invoked Content] in
                match contentAgent o input pages with
                | Thrown error => (tr4, fatal error)
                | Returned contentResult =>
                    let '(errors3, confidences3) :=
                      if negb (Agents.success contentResult)
                      then (errors2 ++ errors_or contentResult "Content generation failed",
                            confidences2)
                      else (errors2, confidences2 ++ [Agents.confidence contentResult]) in
                    (tr4 ++ [progress_complete],
                     {| success := match errors3 with [] => true | _ => false end;
                        siteArchitecture := Some (Agents.data planningResult);
                        content := Some (if Agents.success contentResult
                                         then Agents.data contentResult else NoData);
                        design := Some (if Agents.success designResult
                                        then Agents.data designResult else NoData);
                        overallConfidence := average confidences3;
                        errors := errors3 |})
                end
            end
        end
  end.



End Orchestrator.

(* ===================================================================== *)
(** * integrations/wordpress: errors, SSH client, REST client, deployment *)
(* ===================================================================== *)

Module WordPress.

Import JsString Js.

(** ** errors.ts *)

Definition WPError (msg : jsstring) (status : option Z) (code : option jsstring) : exn :=
  mk_exn ClsWPError (u "WPError") msg status code None.

Definition WPAuthError : exn :=
  mk_exn ClsWPAuthError (u "WPError") (u "WordPress Authentication Failed")
         (Some 401) (Some (u "WP_AUTH_FAILED")) None.

Definition WPNetworkError (msg : jsstring) : exn :=
  mk_exn ClsWPNetworkError (u "WPError") msg (Some 503) (Some (u "WP_NETWORK_ERROR")) None.

Definition SSHError (msg : jsstring) (cmd : option jsstring) : exn :=
  mk_exn ClsSSHError (u "SSHError") msg None None cmd.

(** ** ssh-client.ts *)

Record SSHConfig : Type := {
  host : jsstring;
  port : option Z;
  username : jsstring;
  privateKey : option jsstring;
  password : option jsstring;
  path : jsstring
}.

(** What happens to one command on the remote side. *)
Inductive remote_result : Type :=
| ConnectFails (error : exn)              (* the connection emits 'error' *)
| ExecFails (error : exn)                 (* [conn.exec] calls back with an error *)
| Closes (code : Z) (stdout stderr : jsstring). (* the stream closes *)

(** The remote host: what each full command line leads to. *)
Definition remote : Type := jsstring -> remote_result.

Definition fullCommand (config : SSHConfig) (cmd : jsstring) : jsstring :=
  u "cd " ++ path config ++ u " && " ++ cmd.

Definition executeCommand (config : SSHConfig) (host_ : remote) (cmd : jsstring)
  : outcome jsstring :=
  match host_ (fullCommand config cmd) with
  | ConnectFails error => Thrown (SSHError (message error) (Some cmd))
  | ExecFails err => Thrown (SSHError (message err) (Some cmd))
  | Closes code output errorOutput =>
      if negb (code =? 0) then
        Thrown (SSHError (u "Command failed with code " ++ of_Z code ++ u ": " ++ errorOutput)
                         (Some cmd))
      else Returned (trim output)
  end.

Definition wpCoreInstall_command (url title adminUser adminPass adminEmail : jsstring)
  : jsstring :=
  uq "wp core install --url='" ++ url ++ uq "' --title='" ++ title
    ++ uq "' --admin_user='" ++ adminUser ++ uq "' --admin_password='" ++ adminPass
    ++ uq "' --admin_email='" ++ adminEmail ++ uq "'".

Definition activate_flag (activate : bool) : jsstring :=
  if activate then u "--activate" else [].

Definition wpPluginInstall_command (plugin : jsstring) : jsstring :=
  u "wp plugin install " ++ plugin ++ u " " ++ activate_flag true.

Definition wpThemeInstall_command (theme : jsstring) : jsstring :=
  u "wp theme install " ++ theme ++ u " " ++ activate_flag true.

(** ** api-client.ts: the response interceptor *)

(** The body of an error response, as far as the interceptor reads it. *)
Record error_body : Type := {
  body_message : option jsstring;
  body_code : option jsstring
}.

Record http_response : Type := {
  status : Z;
  body : option error_body            (* [None]: no (or a null) body *)
}.

(** The error axios rejects with. *)
Record axios_error : Type := {
  response : option http_response;    (* the server answered *)
  request : bool;                     (* the request was sent *)
  axios_message : jsstring
}.

Definition foreign (e : axios_error) : exn :=
  mk_exn ClsForeign (u "AxiosError") (axios_message e) None None None.

(** What the interceptor throws for a rejected call. *)
Definition intercept (error : axios_error) : exn :=
  match response error with
  | Some resp =>
      if status resp =? 401 then WPAuthError
      else
        WPError
          (match body resp with
           | Some b =>
               match body_message b with
               | Some (c :: s) => c :: s
               | _ => u "WordPress API Error"
               end
           | None => u "WordPress API Error"
           end)
          (Some (status resp))
          (match body resp with Some b => body_code b | None => None end)
  | None =>
      if request error then WPNetworkError (axios_message error)
      else foreign error
  end.

(** ** wordpress.service.ts *)

Record deployment_data : Type := {
  url : jsstring;
  title : jsstring;
  adminUser : jsstring;
  adminPass : jsstring;
  adminEmail : jsstring;
  theme : option jsstring;
  plugins : option (list jsstring)
}.

Inductive site_status : Type := DEPLOYED | FAILED.

(** What a deployment does, in order: progress events, remote commands,
    and writes of the site's status. *)
Inductive action : Type :=
| Progress (step message : jsstring)
| Command (cmd : jsstring)
| SetStatus (siteId : jsstring) (s : site_status).

(** The [catch] block of [deploySite]. *)
Definition deploy_failed (siteId : jsstring) (error : exn) : list action * outcome unit :=
  ([Progress (u "failed") (message error); SetStatus siteId FAILED], Thrown error).

(** The loop over the plugins, up to the first failure. *)
Fixpoint install_plugins (config : SSHConfig) (host_ : remote) (ps : list jsstring)
  : list action * outcome unit :=
  match ps with
  | [] => ([], Returned tt)
  | plugin :: ps' =>
      let cmd := wpPluginInstall_command plugin in
      match executeCommand config host_ cmd with
      | Thrown error => ([Command cmd], Thrown error)
      | Returned _ =>
          let '(acts, r) := install_plugins config host_ ps' in
          (Command cmd :: acts, r)
      end
  end.

(** The [try] block of [deploySite]. *)
Definition deploy_steps (config : SSHConfig) (host_ : remote) (siteId : jsstring)
  (d : deployment_data) : list action * outcome unit :=
  (* 1. Install Core *)
  let core := wpCoreInstall_command (url d) (title d) (adminUser d) (adminPass d)
                (adminEmail d) in
  let a1 := [Progress (u "core_install") (u "Installing WordPress Core..."); Command core] in
  match executeCommand config host_ core with
  | Thrown error => (a1, Thrown error)
  | Returned _ =>
      (* 2. Install Theme *)
      let '(a2, r2) :=
        match theme d with
        | Some (c :: th) =>
            let cmd := wpThemeInstall_command (c :: th) in
            ([Progress (u "theme_install") (u "Installing theme: " ++ (c :: th)); Command cmd],
             match executeCommand config host_ cmd with
             | Thrown error => Thrown error
             | Returned _ => Returned tt
             end)
        | _ => ([], Returned tt)
        end in
      match r2 with
      | Thrown error => (a1 ++ a2, Thrown error)
      | Returned _ =>
          (* 3. Install Plugins *)
          let '(a3, r3) :=
            match plugins d with
            | Some (p :: ps) =>
                let '(acts, r) := install_plugins config host_ (p :: ps) in
                (Progress (u "plugins_install") (u "Installing plugins...") :: acts, r)
            | _ => ([], Returned tt)
            end in
          match r3 with
          | Thrown error => (a1 ++ a2 ++ a3, Thrown error)
          | Returned _ =>
              (a1 ++ a2 ++ a3
                 ++ [SetStatus siteId DEPLOYED;
                     Progress (u "completed") (u "Deployment successful!")],
               Returned tt)
          end
      end
  end.

Definition deploySite (config : SSHConfig) (host_ : remote) (siteId : jsstring)
  (d : deployment_data) : list action * outcome unit :=
  let init := Progress (u "init") (u "Initializing deployment...") in
  match deploy_steps config host_ siteId d with
  | (acts, Returned _) => (init :: acts, Returned tt)
  | (acts, Thrown error) =>
      let '(acts', r) := deploy_failed siteId error in
      (init :: acts ++ acts', r)
  end.

(** The status the site is left with: the last one written. *)
Fixpoint final_status (acts : list action) : option site_status :=
  match acts with
  | [] => None
  | a :: acts' =>
      match final_status acts' with
      | Some s => Some s
      | None => match a with SetStatus _ s => Some s | _ => None end
      end
  end.

Definition commands (acts : list action) : list jsstring :=
  flat_map (fun a => match a with Command c => [c] | _ => [] end) acts.

(** The remote result of a command is a failure with a non-zero exit code. *)
Definition exits_nonzero (r : remote_result) : bool :=
  match r with
  | Closes code _ _ => negb (code =? 0)
  | _ => false
  end.

Definition succeeds (r : remote_result) : bool :=
  match r with
  | Closes code _ _ => code =? 0
  | _ => false
  end.

(** The commands a deployment asks for, in order. *)
Definition planned_commands (d : deployment_data) : list jsstring :=
  wpCoreInstall_command (url d) (title d) (adminUser d) (adminPass d) (adminEmail d)
    :: match theme d with
       | Some (c :: th) => [wpThemeInstall_command (c :: th)]
       | _ => []
       end
    ++ match plugins d with
       | Some ps => List.map wpPluginInstall_command ps
       | None => []
       end.

(** The run of a sequence of planned commands: either all were issued and
    succeeded, or the run stopped at the first command that failed. *)
Definition stops_at_first_failure (config : SSHConfig) (host_ : remote)
  (planned : list jsstring) (acts : list action) (r : outcome unit) : Prop :=
  match r with
  | Returned _ =>
      commands acts = planned
      /\ forall c, In c planned -> succeeds (host_ (fullCommand config c)) = true
  | Thrown e =>
      exists pre cmd post,
        acts = pre ++ [Command cmd]
        /\ planned = commands pre ++ cmd :: post
        /\ executeCommand config host_ cmd = Thrown e
        /\ (forall c, In c (commands pre) -> succeeds (host_ (fullCommand config c)) = true)
        /\ (forall i st, ~ In (SetStatus i st) pre)
  end.

End WordPress.

(* ===================================================================== *)
(** * Concrete inputs *)
(* ===================================================================== *)

Module Scenarios.

Import JsString Js.

Definition ssh_config : WordPress.SSHConfig :=
  {| WordPress.host := u "example.org"; WordPress.port := None;
     WordPress.username := u "deploy";
     WordPress.privateKey := None; WordPress.password := None;
     WordPress.path := u "/var/www/html" |}.

(** A host that cannot be reached. *)
Definition unreachable : WordPress.remote :=
  fun _ => WordPress.ConnectFails
             (mk_exn ClsForeign (u "Error") (u "connect ECONNREFUSED 203.0.113.7:22")
                     None None None).

(** A host on which installing the plugin [broken-plugin] exits with code 1
    and every other command succeeds. *)
Definition one_plugin_fails : WordPress.remote :=
  fun cmd =>
    if includes cmd (u "wp plugin install broken-plugin")
    then WordPress.Closes 1 [] (u "Error: plugin not found.")
    else WordPress.Closes 0 (u "Success.") [].

Definition site : WordPress.deployment_data :=
  {| WordPress.url := u "https://joes.example"; WordPress.title := u "Joe's Pizza";
     WordPress.adminUser := u "admin"; WordPress.adminPass := u "secret";
     WordPress.adminEmail := u "joe@joes.example";
     WordPress.theme := Some (u "astra");
     WordPress.plugins := Some [u "wordpress-seo"; u "broken-plugin"; u "wp-super-cache"] |}.

Definition anthropic_config : AIService.AIProviderConfig :=
  {| AIService.provider := AIService.anthropic; AIService.apiKey := u "sk-test";
     AIService.model := []; AIService.maxTokens := JsNumber.zero;
     AIService.temperature := JsNumber.zero |}.

(** A provider that answers every request with prose. *)
Definition chatty : AIService.t :=
  {| AIService.config := anthropic_config;
     AIService.messages_create :=
       fun _ => Returned [AIService.TextBlock (u "Sorry, I cannot help with that.")] |}.

(** No provider configured: the service answers with its mock responses. *)
Definition mock : AIService.t :=
  {| AIService.config :=
       {| AIService.provider := AIService.openai; AIService.apiKey := [];
          AIService.model := []; AIService.maxTokens := JsNumber.zero;
          AIService.temperature := JsNumber.zero |};
     AIService.messages_create := fun _ => Returned [] |}.

Definition joes_pizza : Agents.AgentInput :=
  {| Agents.businessName := u "Joe's Pizza"; Agents.businessType := u "restaurant";
     Agents.description := u "Family pizza restaurant in Brooklyn";
     Agents.industry := None; Agents.targetAudience := None |}.

(** A response whose number is too large for binary64. *)
Definition overflowing_response : jsstring := uq "{'confidence': 1e999}".

(** A fenced response. *)
Definition fenced_response : jsstring :=
  uq "Here is the plan:
```json
{'pages': [{'title': 'Home', 'slug': 'home', 'priority': 1}], 'confidence': 0.85}
```
Let me know if you need changes.".

End Scenarios.

(* ===================================================================== *)
(** * Runs of a deployment *)
(* ===================================================================== *)

Module DeploymentRun.

Import JsString Js WordPress.

(** The command succeeds on the host. *)
Definition command_ok (config : SSHConfig) (host_ : remote) (cmd : jsstring) : bool :=
  succeeds (host_ (fullCommand config cmd)).


(** The steps named by the progress events, in order. *)
Definition steps (acts : list action) : list jsstring :=
  flat_map (fun a => match a with Progress s _ => [s] | _ => [] end) acts.

(** The writes of a site's status, in order. *)
Definition status_writes (acts : list action) : list (jsstring * site_status) :=
  flat_map (fun a => match a with SetStatus i s => [(i, s)] | _ => [] end) acts.

(** The steps of a deployment that install something. *)
Definition installation_steps : list jsstring :=
  [u "core_install"; u "theme_install"; u "plugins_install"].

(** The actions report installation steps only and write no status. *)
Definition quiet (acts : list action) : Prop :=
  incl (steps acts) installation_steps /\ status_writes acts = [].

End DeploymentRun.

(* ===================================================================== *)
(** * Texts: occurrences and literal replacement *)
(* ===================================================================== *)

Module Text.

Import JsString.

(** The code unit [c] does not occur in [s]. *)
Definition lacks (c : N) (s : jsstring) : bool :=
  forallb (fun d => negb (d =? c)%N) s.

(** Only white space, as [trim] strips it. *)
Definition blank (s : jsstring) : bool := forallb is_trim_space s.

Definition dollar : N := 36.
Definition backtick : N := 96.
Definition brace : N := 123.

(** [s] with the occurrences of [p], found from left to right without
    overlap, replaced by the text [v] as it is. *)
Fixpoint splice_fuel (fuel : nat) (p v s : jsstring) : jsstring :=
  match fuel with
  | O => s
  | S fuel' =>
      match find p s with
      | Some (before, after) => before ++ v ++ splice_fuel fuel' p v after
      | None => s
      end
  end.

Definition splice (p v s : jsstring) : jsstring :=
  splice_fuel (S (List.length s)) p v s.

(** The key is a plain name: letters, digits and underscores, not
    starting with a digit.  Such a key has no special character of a
    regular expression, and is no array index. *)
Definition name_start (c : N) : bool :=
  ((65 <=? c) && (c <=? 90) || (97 <=? c) && (c <=? 122) || (c =? 95))%N.

Definition name_part (c : N) : bool := (name_start c || (48 <=? c) && (c <=? 57))%N.

Definition identifier (key : string) : bool :=
  match u key with
  | [] => false
  | c :: s => name_start c && forallb name_part s
  end.

(** [{{key}}] *)
Definition placeholder (key : string) : jsstring := u "{{" ++ u key ++ u "}}".

(** The replacement text [r] stands for the text [v] at every match. *)
Definition expands_to (r v : jsstring) : Prop :=
  forall matched before after,
    PromptTemplates.expand r matched before after = v.

End Text.

(* ===================================================================== *)
(** * The requests of the agents *)
(* ===================================================================== *)

Module Prompts.

Import JsString Json Js PromptTemplates Agents.

(** The prompt and the system prompt each agent sends. *)
Definition planning (input : AgentInput) : jsstring :=
  substituteVariables PLANNING_AGENT_PROMPT
    [("businessName"%string, businessName input);
     ("businessType"%string, businessType input);
     ("description"%string, description input)].

Definition planning_system : jsstring :=
  u "You are a website planning expert. Always respond with valid JSON only.".

Definition design (input : AgentInput) : jsstring :=
  substituteVariables DESIGN_AGENT_PROMPT
    [("businessName"%string, businessName input);
     ("businessType"%string, businessType input);
     ("industry"%string,
       match industry input with
       | Some (c :: s) => c :: s
       | _ => businessType input
       end)].

Definition design_system : jsstring :=
  u "You are a web design expert. Always respond with valid JSON only.".

Definition content (input : AgentInput) (summary : json) : jsstring :=
  substituteVariables CONTENT_AGENT_PROMPT
    [("businessName"%string, businessName input);
     ("businessType"%string, businessType input);
     ("pages"%string, stringify summary)].

Definition content_system : jsstring :=
  u "You are an expert content writer. Always respond with valid JSON only.".

(** [data.key] for a payload that is not [null]. *)
Definition member (data : json) (key : string) : value :=
  match data with
  | JObject ms => obj_get (u key) ms
  | _ => None
  end.

(** What an agent makes of a payload that is not [null]. *)
Definition planning_output (payload : json) : AgentOutput :=
  {| success := true;
     confidence := as_number (member payload "confidence");
     data := PlanData (member payload "pages") (member payload "features")
               (member payload "navigation") (member payload "siteMap");
     assumptions := member payload "assumptions";
     errors := None |}.

Definition design_output (payload : json) : AgentOutput :=
  {| success := true;
     confidence := as_number (member payload "confidence");
     data := DesignData (member payload "theme") (member payload "colorPalette")
               (member payload "typography") (member payload "style");
     assumptions := None;
     errors := None |}.

Definition content_output (payload : json) : AgentOutput :=
  {| success := true;
     confidence := as_number (member payload "confidence");
     data := ContentData (member payload "pages")
               (if truthy (member payload "posts") then member payload "posts"
                else Some (JArray []));
     assumptions := None;
     errors := None |}.

(** The request has a model, a number of tokens and a temperature that
    are not empty, zero or NaN, and carries the given prompts. *)
Definition sendable (prompt : jsstring) (system : option jsstring)
  (req : AIService.request) : Prop :=
  truthy (Some (JString (AIService.req_model req))) = true
  /\ truthy (Some (JNumber (AIService.req_max_tokens req))) = true
  /\ truthy (Some (JNumber (AIService.req_temperature req))) = true
  /\ AIService.req_prompt req = prompt
  /\ AIService.req_system req = system.

(** The output of an agent's [catch] block. *)
Definition failed_output (msg : jsstring) : AgentOutput :=
  {| success := false; confidence := JsNumber.zero; data := NoData;
     assumptions := None; errors := Some [msg] |}.

(** What becomes of the answer to a request: the payload read from it,
    or the message of the error on the way. *)
Definition answer (ai : AIService.t) (prompt system : jsstring) : json + jsstring :=
  match AIService.generateCompletion ai prompt (Some system) with
  | Thrown e => inr (message e)
  | Returned text =>
      match AIService.parseJSONResponse text with
      | Thrown e => inr (message e)
      | Returned JNull =>
          match get JNull "confidence" with
          | Thrown e => inr (message e)
          | Returned _ => inl JNull
          end
      | Returned payload => inl payload
      end
  end.

(** The output of an agent for an answer. *)
Definition agent_result (o : json + jsstring) (output : json -> AgentOutput) : AgentOutput :=
  match o with
  | inl payload => output payload
  | inr msg => failed_output msg
  end.

Definition content_result (ai : AIService.t) (input : AgentInput) (pages : value)
  : AgentOutput :=
  match ContentAgent.pages_summary pages with
  | Thrown e => failed_output (message e)
  | Returned summary =>
      agent_result (answer ai (content input summary) content_system) content_output
  end.

(** What a run does when planning succeeds. *)
Definition full_trace : list Orchestrator.effect :=
  [Orchestrator.progress_planning; Orchestrator.Invoked Orchestrator.Planning;
   Orchestrator.progress_design; Orchestrator.Invoked Orchestrator.Design;
   Orchestrator.progress_content; Orchestrator.Invoked Orchestrator.Content;
   Orchestrator.progress_complete].

(** The error messages a run takes from an agent's output. *)
Definition failure_messages (r : AgentOutput) : list jsstring :=
  match errors r with
  | Some es => if success r then [] else es
  | None => []
  end.

End Prompts.

Module MoreScenarios.

Import JsString Js.

(** A provider that answers every request with a payload that holds a
    confidence and nothing else. *)
Definition terse : AIService.t :=
  {| AIService.config := Scenarios.anthropic_config;
     AIService.messages_create :=
       fun _ => Returned [AIService.TextBlock (uq "{'confidence': 0.9}")] |}.

(** A provider as [terse], but one that rejects every request with a
    temperature of zero, with no model or with no room for tokens. *)
Definition strict : AIService.t :=
  {| AIService.config := Scenarios.anthropic_config;
     AIService.messages_create :=
       fun req =>
         if Js.truthy (Some (Json.JNumber (AIService.req_temperature req)))
            && Js.truthy (Some (Json.JNumber (AIService.req_max_tokens req)))
            && Js.truthy (Some (Json.JString (AIService.req_model req)))
         then Returned [AIService.TextBlock (uq "{'confidence': 0.9}")]
         else Thrown (Error (u "invalid request")) |}.

End MoreScenarios.

(* ===================================================================== *)
(** * middleware/error.ts, middleware/auth.ts *)
(* ===================================================================== *)

Module Http.

Import JsString Json Js.

(** What an asynchronous service call rejects with: an [AppError]
    (middleware/error.ts), or an error of another class. *)
Inductive failure : Type :=
| AppError (message : jsstring) (statusCode : Z)
| Raised (e : exn).

Inductive result (A : Type) : Type :=
| Resolved (a : A)
| Rejected (f : failure).
Arguments Resolved {A} a.
Arguments Rejected {A} f.

End Http.

Module Auth.

Import JsString Json Js Http.

(** How the middleware hands the request over: [next()] with the decoded
    token as [req.user], or [next(error)]. *)
Inductive handover : Type :=
| Proceed (user : json)
| Refuse (error : failure).

(** [s.replace(p, '')] for a string [p]: the leftmost occurrence of [p]
    is dropped. *)
Definition remove_first (p s : jsstring) : jsstring :=
  match find p s with
  | Some (before, after) => before ++ after
  | None => s
  end.

(** [authenticate]; [verify token] is [jwt.verify(token, JWT_SECRET)],
    [None] when it throws, and [authorization] the header of the request,
    [None] when there is none. *)
Definition authenticate (verify : jsstring -> option json)
  (authorization : option jsstring) : handover :=
  match option_map (remove_first (u "Bearer ")) authorization with
  | None | Some [] => Refuse (AppError (u "Authentication required") 401)
  | Some token =>
      match verify token with
      | Some decoded => Proceed decoded
      | None => Refuse (AppError (u "Invalid token") 401)
      end
  end.

End Auth.

(* ===================================================================== *)
(** * services/site.service.ts *)
(* ===================================================================== *)

Module SiteService.

Import JsString Json Js Http.

(** The [data] of [prisma.site.create]. *)
Record new_site : Type := {
  name : value;
  businessType : value;
  description : value;
  status : jsstring;
  userId : jsstring
}.

(** A stored site, as far as the service reads it. *)
Record site : Type := {
  id : jsstring;
  record : new_site
}.

(** The outside of the service: the database and the Python engine.
    [http_post url body] is the [data] of the response ([None] when it
    has none), or the error [axios.post] rejects with. *)
Record world : Type := {
  db_create : new_site -> outcome site;
  db_update : jsstring -> jsstring -> outcome unit;
  http_post : jsstring -> json -> outcome value
}.

Inductive action : Type :=
| Create (s : new_site)
| Post (url : jsstring) (body : json)
| Update (siteId status : jsstring).

Definition callback (siteId : jsstring) : jsstring :=
  u "http://localhost:3001/api/v1/sites/" ++ siteId ++ u "/webhook".

(** [{ ...data, webhook_url: callback }] for the members [data] of the
    request body. *)
Definition request_body (data : list (jsstring * json)) (siteId : jsstring) : json :=
  JObject (obj_set (u "webhook_url") (JString (callback siteId)) data).

(** [response.data.job_id] *)
Definition job_id_of (response_data : value) : outcome value :=
  match response_data with
  | None =>
      Thrown (TypeError (u "Cannot read properties of undefined (reading 'job_id')"))
  | Some d => get d "job_id"
  end.

Definition start_failed : failure := AppError (u "Failed to start site generation") 500.

(** [createSite(userId, data)], [data] being an object with the members
    given; [python_api_url] is [PYTHON_API_URL]. *)
Definition createSite (w : world) (python_api_url userId : jsstring)
  (data : list (jsstring * json)) : list action * result (site * value) :=
  (* 1. Create Site record in DB (status: GENERATING) *)
  let input := {| name := obj_get (u "business_name") data;
                  businessType := obj_get (u "business_type") data;
                  description := obj_get (u "description") data;
                  status := u "GENERATING";
                  userId := userId |} in
  match db_create w input with
  | Thrown e => ([Create input], Rejected (Raised e))
  | Returned created =>
      (* 2. Call Python AI Engine to start generation *)
      let url := python_api_url ++ u "/api/v1/sites/generate" in
      let body := request_body data (id created) in
      match (response_data <- http_post w url body ;; job_id_of response_data) with
      | Returned job_id => ([Create input; Post url body], Resolved (created, job_id))
      | Thrown _ =>
          (* If AI call fails, mark site as failed *)
          ([Create input; Post url body; Update (id created) (u "FAILED")],
           match db_update w (id created) (u "FAILED") with
           | Returned _ => Rejected start_failed
           | Thrown e => Rejected (Raised e)
           end)
      end
  end.

End SiteService.

Module SiteScenarios.

Import JsString Json Js.

(** A database that stores every site under the id [site-1], and an
    engine that answers every request with the job [job-7]. *)
Definition engine_up : SiteService.world :=
  {| SiteService.db_create :=
       fun s => Returned {| SiteService.id := u "site-1"; SiteService.record := s |};
     SiteService.db_update := fun _ _ => Returned tt;
     SiteService.http_post :=
       fun _ _ => Returned (Some (JObject [(u "job_id", JString (u "job-7"))])) |}.

(** A request body that names a callback of its own. *)
Definition redirecting : list (jsstring * json) :=
  [(u "business_name", JString (u "Joe's Pizza"));
   (u "webhook_url", JString (u "https://elsewhere.example/hook"))].

End SiteScenarios.

(* ===================================================================== *)
(** * integrations/wordpress/api-client.ts: the base URL *)
(* ===================================================================== *)

Module ApiClient.

Import JsString.

(** [url.endsWith('/')] *)
Definition ends_with_slash (url : jsstring) : bool :=
  match rev url with
  | c :: _ => (c =? 47)%N
  | [] => false
  end.

(** The [baseURL] the constructor gives the HTTP client. *)
Definition baseURL (url : jsstring) : jsstring :=
  (if ends_with_slash url then url else url ++ u "/") ++ u "wp-json/wp/v2/".

End ApiClient.

(* ===================================================================== *)
(** * Properties *)
(* ===================================================================== *)

(** ** The embedding on concrete inputs *)

Module Examples.

Import JsString Json Js.

Example trim_both_ends : trim (u "  wp-cli 2.9 ") = u "wp-cli 2.9".
Proof. reflexivity. Qed.

Example trim_no_break_space : trim [160%N; 97%N; 8232%N] = [97%N].
Proof. reflexivity. Qed.

(** Reading a decimal agrees with the Standard Library's binary64
    division of its numerator by its denominator. *)
Example one_tenth :
  JsNumber.of_decimal false 1 (-1)
  = SFdiv 53 1024 (JsNumber.of_Z 1) (JsNumber.of_Z 10).
Proof. vm_compute. reflexivity. Qed.

Example eighty_five_hundredths :
  JsNumber.of_decimal false 85 (-2)
  = SFdiv 53 1024 (JsNumber.of_Z 85) (JsNumber.of_Z 100).
Proof. vm_compute. reflexivity. Qed.

Example largest_double :
  JsNumber.of_literal (u "1.7976931348623157e308")
  = Some (S754_finite false 9007199254740991 971).
Proof. vm_compute. reflexivity. Qed.

Example overflow_is_infinity :
  JsNumber.of_literal (u "1.7976931348623159e308") = Some (S754_infinity false).
Proof. vm_compute. reflexivity. Qed.

Example smallest_double :
  JsNumber.of_literal (u "5e-324") = Some (S754_finite false 1 (-1074)).
Proof. vm_compute. reflexivity. Qed.

Example half_way_rounds_to_even :
  JsNumber.of_literal (u "9007199254740993")
  = Some (S754_finite false 4503599627370496 1).
Proof. vm_compute. reflexivity. Qed.

Example leading_zero_refused : JsNumber.of_literal (u "0123") = None.
Proof. reflexivity. Qed.

Example print_fraction :
  JsNumber.to_string (JsNumber.of_decimal false 85 (-2)) = u "0.85".
Proof. vm_compute. reflexivity. Qed.

Example print_large :
  JsNumber.to_string (JsNumber.of_decimal false 1 21) = u "1e+21".
Proof. vm_compute. reflexivity. Qed.

Example print_plain_integer :
  JsNumber.to_string (JsNumber.of_decimal false 1 20) = u "100000000000000000000".
Proof. vm_compute. reflexivity. Qed.

Example print_small :
  JsNumber.to_string (JsNumber.of_decimal false 1 (-7)) = u "1e-7".
Proof. vm_compute. reflexivity. Qed.

Example print_sum :
  JsNumber.to_string
    (JsNumber.add (JsNumber.of_decimal false 1 (-1)) (JsNumber.of_decimal false 2 (-1)))
  = u "0.30000000000000004".
Proof. vm_compute. reflexivity. Qed.

Example parse_object :
  parse (uq " {'a': [1, true, null], 'b': 'x\u0041', 'a': -2.5e1} ")
  = Some (JObject [(u "a", JNumber (JsNumber.of_decimal true 25 0));
                   (u "b", JString (u "xA"))]).
Proof. vm_compute. reflexivity. Qed.

(** Array indices are enumerated first, in ascending order; a text that
    is not canonical, or too large, is an ordinary key. *)
Example parse_key_order :
  List.map fst
    (match parse (uq "{'b':1, '10':2, '9':3, '01':4, '4294967295':5, '0':6, '9':7}") with
     | Some (JObject ms) => ms
     | _ => []
     end)
  = [u "0"; u "9"; u "10"; u "b"; u "01"; u "4294967295"].
Proof. vm_compute. reflexivity. Qed.

Example parse_trailing_comma : parse (uq "[1, 2,]") = None.
Proof. reflexivity. Qed.

Example parse_raw_line_feed_in_string : parse (34%N :: 10%N :: [34%N]) = None.
Proof. reflexivity. Qed.

Example stringify_escapes :
  stringify (JString [34%N; 10%N; 1%N; 55296%N; 233%N])
  = uq "'\" ++ uq "'\n\u0001\ud800" ++ [233%N; 34%N].
Proof. reflexivity. Qed.

Example replace_patterns :
  PromptTemplates.replace_all (u "aa") (u "[$`|$'|$&|$$|$1]") (u "xaaaaay")
  = u "x[x|aaay|aa|$|$1][xaa|ay|aa|$|$1]ay".
Proof. reflexivity. Qed.

Example fenced_block_is_extracted :
  AIService.parseJSONResponse Scenarios.fenced_response
  = Returned
      (JObject
         [(u "pages",
            JArray [JObject [(u "title", JString (u "Home")); (u "slug", JString (u "home"));
                             (u "priority", JNumber (JsNumber.of_Z 1))]]);
          (u "confidence", JNumber (JsNumber.of_decimal false 85 (-2)))]).
Proof. vm_compute. reflexivity. Qed.

Example mock_run_confidence :
  JsNumber.to_string
    (Orchestrator.overallConfidence
       (snd (Orchestrator.orchestrate (Orchestrator.make Scenarios.mock) Scenarios.joes_pizza)))
  = u "0.8166666666666668".
Proof. vm_compute. reflexivity. Qed.

Example mock_run_trace :
  fst (Orchestrator.orchestrate (Orchestrator.make Scenarios.mock) Scenarios.joes_pizza)
  = [Orchestrator.progress_planning; Orchestrator.Invoked Orchestrator.Planning;
     Orchestrator.progress_design; Orchestrator.Invoked Orchestrator.Design;
     Orchestrator.progress_content; Orchestrator.Invoked Orchestrator.Content;
     Orchestrator.progress_complete].
Proof. vm_compute. reflexivity. Qed.

Example deployment_stops_at_broken_plugin :
  WordPress.commands
    (fst (WordPress.deploySite Scenarios.ssh_config Scenarios.one_plugin_fails
            (u "site-1") Scenarios.site))
  = [uq "wp core install --url='https://joes.example' --title='Joe" ++ [39%N]
       ++ uq "s Pizza' --admin_user='admin' --admin_password='secret' --admin_email='joe@joes.example'";
     u "wp theme install astra --activate";
     u "wp plugin install wordpress-seo --activate";
     u "wp plugin install broken-plugin --activate"].
Proof. vm_compute. reflexivity. Qed.

End Examples.

Module JsStringFacts.

Import JsString.

Lemma eqb_eq (a b : t) : eqb a b = true <-> a = b.
Proof.
  unfold eqb. destruct (list_eq_dec N.eq_dec a b); split; congruence.
Qed.

Lemma eqb_refl (a : t) : eqb a a = true.
Proof. apply eqb_eq. reflexivity. Qed.

Lemma eqb_neq (a b : t) : eqb a b = false <-> a <> b.
Proof.
  unfold eqb. destruct (list_eq_dec N.eq_dec a b); split; congruence.
Qed.

Lemma trim_start_split (s : t) :
  exists l, s = l ++ trim_start s /\ forallb is_trim_space l = true.
Proof.
  induction s as [|c s [l [Hs Hl]]]; simpl.
  - exists []. auto.
  - destruct (is_trim_space c) eqn:Hc.
    + exists (c :: l). simpl. rewrite Hc, Hl. split; [congruence | reflexivity].
    + exists []. auto.
Qed.

Lemma trim_start_head (s : t) :
  match trim_start s with
  | [] => True
  | c :: _ => is_trim_space c = false
  end.
Proof.
  induction s as [|c s IH]; simpl; [exact I|].
  destruct (is_trim_space c) eqn:Hc; [exact IH | exact Hc].
Qed.



Lemma trim_end_split (s : t) :
  exists r, s = trim_end s ++ r /\ forallb is_trim_space r = true.
Proof.
  unfold trim_end.
  destruct (trim_start_split (rev s)) as [l [Hs Hl]].
  exists (rev l). split.
  - rewrite <- rev_app_distr, <- Hs, rev_involutive. reflexivity.
  - rewrite forallb_forall in *. intros x Hx. apply Hl. now apply in_rev.
Qed.

Lemma last_rev_head (s : t) (c d : N) :
  last (rev (c :: s)) d = c.
Proof. simpl. apply last_last. Qed.

Lemma trim_end_last (s : t) (d : N) :
  trim_end s <> [] -> is_trim_space (last (trim_end s) d) = false.
Proof.
  unfold trim_end. intros Hne.
  pose proof (trim_start_head (rev s)) as Hh.
  destruct (trim_start (rev s)) as [|c s'] eqn:E.
  - now elim Hne.
  - rewrite last_rev_head. exact Hh.
Qed.

(** [trim s] is [s] without a white-space prefix and a white-space
    suffix, and has no white space at either end. *)
Lemma trim_spec (s : t) :
  (exists l r, s = l ++ trim s ++ r
               /\ forallb is_trim_space l = true
               /\ forallb is_trim_space r = true)
  /\ no_space_ends (trim s).
Proof.
  unfold trim. split.
  - destruct (trim_start_split s) as [l [Hs Hl]].
    destruct (trim_end_split (trim_start s)) as [r [Ht Hr]].
    exists l, r. repeat split; auto. rewrite <- Ht. exact Hs.
  - unfold no_space_ends.
    destruct (trim_end (trim_start s)) as [|c s'] eqn:E; [exact I|].
    split.
    + pose proof (trim_start_head s) as Hh.
      destruct (trim_end_split (trim_start s)) as [r [Ht _]].
      rewrite E in Ht. rewrite Ht in Hh. exact Hh.
    + rewrite <- E. apply trim_end_last. rewrite E. discriminate.
Qed.

End JsStringFacts.

(* ===================================================================== *)
(** ** The remote command channel and the REST client *)
(* ===================================================================== *)

Module WordPressFacts.

Import JsString Js WordPress.

Lemma executeCommand_cases (config : SSHConfig) (host_ : remote) (cmd : jsstring) :
  match host_ (fullCommand config cmd) with
  | Closes 0 out _ => executeCommand config host_ cmd = Returned (trim out)
  | Closes code _ err =>
      executeCommand config host_ cmd
      = Thrown (SSHError (u "Command failed with code " ++ of_Z code ++ u ": " ++ err)
                         (Some cmd))
  | ConnectFails e | ExecFails e =>
      executeCommand config host_ cmd = Thrown (SSHError (message e) (Some cmd))
  end.
Proof.
  unfold executeCommand.
  destruct (host_ (fullCommand config cmd)) as [e|e|code out err]; try reflexivity.
  destruct code; reflexivity.
Qed.

Lemma executeCommand_succeeds (config : SSHConfig) (host_ : remote) (cmd : jsstring) :
  succeeds (host_ (fullCommand config cmd)) = true ->
  exists out, executeCommand config host_ cmd = Returned out.
Proof.
  unfold succeeds, executeCommand.
  destruct (host_ (fullCommand config cmd)) as [e|e|code out err]; try discriminate.
  intros H. rewrite H. simpl. eauto.
Qed.

Lemma executeCommand_fails (config : SSHConfig) (host_ : remote) (cmd : jsstring) :
  succeeds (host_ (fullCommand config cmd)) = false ->
  exists e, executeCommand config host_ cmd = Thrown e
            /\ cls e = ClsSSHError /\ command e = Some cmd.
Proof.
  unfold succeeds, executeCommand.
  destruct (host_ (fullCommand config cmd)) as [e|e|code out err].
  - intros _. eexists. split; [reflexivity | split; reflexivity].
  - intros _. eexists. split; [reflexivity | split; reflexivity].
  - intros H. rewrite H. simpl. eexists. split; [reflexivity | split; reflexivity].
Qed.

Lemma executeCommand_returned (config : SSHConfig) (host_ : remote) (cmd out : jsstring) :
  executeCommand config host_ cmd = Returned out ->
  succeeds (host_ (fullCommand config cmd)) = true.
Proof.
  unfold succeeds, executeCommand.
  destruct (host_ (fullCommand config cmd)) as [e|e|code o err]; try discriminate.
  destruct (code =? 0); [reflexivity | discriminate].
Qed.

Lemma executeCommand_thrown (config : SSHConfig) (host_ : remote) (cmd : jsstring) (e : exn) :
  executeCommand config host_ cmd = Thrown e ->
  succeeds (host_ (fullCommand config cmd)) = false.
Proof.
  unfold succeeds, executeCommand.
  destruct (host_ (fullCommand config cmd)) as [e'|e'|code o err]; try reflexivity.
  destruct (code =? 0); [discriminate | reflexivity].
Qed.

Lemma commands_app (a b : list action) :
  commands (a ++ b) = commands a ++ commands b.
Proof. unfold commands. apply flat_map_app. Qed.

Lemma final_status_app_set (acts : list action) (i : jsstring) (st : site_status) :
  final_status (acts ++ [SetStatus i st]) = Some st.
Proof.
  induction acts as [|a acts IH]; simpl; [reflexivity|].
  rewrite IH. reflexivity.
Qed.

Lemma install_plugins_spec (config : SSHConfig) (host_ : remote) (ps : list jsstring) :
  stops_at_first_failure config host_ (List.map wpPluginInstall_command ps)
    (fst (install_plugins config host_ ps)) (snd (install_plugins config host_ ps)).
Proof.
  induction ps as [|p ps IH]; simpl.
  - split; [reflexivity | intros c []].
  - destruct (executeCommand config host_ (wpPluginInstall_command p)) as [out|e] eqn:E.
    + destruct (install_plugins config host_ ps) as [acts r]. simpl in *.
      apply executeCommand_returned in E.
      destruct r as [[]|e]; simpl in *.
      * destruct IH as [Hc Hall]. split.
        -- now rewrite Hc.
        -- intros c [<-|Hin]; auto.
      * destruct IH as [pre [cmd [post [Ha [Hp [Hx [Hall Hns]]]]]]].
        exists (Command (wpPluginInstall_command p) :: pre), cmd, post.
        split; [now rewrite Ha|]. split; [simpl; now rewrite Hp|].
        split; [exact Hx|]. split.
        -- simpl. intros c [<-|Hin]; auto.
        -- intros i st [Hin|Hin]; [discriminate | now apply (Hns i st)].
    + simpl. exists [], (wpPluginInstall_command p), (List.map wpPluginInstall_command ps).
      split; [reflexivity|]. split; [reflexivity|]. split; [exact E|].
      split; [intros c [] | intros i st []].
Qed.

Lemma deploy_steps_spec (config : SSHConfig) (host_ : remote) (siteId : jsstring)
  (d : deployment_data) :
  match deploy_steps config host_ siteId d with
  | (acts, Returned _) =>
      (exists acts', acts = acts' ++ [SetStatus siteId DEPLOYED;
                                     Progress (u "completed") (u "Deployment successful!")]
                     /\ commands acts' = planned_commands d)
      /\ forall c, In c (planned_commands d) -> succeeds (host_ (fullCommand config c)) = true
  | (acts, Thrown e) =>
      stops_at_first_failure config host_ (planned_commands d) acts (Thrown e)
  end.
Proof.
  unfold deploy_steps, planned_commands.
  set (core := wpCoreInstall_command (url d) (title d) (adminUser d) (adminPass d) (adminEmail d)).
  destruct (executeCommand config host_ core) as [out|e] eqn:Ecore.
  2:{ simpl. exists [Progress (u "core_install") (u "Installing WordPress Core...")], core.
      eexists. split; [reflexivity|]. split; [reflexivity|]. split; [exact Ecore|].
      split; [intros c [] | intros i st [H|[]]; discriminate]. }
  apply executeCommand_returned in Ecore.
  set (a1 := [Progress (u "core_install") (u "Installing WordPress Core..."); Command core]).
  assert (Hthrown : forall a2 cs2 acts e post,
            commands a2 = cs2 ->
            (forall c, In c cs2 -> succeeds (host_ (fullCommand config c)) = true) ->
            (forall i st, ~ In (SetStatus i st) a2) ->
            stops_at_first_failure config host_ post acts (Thrown e) ->
            stops_at_first_failure config host_ (core :: cs2 ++ post) (a1 ++ a2 ++ acts)
              (Thrown e)).
  { intros a2 cs2 acts e post Hc2 Hs2 Hn2 [pre [cmd [post' [Ha [Hp [Hx [Hall Hns]]]]]]].
    exists (a1 ++ a2 ++ pre), cmd, post'.
    split; [rewrite Ha, !app_assoc; reflexivity|].
    split; [rewrite !commands_app, Hc2, Hp, <- !app_assoc; reflexivity|].
    split; [exact Hx|]. split.
    - rewrite !commands_app, Hc2. simpl. intros c [<-|Hin]; [exact Ecore|].
      apply in_app_or in Hin as [Hin|Hin]; auto.
    - intros i st Hin. apply in_app_or in Hin as [Hin|Hin].
      + destruct Hin as [H|[H|[]]]; discriminate.
      + apply in_app_or in Hin as [Hin|Hin]; [now apply (Hn2 i st) | now apply (Hns i st)]. }
  assert (Hplugins : forall a2 cs2,
            commands a2 = cs2 ->
            (forall c, In c cs2 -> succeeds (host_ (fullCommand config c)) = true) ->
            (forall i st, ~ In (SetStatus i st) a2) ->
            match
              (let '(a3, r3) :=
                 match plugins d with
                 | Some (p :: ps) =>
                     let '(acts, r) := install_plugins config host_ (p :: ps) in
                     (Progress (u "plugins_install") (u "Installing plugins...") :: acts, r)
                 | _ => ([], Returned tt)
                 end in
               match r3 with
               | Thrown error => (a1 ++ a2 ++ a3, Thrown error)
               | Returned _ =>
                   (a1 ++ a2 ++ a3
                      ++ [SetStatus siteId DEPLOYED;
                          Progress (u "completed") (u "Deployment successful!")],
                    Returned tt)
               end)
            with
            | (acts, Returned _) =>
                (exists acts', acts = acts' ++ [SetStatus siteId DEPLOYED;
                                               Progress (u "completed") (u "Deployment successful!")]
                               /\ commands acts'
                                  = core :: cs2 ++ match plugins d with
                                                   | Some ps => List.map wpPluginInstall_command ps
                                                   | None => []
                                                   end)
                /\ forall c, In c (core :: cs2 ++ match plugins d with
                                                  | Some ps => List.map wpPluginInstall_command ps
                                                  | None => []
                                                  end)
                             -> succeeds (host_ (fullCommand config c)) = true
            | (acts, Thrown e) =>
                stops_at_first_failure config host_
                  (core :: cs2 ++ match plugins d with
                                  | Some ps => List.map wpPluginInstall_command ps
                                  | None => []
                                  end) acts (Thrown e)
            end).
  { intros a2 cs2 Hc2 Hs2 Hn2.
    destruct (plugins d) as [[|p ps]|].
    - simpl. split.
      + exists (a1 ++ a2 ++ []). split; [now rewrite <- !app_assoc|].
        rewrite !commands_app, Hc2. reflexivity.
      + intros c [<-|Hin]; [exact Ecore|]. rewrite app_nil_r in Hin. auto.
    - pose proof (install_plugins_spec config host_ (p :: ps)) as Hspec.
      destruct (install_plugins config host_ (p :: ps)) as [acts r]. simpl fst in Hspec.
      simpl snd in Hspec. destruct r as [[]|e].
      + destruct Hspec as [Hc Hall]. split.
        * exists (a1 ++ a2 ++ Progress (u "plugins_install") (u "Installing plugins...") :: acts).
          split; [now rewrite <- !app_assoc|].
          rewrite !commands_app, Hc2. simpl. change (flat_map _ acts) with (commands acts).
          now rewrite Hc.
        * intros c [<-|Hin]; [exact Ecore|].
          apply in_app_or in Hin as [Hin|Hin]; auto.
      + apply (Hthrown a2 cs2 _ e _ Hc2 Hs2 Hn2).
        destruct Hspec as [pre [cmd [post [Ha [Hp [Hx [Hall Hns]]]]]]].
        exists (Progress (u "plugins_install") (u "Installing plugins...") :: pre), cmd, post.
        split; [now rewrite Ha|]. split; [exact Hp|]. split; [exact Hx|].
        split; [exact Hall|].
        intros i st [H|H]; [discriminate | now apply (Hns i st)].
    - simpl. split.
      + exists (a1 ++ a2 ++ []). split; [now rewrite <- !app_assoc|].
        rewrite !commands_app, Hc2. reflexivity.
      + intros c [<-|Hin]; [exact Ecore|]. rewrite app_nil_r in Hin. auto. }
  destruct (theme d) as [[|c th]|].
  - apply (Hplugins [] []); [reflexivity | intros ? [] | intros ? ? []].
  - set (tcmd := wpThemeInstall_command (c :: th)).
    destruct (executeCommand config host_ tcmd) as [out'|e] eqn:Etheme.
    + apply executeCommand_returned in Etheme.
      apply (Hplugins [Progress (u "theme_install") (u "Installing theme: " ++ c :: th);
                       Command tcmd] [tcmd]).
      * reflexivity.
      * intros c' [<-|[]]. exact Etheme.
      * intros i st [H|[H|[]]]; discriminate.
    + simpl.
      exists (a1 ++ [Progress (u "theme_install") (u "Installing theme: " ++ c :: th)]), tcmd.
      eexists. split; [reflexivity|]. split; [reflexivity|]. split; [exact Etheme|]. split.
      * simpl. intros c' [<-|[]]. exact Ecore.
      * intros i st [H|[H|[H|[]]]]; discriminate.
  - apply (Hplugins [] []); [reflexivity | intros ? [] | intros ? ? []].
Qed.

End WordPressFacts.

(** C7. A remote command that exits with code 0 resolves with its standard
    output, trimmed: the output without a white-space prefix and suffix,
    with no white space left at either end.  One that exits with another
    code rejects, and never resolves, with an [SSHError] whose [command] is
    the command string and whose message ends with the captured standard
    error. *)
Theorem C7_executeCommand_exit_code
  (config : WordPress.SSHConfig) (host_ : WordPress.remote)
  (cmd : jsstring) (code : Z) (out err : jsstring) :
  host_ (WordPress.fullCommand config cmd) = WordPress.Closes code out err ->
  (code = 0 ->
     exists result l r,
       WordPress.executeCommand config host_ cmd = Js.Returned result
       /\ out = l ++ result ++ r
       /\ forallb JsString.is_trim_space l = true
       /\ forallb JsString.is_trim_space r = true
       /\ JsString.no_space_ends result)
  /\ (code <> 0 ->
        exists e prefix,
          WordPress.executeCommand config host_ cmd = Js.Thrown e
          /\ (forall result, WordPress.executeCommand config host_ cmd <> Js.Returned result)
          /\ Js.cls e = Js.ClsSSHError
          /\ Js.command e = Some cmd
          /\ Js.message e = prefix ++ err).
Proof.
  intros Hhost. unfold WordPress.executeCommand. rewrite Hhost. split.
  - intros ->. simpl.
    destruct (JsStringFacts.trim_spec out) as [[l [r [Hout [Hl Hr]]]] Hends].
    exists (JsString.trim out), l, r. auto.
  - intros Hcode.
    assert (Hz : (code =? 0) = false) by (apply Z.eqb_neq; exact Hcode).
    rewrite Hz. simpl.
    eexists. exists (JsString.u "Command failed with code " ++ JsString.of_Z code ++ JsString.u ": ").
    split; [reflexivity|]. split; [discriminate|].
    split; [reflexivity|]. split; [reflexivity|].
    simpl. rewrite <- !app_assoc. reflexivity.
Qed.

Lemma C7_executeCommand_exit_code_witness :
  (fun _ : jsstring => WordPress.Closes 0 (JsString.u "  Success: done. ") [])
    (WordPress.fullCommand Scenarios.ssh_config (JsString.u "wp plugin list"))
  = WordPress.Closes 0 (JsString.u "  Success: done. ") []
  /\ exists result,
       WordPress.executeCommand Scenarios.ssh_config
         (fun _ => WordPress.Closes 0 (JsString.u "  Success: done. ") [])
         (JsString.u "wp plugin list") = Js.Returned result.
Proof.
  split; [reflexivity|].
  destruct (C7_executeCommand_exit_code Scenarios.ssh_config
              (fun _ => WordPress.Closes 0 (JsString.u "  Success: done. ") [])
              (JsString.u "wp plugin list") 0
              (JsString.u "  Success: done. ") [] eq_refl) as [H0 _].
  destruct (H0 eq_refl) as [result [l [r [Hrun _]]]].
  exists result. exact Hrun.
Defined.

(** C8 (as stated, refuted).  Against a host that cannot be reached the
    command channel rejects with an error of class [SSHError], the class it
    also uses for a non-zero exit code, and not with a network error
    ([WPNetworkError] is the only network error class of [errors.ts]). *)
Lemma C8_unreachable_host_counterexample :
  exists e,
    WordPress.executeCommand Scenarios.ssh_config Scenarios.unreachable
      (JsString.u "wp core version") = Js.Thrown e
    /\ Js.cls e <> Js.ClsWPNetworkError
    /\ Js.cls e = Js.ClsSSHError
    /\ exists e',
         WordPress.executeCommand Scenarios.ssh_config
           (fun _ => WordPress.Closes 1 [] []) (JsString.u "wp core version")
         = Js.Thrown e'
         /\ Js.cls e' = Js.cls e.
Proof.
  eexists. split; [reflexivity|].
  split; [discriminate|]. split; [reflexivity|].
  eexists. split; reflexivity.
Qed.

(** C8 (amended).  When the connection cannot be established the command
    channel rejects with an [SSHError] that carries the connection error's
    message and the command: the same class as for a non-zero exit code,
    told apart only by its message. *)
Theorem C8_unreachable_host_is_SSHError
  (config : WordPress.SSHConfig) (host_ : WordPress.remote)
  (cmd : jsstring) (error : Js.exn) :
  host_ (WordPress.fullCommand config cmd) = WordPress.ConnectFails error ->
  WordPress.executeCommand config host_ cmd
  = Js.Thrown (WordPress.SSHError (Js.message error) (Some cmd))
  /\ Js.cls (WordPress.SSHError (Js.message error) (Some cmd)) = Js.ClsSSHError
  /\ Js.instance_of (WordPress.SSHError (Js.message error) (Some cmd)) Js.ClsWPNetworkError
     = false.
Proof.
  intros Hhost. unfold WordPress.executeCommand. rewrite Hhost.
  repeat split.
Qed.

Lemma C8_unreachable_host_is_SSHError_witness :
  Scenarios.unreachable
    (WordPress.fullCommand Scenarios.ssh_config (JsString.u "wp core version"))
  = WordPress.ConnectFails
      (Js.mk_exn Js.ClsForeign (JsString.u "Error")
         (JsString.u "connect ECONNREFUSED 203.0.113.7:22") None None None)
  /\ WordPress.executeCommand Scenarios.ssh_config Scenarios.unreachable
       (JsString.u "wp core version")
     = Js.Thrown (WordPress.SSHError (JsString.u "connect ECONNREFUSED 203.0.113.7:22")
                    (Some (JsString.u "wp core version"))).
Proof.
  split; [reflexivity|].
  exact (proj1 (C8_unreachable_host_is_SSHError Scenarios.ssh_config Scenarios.unreachable
                  (JsString.u "wp core version") _ eq_refl)).
Defined.

(** C9. The response interceptor classifies a rejected call three ways,
    by the class of the error it throws: [WPAuthError] exactly when a
    response with status 401 was received; [WPError], carrying the status
    and the body's message (or a default), exactly when a response with
    another status was received; [WPNetworkError], carrying the transport
    message, exactly when a request was sent and no response received.
    The three classes are distinct, so the cases exclude each other. *)
Theorem C9_intercept_three_way (error : WordPress.axios_error) :
  (Js.cls (WordPress.intercept error) = Js.ClsWPAuthError
   <-> exists resp, WordPress.response error = Some resp /\ WordPress.status resp = 401)
  /\ (Js.cls (WordPress.intercept error) = Js.ClsWPError
      <-> exists resp, WordPress.response error = Some resp /\ WordPress.status resp <> 401)
  /\ (Js.cls (WordPress.intercept error) = Js.ClsWPNetworkError
      <-> WordPress.response error = None /\ WordPress.request error = true)
  /\ (forall resp,
        WordPress.response error = Some resp -> WordPress.status resp <> 401 ->
        Js.statusCode (WordPress.intercept error) = Some (WordPress.status resp)
        /\ Js.message (WordPress.intercept error)
           = match WordPress.body resp with
             | Some {| WordPress.body_message := Some (c :: s) |} => c :: s
             | _ => JsString.u "WordPress API Error"
             end)
  /\ (WordPress.response error = None -> WordPress.request error = true ->
      Js.message (WordPress.intercept error) = WordPress.axios_message error).
Proof.
  unfold WordPress.intercept.
  destruct error as [[[st bd]|] req msg]; simpl.
  - destruct (Z.eqb_spec st 401) as [E|E]; simpl.
    + split; [split; [intros _; eexists; split; [reflexivity | exact E] | reflexivity]|].
      split; [split; [discriminate | intros [r [Hr Hs]]; injection Hr as <-; now elim Hs]|].
      split; [split; [discriminate | intros [Hr _]; discriminate]|].
      split; [intros r Hr Hs; injection Hr as <-; now elim Hs | discriminate].
    + split; [split; [discriminate | intros [r [Hr Hs]]; injection Hr as <-; now elim E]|].
      split; [split; [intros _; eexists; split; [reflexivity | exact E] | reflexivity]|].
      split; [split; [discriminate | intros [Hr _]; discriminate]|].
      split; [|discriminate].
      intros r Hr Hs. injection Hr as <-. simpl. split; [reflexivity|].
      destruct bd as [[[[|c s]|] bc]|]; reflexivity.
  - destruct req; simpl.
    + split; [split; [discriminate | intros [r [Hr _]]; discriminate]|].
      split; [split; [discriminate | intros [r [Hr _]]; discriminate]|].
      split; [split; auto|].
      split; [discriminate | reflexivity].
    + split; [split; [discriminate | intros [r [Hr _]]; discriminate]|].
      split; [split; [discriminate | intros [r [Hr _]]; discriminate]|].
      split; [split; [discriminate | intros [_ Hr]; discriminate]|].
      split; discriminate.
Qed.

(* ===================================================================== *)
(** ** Deployment *)
(* ===================================================================== *)

Module DeployFacts.

Import JsString Js WordPress WordPressFacts.

(** Two ways of cutting a list at its first element that fails a test
    agree. *)
Lemma first_failure_unique {A : Type} (ok : A -> bool) (l1 l1' l2 l2' : list A) (x x' : A) :
  l1 ++ x :: l2 = l1' ++ x' :: l2' ->
  (forall a, In a l1 -> ok a = true) -> ok x = false ->
  (forall a, In a l1' -> ok a = true) -> ok x' = false ->
  l1 = l1' /\ x = x' /\ l2 = l2'.
Proof.
  revert l1'. induction l1 as [|a l1 IH]; intros [|a' l1'] E H1 Hx H1' Hx'; simpl in E.
  - injection E as -> ->. auto.
  - injection E as -> _. rewrite (H1' a') in Hx by (left; reflexivity). discriminate.
  - injection E as -> _. rewrite (H1 x') in Hx' by (left; reflexivity). discriminate.
  - injection E as -> E.
    destruct (IH l1' E) as [-> [-> ->]]; auto.
    + intros b Hb. apply H1. now right.
    + intros b Hb. apply H1'. now right.
Qed.

Lemma deploySite_thrown (config : SSHConfig) (host_ : remote) (siteId : jsstring)
  (d : deployment_data) (acts : list action) (e : exn) :
  deploy_steps config host_ siteId d = (acts, Thrown e) ->
  deploySite config host_ siteId d
  = (Progress (u "init") (u "Initializing deployment...") :: acts
       ++ [Progress (u "failed") (message e); SetStatus siteId FAILED],
     Thrown e).
Proof. unfold deploySite. intros ->. reflexivity. Qed.

(** A deployment in which some planned command does not succeed stops at
    the first such command, reports it and leaves the site FAILED. *)
Lemma deploySite_failure (config : SSHConfig) (host_ : remote) (siteId : jsstring)
  (d : deployment_data) (c : jsstring) :
  In c (planned_commands d) ->
  succeeds (host_ (fullCommand config c)) = false ->
  exists e pre cmd post,
    deploySite config host_ siteId d
    = (pre ++ [Command cmd; Progress (u "failed") (message e); SetStatus siteId FAILED],
       Thrown e)
    /\ executeCommand config host_ cmd = Thrown e
    /\ planned_commands d = commands pre ++ cmd :: post
    /\ (forall c', In c' (commands pre) -> succeeds (host_ (fullCommand config c')) = true)
    /\ (forall i st, ~ In (SetStatus i st) pre).
Proof.
  intros Hin Hfail.
  pose proof (deploy_steps_spec config host_ siteId d) as Hspec.
  destruct (deploy_steps config host_ siteId d) as [acts [[]|e]] eqn:E.
  - destruct Hspec as [_ Hall]. rewrite (Hall c Hin) in Hfail. discriminate.
  - destruct Hspec as [pre [cmd [post [Ha [Hp [Hx [Hall Hns]]]]]]].
    exists e, (Progress (u "init") (u "Initializing deployment...") :: pre), cmd, post.
    split.
    + rewrite (deploySite_thrown _ _ _ _ _ _ E), Ha. simpl. rewrite <- app_assoc. reflexivity.
    + split; [exact Hx|]. split; [exact Hp|]. split; [exact Hall|].
      intros i st [H|H]; [discriminate | now apply (Hns i st)].
Qed.

Lemma exits_nonzero_fails (r : remote_result) :
  exits_nonzero r = true -> succeeds r = false.
Proof.
  destruct r as [e|e|code out err]; simpl; try reflexivity.
  destruct (code =? 0); simpl; congruence.
Qed.

Lemma plugin_planned (d : deployment_data) (ps : list jsstring) (p : jsstring) :
  plugins d = Some ps -> In p ps -> In (wpPluginInstall_command p) (planned_commands d).
Proof.
  intros Hps Hin. unfold planned_commands. rewrite Hps. right.
  apply in_or_app. right. now apply in_map.
Qed.

End DeployFacts.

(** C3. When the plan contains a plugin whose install command exits with a
    non-zero code, the run stops at the first command that fails: that
    command is the last one issued (nothing planned after it is attempted,
    and DEPLOYED is never written), its error is reported by a 'failed'
    progress event and rethrown, and the site is left FAILED.  When every
    command planned before the plugin's install succeeds, the command that
    failed is that install, and the error is the [SSHError] for its exit
    code. *)
Theorem C3_failed_plugin_aborts_deployment
  (config : WordPress.SSHConfig) (host_ : WordPress.remote) (siteId : jsstring)
  (d : WordPress.deployment_data) (ps : list jsstring) (p : jsstring) :
  WordPress.plugins d = Some ps ->
  In p ps ->
  WordPress.exits_nonzero
    (host_ (WordPress.fullCommand config (WordPress.wpPluginInstall_command p))) = true ->
  exists e pre cmd post,
    WordPress.deploySite config host_ siteId d
    = (pre ++ [WordPress.Command cmd;
               WordPress.Progress (JsString.u "failed") (Js.message e);
               WordPress.SetStatus siteId WordPress.FAILED],
       Js.Thrown e)
    /\ WordPress.final_status (fst (WordPress.deploySite config host_ siteId d))
       = Some WordPress.FAILED
    /\ WordPress.executeCommand config host_ cmd = Js.Thrown e
    /\ WordPress.planned_commands d = WordPress.commands pre ++ cmd :: post
    /\ (forall c, In c (WordPress.commands pre) ->
                  WordPress.succeeds (host_ (WordPress.fullCommand config c)) = true)
    /\ (forall i st, ~ In (WordPress.SetStatus i st) pre)
    /\ (forall before after,
          WordPress.planned_commands d
          = before ++ WordPress.wpPluginInstall_command p :: after ->
          (forall c, In c before ->
                     WordPress.succeeds (host_ (WordPress.fullCommand config c)) = true) ->
          cmd = WordPress.wpPluginInstall_command p
          /\ exists code out err,
               host_ (WordPress.fullCommand config cmd) = WordPress.Closes code out err
               /\ code <> 0
               /\ e = WordPress.SSHError
                        (JsString.u "Command failed with code " ++ JsString.of_Z code
                           ++ JsString.u ": " ++ err) (Some cmd)).
Proof.
  intros Hps Hin Hexit.
  pose proof (DeployFacts.exits_nonzero_fails _ Hexit) as Hfail.
  destruct (DeployFacts.deploySite_failure config host_ siteId d _
              (DeployFacts.plugin_planned d ps p Hps Hin) Hfail)
    as [e [pre [cmd [post [Hrun [Hx [Hp [Hall Hns]]]]]]]].
  exists e, pre, cmd, post.
  split; [exact Hrun|]. split.
  { rewrite Hrun. simpl.
    change (pre ++ [WordPress.Command cmd;
                    WordPress.Progress (JsString.u "failed") (Js.message e);
                    WordPress.SetStatus siteId WordPress.FAILED])
      with (pre ++ [WordPress.Command cmd;
                    WordPress.Progress (JsString.u "failed") (Js.message e)]
                ++ [WordPress.SetStatus siteId WordPress.FAILED]).
    rewrite app_assoc. apply WordPressFacts.final_status_app_set. }
  split; [exact Hx|]. split; [exact Hp|]. split; [exact Hall|]. split; [exact Hns|].
  intros before after Hplan Hbefore.
  pose proof (WordPressFacts.executeCommand_thrown _ _ _ _ Hx) as Hcmd.
  rewrite Hp in Hplan.
  destruct (DeployFacts.first_failure_unique
              (fun c => WordPress.succeeds (host_ (WordPress.fullCommand config c)))
              _ _ _ _ _ _ Hplan Hall Hcmd Hbefore Hfail) as [_ [Heq _]].
  split; [exact Heq|]. subst cmd.
  unfold WordPress.executeCommand in Hx. unfold WordPress.exits_nonzero in Hexit.
  destruct (host_ (WordPress.fullCommand config (WordPress.wpPluginInstall_command p)))
    as [e0|e0|code out err]; try discriminate.
  exists code, out, err. split; [reflexivity|].
  rewrite Hexit in Hx. split.
  - intros ->. discriminate.
  - congruence.
Qed.

Lemma C3_failed_plugin_aborts_deployment_witness :
  WordPress.plugins Scenarios.site
  = Some [JsString.u "wordpress-seo"; JsString.u "broken-plugin"; JsString.u "wp-super-cache"]
  /\ In (JsString.u "broken-plugin")
        [JsString.u "wordpress-seo"; JsString.u "broken-plugin"; JsString.u "wp-super-cache"]
  /\ WordPress.exits_nonzero
       (Scenarios.one_plugin_fails
          (WordPress.fullCommand Scenarios.ssh_config
             (WordPress.wpPluginInstall_command (JsString.u "broken-plugin")))) = true
  /\ WordPress.final_status
       (fst (WordPress.deploySite Scenarios.ssh_config Scenarios.one_plugin_fails
               (JsString.u "site-1") Scenarios.site))
     = Some WordPress.FAILED.
Proof.
  split; [reflexivity|]. split; [right; left; reflexivity|]. split; [vm_compute; reflexivity|].
  destruct (C3_failed_plugin_aborts_deployment Scenarios.ssh_config Scenarios.one_plugin_fails
              (JsString.u "site-1") Scenarios.site _ (JsString.u "broken-plugin")
              eq_refl (or_intror (or_introl eq_refl)) eq_refl)
    as [e [pre [cmd [post [_ [Hfinal _]]]]]].
  exact Hfinal.
Defined.

(** C4 (as stated, refuted).  A plan in which one plugin's install fails
    and every other command succeeds is left FAILED, not DEPLOYED: the
    deployment data carries plugin names only, and the loop over them stops
    at the first failure whatever the plugin. *)
Lemma C4_optional_plugin_counterexample :
  forallb (fun c =>
             JsString.eqb c (WordPress.wpPluginInstall_command (JsString.u "broken-plugin"))
             || WordPress.succeeds
                  (Scenarios.one_plugin_fails (WordPress.fullCommand Scenarios.ssh_config c)))
          (WordPress.planned_commands Scenarios.site) = true
  /\ WordPress.succeeds
       (Scenarios.one_plugin_fails
          (WordPress.fullCommand Scenarios.ssh_config
             (WordPress.wpPluginInstall_command (JsString.u "broken-plugin")))) = false
  /\ WordPress.final_status
       (fst (WordPress.deploySite Scenarios.ssh_config Scenarios.one_plugin_fails
               (JsString.u "site-1") Scenarios.site))
     = Some WordPress.FAILED
  /\ WordPress.final_status
       (fst (WordPress.deploySite Scenarios.ssh_config Scenarios.one_plugin_fails
               (JsString.u "site-1") Scenarios.site))
     <> Some WordPress.DEPLOYED.
Proof.
  split; [vm_compute; reflexivity|]. split; [vm_compute; reflexivity|].
  split; [vm_compute; reflexivity|]. vm_compute. discriminate.
Qed.

(** C4 (amended).  When exactly one plugin's install fails and every other
    planned command succeeds, the run stops at that install: the plugins
    listed after it are not installed, the failure is emitted as a 'failed'
    progress event and rethrown as an error, and the site is left FAILED. *)
Theorem C4_failed_plugin_fails_deployment
  (config : WordPress.SSHConfig) (host_ : WordPress.remote) (siteId : jsstring)
  (d : WordPress.deployment_data) (ps : list jsstring) (p : jsstring) :
  WordPress.plugins d = Some ps ->
  In p ps ->
  WordPress.succeeds
    (host_ (WordPress.fullCommand config (WordPress.wpPluginInstall_command p))) = false ->
  (forall c, In c (WordPress.planned_commands d) ->
             c <> WordPress.wpPluginInstall_command p ->
             WordPress.succeeds (host_ (WordPress.fullCommand config c)) = true) ->
  exists e pre post,
    WordPress.deploySite config host_ siteId d
    = (pre ++ [WordPress.Command (WordPress.wpPluginInstall_command p);
               WordPress.Progress (JsString.u "failed") (Js.message e);
               WordPress.SetStatus siteId WordPress.FAILED],
       Js.Thrown e)
    /\ WordPress.final_status (fst (WordPress.deploySite config host_ siteId d))
       = Some WordPress.FAILED
    /\ Js.cls e = Js.ClsSSHError
    /\ WordPress.planned_commands d
       = WordPress.commands pre ++ WordPress.wpPluginInstall_command p :: post
    /\ ~ In (WordPress.wpPluginInstall_command p) (WordPress.commands pre)
    /\ (forall i st, ~ In (WordPress.SetStatus i st) pre).
Proof.
  intros Hps Hin Hfail Hothers.
  destruct (DeployFacts.deploySite_failure config host_ siteId d _
              (DeployFacts.plugin_planned d ps p Hps Hin) Hfail)
    as [e [pre [cmd [post [Hrun [Hx [Hp [Hall Hns]]]]]]]].
  pose proof (WordPressFacts.executeCommand_thrown _ _ _ _ Hx) as Hcmd.
  assert (Hcmd_eq : cmd = WordPress.wpPluginInstall_command p).
  { destruct (list_eq_dec N.eq_dec cmd (WordPress.wpPluginInstall_command p)) as [E|E];
      [exact E|].
    rewrite Hothers in Hcmd; [discriminate | | exact E].
    rewrite Hp. apply in_or_app. right. left. reflexivity. }
  subst cmd. exists e, pre, post.
  split; [exact Hrun|]. split.
  { rewrite Hrun. simpl.
    change (pre ++ [WordPress.Command (WordPress.wpPluginInstall_command p);
                    WordPress.Progress (JsString.u "failed") (Js.message e);
                    WordPress.SetStatus siteId WordPress.FAILED])
      with (pre ++ [WordPress.Command (WordPress.wpPluginInstall_command p);
                    WordPress.Progress (JsString.u "failed") (Js.message e)]
                ++ [WordPress.SetStatus siteId WordPress.FAILED]).
    rewrite app_assoc. apply WordPressFacts.final_status_app_set. }
  split.
  { destruct (WordPressFacts.executeCommand_fails _ _ _ Hfail) as [e' [He' [Hcls _]]].
    congruence. }
  split; [exact Hp|]. split; [|exact Hns].
  intros Hin'. rewrite (Hall _ Hin') in Hfail. discriminate.
Qed.

Lemma C4_failed_plugin_fails_deployment_witness :
  WordPress.plugins Scenarios.site
  = Some [JsString.u "wordpress-seo"; JsString.u "broken-plugin"; JsString.u "wp-super-cache"]
  /\ WordPress.succeeds
       (Scenarios.one_plugin_fails
          (WordPress.fullCommand Scenarios.ssh_config
             (WordPress.wpPluginInstall_command (JsString.u "broken-plugin")))) = false
  /\ exists e pre post,
       WordPress.deploySite Scenarios.ssh_config Scenarios.one_plugin_fails
         (JsString.u "site-1") Scenarios.site
       = (pre ++ [WordPress.Command
                    (WordPress.wpPluginInstall_command (JsString.u "broken-plugin"));
                  WordPress.Progress (JsString.u "failed") (Js.message e);
                  WordPress.SetStatus (JsString.u "site-1") WordPress.FAILED],
          Js.Thrown e)
       /\ WordPress.planned_commands Scenarios.site
          = WordPress.commands pre
              ++ WordPress.wpPluginInstall_command (JsString.u "broken-plugin") :: post.
Proof.
  split; [reflexivity|]. split; [vm_compute; reflexivity|].
  destruct (C4_failed_plugin_fails_deployment Scenarios.ssh_config Scenarios.one_plugin_fails
              (JsString.u "site-1") Scenarios.site _ (JsString.u "broken-plugin")
              eq_refl (or_intror (or_introl eq_refl)) eq_refl)
    as [e [pre [post [Hrun [_ [_ [Hp _]]]]]]].
  - intros c Hin Hne. vm_compute in Hin.
    destruct Hin as [<-|[<-|[<-|[<-|[<-|[]]]]]]; try (vm_compute; reflexivity).
    now elim Hne.
  - exists e, pre, post. split; assumption.
Defined.

(* ===================================================================== *)
(** ** Agents and orchestration *)
(* ===================================================================== *)

Module AgentFacts.

Import JsString Json Js Agents.


(** The agents' [catch] block turns every error into a failed output. *)
Lemma try_catch_failed (body : outcome AgentOutput) :
  (exists r, body = Returned r /\ try_catch body failed = Returned r)
  \/ (exists e, body = Thrown e
                /\ try_catch body failed
                   = Returned {| success := false; confidence := JsNumber.zero;
                                 data := NoData; assumptions := None;
                                 errors := Some [message e] |}).
Proof. destruct body as [r|e]; [left | right]; eauto. Qed.

Lemma parseJSONResponse_invalid (t : jsstring) :
  AIService.syntactically_invalid t ->
  AIService.parseJSONResponse t = Thrown AIService.invalid_json_error.
Proof.
  intros [Hfull Hfence]. unfold AIService.parseJSONResponse.
  destruct (AIService.jsonMatch t) as [g|].
  - now rewrite (Hfence g eq_refl).
  - now rewrite Hfull.
Qed.


Lemma planning_total (ai : AIService.t) (input : AgentInput) :
  exists r, PlanningAgent.execute ai input = Returned r.
Proof.
  unfold PlanningAgent.execute.
  match goal with |- context [try_catch ?b failed] => destruct (try_catch_failed b) as [[r [_ H]]|[e [_ H]]] end;
    rewrite H; eauto.
Qed.




End AgentFacts.

(** C6. When the generation client returns, on every call, a text from
    which no JSON payload can be read, each of the three agents returns
    (and does not throw) the failed output: [success = false],
    [confidence = 0], no data, and an [errors] array with one message. *)
Theorem C6_invalid_text_fails_every_agent
  (ai : AIService.t) (input : Agents.AgentInput) (pages : Js.value) :
  (forall prompt systemPrompt,
      exists text,
        AIService.generateCompletion ai prompt systemPrompt = Js.Returned text
        /\ AIService.syntactically_invalid text) ->
  let failed_with msg :=
    Js.Returned {| Agents.success := false; Agents.confidence := JsNumber.zero;
                   Agents.data := Agents.NoData; Agents.assumptions := None;
                   Agents.errors := Some [msg] |} in
  (exists msg, Agents.PlanningAgent.execute ai input = failed_with msg)
  /\ (exists msg, Agents.DesignAgent.execute ai input = failed_with msg)
  /\ (exists msg, Agents.ContentAgent.execute ai input pages = failed_with msg).
Proof.
  intros Hgen failed_with. subst failed_with.
  split; [|split].
  - unfold Agents.PlanningAgent.execute.
    match goal with |- context [AIService.generateCompletion ai ?p ?s] =>
      destruct (Hgen p s) as [text [-> Hbad]] end.
    simpl. rewrite (AgentFacts.parseJSONResponse_invalid _ Hbad). simpl.
    unfold Agents.failed. eauto.
  - unfold Agents.DesignAgent.execute.
    match goal with |- context [AIService.generateCompletion ai ?p ?s] =>
      destruct (Hgen p s) as [text [-> Hbad]] end.
    simpl. rewrite (AgentFacts.parseJSONResponse_invalid _ Hbad). simpl.
    unfold Agents.failed. eauto.
  - unfold Agents.ContentAgent.execute.
    destruct (Agents.ContentAgent.pages_summary pages) as [summary|e]; simpl;
      [|unfold Agents.failed; eauto].
    match goal with |- context [AIService.generateCompletion ai ?p ?s] =>
      destruct (Hgen p s) as [text [-> Hbad]] end.
    simpl. rewrite (AgentFacts.parseJSONResponse_invalid _ Hbad). simpl.
    unfold Agents.failed. eauto.
Qed.

Lemma C6_invalid_text_fails_every_agent_witness :
  (forall prompt systemPrompt,
      exists text,
        AIService.generateCompletion Scenarios.chatty prompt systemPrompt = Js.Returned text
        /\ AIService.syntactically_invalid text)
  /\ Agents.PlanningAgent.execute Scenarios.chatty Scenarios.joes_pizza
     = Js.Returned {| Agents.success := false; Agents.confidence := JsNumber.zero;
                      Agents.data := Agents.NoData; Agents.assumptions := None;
                      Agents.errors := Some [JsString.u "Invalid JSON response from AI"] |}.
Proof.
  assert (H : forall prompt systemPrompt,
             exists text,
               AIService.generateCompletion Scenarios.chatty prompt systemPrompt
               = Js.Returned text
               /\ AIService.syntactically_invalid text).
  { intros prompt systemPrompt. eexists. split; [reflexivity|].
    split; [vm_compute; reflexivity|]. intros g Hg. vm_compute in Hg. discriminate. }
  split; [exact H|].
  destruct (C6_invalid_text_fails_every_agent Scenarios.chatty Scenarios.joes_pizza None H)
    as [[msg Hplan] _].
  rewrite Hplan. vm_compute in Hplan. injection Hplan as <-. reflexivity.
Defined.

(** C1 (as stated, refuted).  When planning fails, the result that
    [orchestrate] returns does have an [overallConfidence] property: it is
    the number 0, not an omitted or undefined value. *)
Lemma C1_planning_failure_counterexample :
  exists pr,
    Agents.PlanningAgent.execute Scenarios.chatty Scenarios.joes_pizza = Js.Returned pr
    /\ Agents.success pr = false
    /\ In "overallConfidence"%string
          (Orchestrator.own_keys
             (snd (Orchestrator.orchestrate (Orchestrator.make Scenarios.chatty)
                     Scenarios.joes_pizza)))
    /\ Orchestrator.overallConfidence
         (snd (Orchestrator.orchestrate (Orchestrator.make Scenarios.chatty)
                 Scenarios.joes_pizza))
       = S754_zero false.
Proof.
  eexists. split; [vm_compute; reflexivity|].
  split; [reflexivity|]. split; [vm_compute; tauto | vm_compute; reflexivity].
Qed.

(** C1 (amended).  When the planning agent returns [success = false], the
    run stops there: it has emitted the planning progress event and invoked
    the planning agent only (neither the design nor the content agent), and
    it returns [success = false], [overallConfidence = 0] and, as [errors],
    the planning agent's errors (["Planning failed"] when it gives none),
    with none of [siteArchitecture], [content] and [design]. *)
Theorem C1_planning_failure_aborts
  (o : Orchestrator.t) (input : Agents.AgentInput) (pr : Agents.AgentOutput) :
  Orchestrator.planningAgent o input = Js.Returned pr ->
  Agents.success pr = false ->
  Orchestrator.orchestrate o input
  = ([Orchestrator.progress_planning; Orchestrator.Invoked Orchestrator.Planning],
     {| Orchestrator.success := false;
        Orchestrator.siteArchitecture := None;
        Orchestrator.content := None;
        Orchestrator.design := None;
        Orchestrator.overallConfidence := JsNumber.zero;
        Orchestrator.errors := Orchestrator.errors_or pr "Planning failed" |})
  /\ (forall es, Agents.errors pr = Some es ->
                 Orchestrator.errors (snd (Orchestrator.orchestrate o input)) = es)
  /\ ~ In (Orchestrator.Invoked Orchestrator.Design) (fst (Orchestrator.orchestrate o input))
  /\ ~ In (Orchestrator.Invoked Orchestrator.Content) (fst (Orchestrator.orchestrate o input)).
Proof.
  intros Hplan Hfail. unfold Orchestrator.orchestrate. rewrite Hplan, Hfail. simpl.
  split; [reflexivity|]. split.
  - intros es Hes. unfold Orchestrator.errors_or. now rewrite Hes.
  - split; intros [H|[H|[]]]; discriminate.
Qed.

Lemma C1_planning_failure_aborts_witness :
  Orchestrator.planningAgent (Orchestrator.make Scenarios.chatty) Scenarios.joes_pizza
  = Js.Returned {| Agents.success := false; Agents.confidence := JsNumber.zero;
                   Agents.data := Agents.NoData; Agents.assumptions := None;
                   Agents.errors := Some [JsString.u "Invalid JSON response from AI"] |}
  /\ Orchestrator.errors
       (snd (Orchestrator.orchestrate (Orchestrator.make Scenarios.chatty)
               Scenarios.joes_pizza))
     = [JsString.u "Invalid JSON response from AI"].
Proof.
  assert (H : Orchestrator.planningAgent (Orchestrator.make Scenarios.chatty)
                Scenarios.joes_pizza
              = Js.Returned {| Agents.success := false; Agents.confidence := JsNumber.zero;
                               Agents.data := Agents.NoData; Agents.assumptions := None;
                               Agents.errors :=
                                 Some [JsString.u "Invalid JSON response from AI"] |})
    by (vm_compute; reflexivity).
  split; [exact H|].
  exact (proj1 (proj2 (C1_planning_failure_aborts _ _ _ H eq_refl)) _ eq_refl).
Defined.



(* ===================================================================== *)
(** ** Payload extraction *)
(* ===================================================================== *)

Module ExtractionFacts.

Import JsString Json Js AIService.

Lemma is_prefix_app (p s : jsstring) :
  is_prefix p s = true -> s = p ++ skipn (List.length p) s.
Proof.
  revert s. induction p as [|a p IH]; intros [|b s]; simpl; try discriminate; auto.
  intros H. apply andb_prop in H as [Hab Hp].
  apply N.eqb_eq in Hab. subst b. f_equal. now apply IH.
Qed.

Lemma find_app (p s before after : jsstring) :
  find p s = Some (before, after) -> s = before ++ p ++ after.
Proof.
  revert before. induction s as [|c s IH]; intros before; simpl.
  - destruct (is_prefix p []) eqn:E; [|discriminate].
    intros H. injection H as <- <-. now apply is_prefix_app.
  - destruct (is_prefix p (c :: s)) eqn:E.
    + intros H. injection H as <- <-. now apply is_prefix_app.
    + destruct (find p s) as [[b a]|]; [|discriminate].
      intros H. injection H as <- <-. simpl. f_equal. now apply IH.
Qed.





Lemma lex_backtick (b : jsstring) : lex LDefault (96%N :: b) = None.
Proof. reflexivity. Qed.




End ExtractionFacts.


(* ===================================================================== *)
(** ** Numbers: rounding, and printing then reading *)
(* ===================================================================== *)

Module JsNumberFacts.

Import JsNumber.

Lemma pow2_pos (k : Z) : 0 <= k -> 0 < 2 ^ k.
Proof. intros H. apply Z.pow_pos_nonneg; lia. Qed.

Lemma floor_log2_upper (n d : Z) :
  0 < n -> 0 < d -> n < d * 2 ^ Z.max (floor_log2 n d + 1) 0.
Proof.
  intros Hn Hd. unfold floor_log2.
  pose proof (Z.log2_spec n Hn) as [_ Hna].
  pose proof (Z.log2_spec d Hd) as [Hdb _].
  pose proof (Z.log2_nonneg n) as Ha. pose proof (Z.log2_nonneg d) as Hb.
  set (a := Z.log2 n) in *. set (b := Z.log2 d) in *.
  destruct (Z.leb_spec (d * 2 ^ (a - b)) n) as [Ht|Ht].
  - destruct (Z.max_spec (a - b + 1) 0) as [[Hlt ->]|[Hge ->]].
    + rewrite Z.pow_0_r, Z.mul_1_r.
      assert (2 ^ Z.succ a <= 2 ^ b) by (apply Z.pow_le_mono_r; lia). lia.
    + replace (Z.succ a) with (b + (a - b + 1)) in Hna by lia.
      rewrite Z.pow_add_r in Hna by lia.
      pose proof (pow2_pos (a - b + 1) ltac:(lia)). nia.
  - assert (0 <= a - b).
    { destruct (Z.le_gt_cases 0 (a - b)) as [H|H]; [exact H|].
      rewrite Z.pow_neg_r in Ht by lia. lia. }
    replace (a - b - 1 + 1) with (a - b) by lia.
    rewrite Z.max_l by lia. exact Ht.
Qed.

Lemma floor_log2_lower (n d : Z) :
  0 < n -> 0 < d -> 0 <= floor_log2 n d -> d * 2 ^ floor_log2 n d <= n.
Proof.
  intros Hn Hd. unfold floor_log2.
  pose proof (Z.log2_spec n Hn) as [Hna _].
  pose proof (Z.log2_spec d Hd) as [_ Hdb].
  pose proof (Z.log2_nonneg n) as Ha. pose proof (Z.log2_nonneg d) as Hb.
  set (a := Z.log2 n) in *. set (b := Z.log2 d) in *.
  destruct (Z.leb_spec (d * 2 ^ (a - b)) n) as [Ht|Ht]; intros Hl.
  - exact Ht.
  - replace a with (Z.succ b + (a - b - 1)) in Hna by lia.
    rewrite Z.pow_add_r in Hna by lia.
    pose proof (pow2_pos (a - b - 1) Hl). nia.
Qed.

Lemma p52 : 2 ^ 52 = 4503599627370496. Proof. reflexivity. Qed.
Lemma p53 : 2 ^ 53 = 9007199254740992. Proof. reflexivity. Qed.

Lemma round_half_even_bounds (q r d : Z) :
  q <= round_half_even q r d <= q + 1.
Proof.
  unfold round_half_even. destruct (2 * r ?= d); [destruct (Z.even q)| |]; lia.
Qed.

Lemma finish_canonical (sg : bool) (q e1 : Z) :
  0 <= e1 ->
  (2 ^ 52 <= q <= 2 ^ 53) \/ (0 <= q <= 2 ^ 52 /\ e1 = 0) ->
  canonical (finish sg q e1).
Proof.
  intros He Hq. unfold finish. rewrite p52, p53 in *.
  destruct (Z.eqb_spec q 9007199254740992) as [->|Hne].
  - destruct (Z.ltb_spec 2045 (e1 + 1)); [exact I|].
    simpl. lia.
  - destruct (Z.ltb_spec 2045 e1); [exact I|].
    destruct q as [|p|p]; [exact I| |exact I].
    simpl. lia.
Qed.

Lemma round_ratio_canonical (sg : bool) (n d : Z) :
  0 < d -> canonical (round_ratio sg n d).
Proof.
  intros Hd. unfold round_ratio.
  destruct (Z.leb_spec n 0) as [Hn|Hn]; [exact I|].
  set (n1 := n * 2 ^ 1074).
  assert (Hn1 : 0 < n1) by (unfold n1; pose proof (pow2_pos 1074 ltac:(lia)); nia).
  pose proof (floor_log2_upper n1 d Hn1 Hd) as HU.
  pose proof (floor_log2_lower n1 d Hn1 Hd) as HL.
  set (l := floor_log2 n1 d) in *. cbv zeta.
  destruct (Z.max_spec (l - 52) 0) as [[Hlt ->]|[Hge ->]].
  - (* subnormal *)
    rewrite Z.pow_0_r, Z.mul_1_r.
    apply finish_canonical; [lia|]. right. split; [|reflexivity].
    assert (Hq : 0 <= n1 / d < 2 ^ 52).
    { split; [apply Z.div_pos; lia|].
      apply Z.div_lt_upper_bound; [exact Hd|].
      assert (2 ^ Z.max (l + 1) 0 <= 2 ^ 52) by (apply Z.pow_le_mono_r; lia).
      nia. }
    pose proof (round_half_even_bounds (n1 / d) (n1 mod d) d). lia.
  - (* normal *)
    apply finish_canonical; [lia|]. left.
    set (d1 := d * 2 ^ (l - 52)).
    pose proof (pow2_pos (l - 52) ltac:(lia)) as Hp.
    assert (Hd1 : 0 < d1) by (unfold d1; nia).
    assert (Hq : 2 ^ 52 <= n1 / d1 < 2 ^ 53).
    { split.
      - apply Z.div_le_lower_bound; [exact Hd1|].
        specialize (HL ltac:(lia)).
        replace l with (52 + (l - 52)) in HL at 1 by lia.
        rewrite Z.pow_add_r in HL by lia. unfold d1. nia.
      - apply Z.div_lt_upper_bound; [exact Hd1|].
        rewrite Z.max_l in HU by lia.
        replace (l + 1) with (53 + (l - 52)) in HU by lia.
        rewrite Z.pow_add_r in HU by lia. unfold d1. nia. }
    pose proof (round_half_even_bounds (n1 / d1) (n1 mod d1) d1). lia.
Qed.

Lemma round_ratio_exact (sg : bool) (n d : Z) (m : positive) (e : Z) :
  0 < d ->
  n * 2 ^ 1074 = Zpos m * (d * 2 ^ (e + 1074)) ->
  canonical (S754_finite sg m e) ->
  round_ratio sg n d = S754_finite sg m e.
Proof.
  intros Hd Hn Hcan. unfold round_ratio.
  assert (He1 : 0 <= e + 1074) by (simpl in Hcan; lia).
  pose proof (pow2_pos (e + 1074) He1) as Hp.
  set (e1 := e + 1074) in *.
  set (n1 := n * 2 ^ 1074) in *.
  assert (Hn1 : 0 < n1) by (rewrite Hn; nia).
  destruct (Z.leb_spec n 0) as [Hn0|Hn0].
  { exfalso. unfold n1 in Hn1. pose proof (pow2_pos 1074 ltac:(lia)). nia. }
  pose proof (floor_log2_upper n1 d Hn1 Hd) as HU.
  pose proof (floor_log2_lower n1 d Hn1 Hd) as HL.
  set (l := floor_log2 n1 d) in *. cbv zeta.
  assert (HU' : Zpos m * 2 ^ e1 < 2 ^ Z.max (l + 1) 0) by (rewrite Hn in HU; nia).
  assert (HL' : 0 <= l -> 2 ^ l <= Zpos m * 2 ^ e1).
  { intros H. specialize (HL H). rewrite Hn in HL. nia. }
  assert (Hmax : Z.max (l - 52) 0 = e1).
  { simpl in Hcan. destruct Hcan as [[Hm Hr]|[Hm Hr]].
    - assert (H1 : 2 ^ (52 + e1) < 2 ^ Z.max (l + 1) 0).
      { rewrite Z.pow_add_r by lia. nia. }
      apply Z.pow_lt_mono_r_iff in H1; [|lia|lia].
      assert (Hl : 0 <= l) by lia.
      specialize (HL' Hl).
      assert (H2 : 2 ^ l < 2 ^ (53 + e1)).
      { rewrite Z.pow_add_r by lia. nia. }
      apply Z.pow_lt_mono_r_iff in H2; [|lia|lia]. lia.
    - assert (e1 = 0) by (unfold e1; lia).
      destruct (Z.le_gt_cases 0 l) as [Hl|Hl]; [|lia].
      specialize (HL' Hl). rewrite H, Z.pow_0_r, Z.mul_1_r in HL'.
      assert (H2 : 2 ^ l < 2 ^ 52) by lia.
      apply Z.pow_lt_mono_r_iff in H2; [|lia|lia]. lia. }
  rewrite Hmax.
  replace n1 with (Zpos m * (d * 2 ^ e1)) by (symmetry; exact Hn).
  assert (Hd1 : d * 2 ^ e1 <> 0) by nia.
  rewrite Z.div_mul, Z.mod_mul by exact Hd1.
  unfold round_half_even.
  assert (Hlt : (2 * 0 ?= d * 2 ^ e1) = Lt) by (apply Z.compare_lt_iff; nia).
  rewrite Hlt. unfold finish.
  assert (Hm53 : Zpos m < 2 ^ 53) by (simpl in Hcan; lia).
  assert (He : e1 <= 2045) by (simpl in Hcan; unfold e1; lia).
  destruct (Z.eqb_spec (Zpos m) (2 ^ 53)) as [E|_]; [lia|].
  destruct (Z.ltb_spec 2045 e1); [lia|].
  f_equal. unfold e1. lia.
Qed.

Lemma read_digits_app (ds rest : jsstring) (acc cnt : Z) :
  forallb is_digit ds = true -> at_non_digit rest ->
  read_digits (ds ++ rest) acc cnt
  = (fold_left digit_step ds acc, cnt + Z.of_nat (List.length ds), rest).
Proof.
  revert acc cnt. induction ds as [|c ds IH]; intros acc cnt Hds Hrest.
  - simpl. replace (cnt + 0) with cnt by lia.
    destruct rest as [|c rest]; [reflexivity|].
    simpl in *. now rewrite Hrest.
  - simpl in Hds. apply andb_prop in Hds as [Hc Hds].
    cbn [app read_digits]. rewrite Hc, IH by assumption.
    cbn [fold_left List.length]. unfold digit_step at 2. f_equal. f_equal. lia.
Qed.

Lemma read_digits_split (s : jsstring) (acc cnt : Z) :
  exists ds,
    s = ds ++ snd (read_digits s acc cnt)
    /\ forallb is_digit ds = true
    /\ snd (fst (read_digits s acc cnt)) = cnt + Z.of_nat (List.length ds).
Proof.
  revert acc cnt. induction s as [|c s IH]; intros acc cnt.
  - exists []. simpl. repeat split. lia.
  - cbn [read_digits]. destruct (is_digit c) eqn:Hc.
    + destruct (IH (10 * acc + (Z.of_N c - 48)) (cnt + 1)) as [ds [Hs [Hds Hcnt]]].
      exists (c :: ds). split; [cbn [app]; f_equal; exact Hs|].
      split; [simpl; now rewrite Hc|]. rewrite Hcnt. cbn [List.length]. lia.
    + exists []. simpl. repeat split. lia.
Qed.

Lemma is_digit_mod (n : N) : is_digit (48 + n mod 10)%N = true.
Proof.
  unfold is_digit. pose proof (N.mod_lt n 10 ltac:(lia)) as H.
  generalize dependent (n mod 10)%N. intros r H.
  apply andb_true_intro. split; apply N.leb_le; lia.
Qed.

Lemma digits_fuel_S (fuel : nat) (n : N) (acc : jsstring) :
  JsString.digits_fuel (S fuel) n acc
  = if (n <? 10)%N then (48 + n mod 10)%N :: acc
    else JsString.digits_fuel fuel (n / 10)%N ((48 + n mod 10)%N :: acc).
Proof. reflexivity. Qed.

Lemma digits_fuel_spec (fuel : nat) (n : N) (acc : jsstring) :
  (n < 10 ^ N.of_nat (S fuel))%N ->
  exists c ds,
    JsString.digits_fuel (S fuel) n acc = (c :: ds) ++ acc
    /\ forallb is_digit (c :: ds) = true
    /\ fold_left digit_step (c :: ds) 0 = Z.of_N n
    /\ ((0 < n)%N -> c <> 48%N).
Proof.
  revert n acc. induction fuel as [|fuel IH]; intros n acc Hn.
  - change (10 ^ N.of_nat 1)%N with 10%N in Hn.
    exists (48 + n mod 10)%N, []. rewrite digits_fuel_S.
    destruct (N.ltb_spec n 10) as [Hlt|H]; [|lia].
    rewrite N.mod_small by lia.
    split; [reflexivity|]. split.
    + cbn [forallb]. rewrite <- (N.mod_small n 10) at 1 by lia.
      now rewrite is_digit_mod.
    + split; [cbn [fold_left]; unfold digit_step; lia | lia].
  - rewrite digits_fuel_S.
    destruct (N.ltb_spec n 10) as [Hlt|Hge].
    + exists (48 + n mod 10)%N, []. rewrite N.mod_small by lia.
      split; [reflexivity|]. split.
      * cbn [forallb]. rewrite <- (N.mod_small n 10) at 1 by lia.
        now rewrite is_digit_mod.
      * split; [cbn [fold_left]; unfold digit_step; lia | lia].
    + assert (Hdiv : (n / 10 < 10 ^ N.of_nat (S fuel))%N).
      { apply N.Div0.div_lt_upper_bound.
        replace (N.of_nat (S (S fuel))) with (N.succ (N.of_nat (S fuel))) in Hn by lia.
        rewrite N.pow_succ_r' in Hn. exact Hn. }
      destruct (IH (n / 10)%N ((48 + n mod 10)%N :: acc) Hdiv) as [c [ds [Hrun [Hds [Hval Hc]]]]].
      exists c, (ds ++ [(48 + n mod 10)%N]).
      split; [rewrite Hrun; simpl; rewrite <- app_assoc; reflexivity|].
      split.
      * change (c :: ds ++ [(48 + n mod 10)%N]) with ((c :: ds) ++ [(48 + n mod 10)%N]).
        rewrite forallb_app, Hds. cbn [forallb andb]. now rewrite is_digit_mod.
      * split.
        -- change (c :: ds ++ [(48 + n mod 10)%N]) with ((c :: ds) ++ [(48 + n mod 10)%N]).
           rewrite fold_left_app, Hval. cbn [fold_left]. unfold digit_step.
           pose proof (N.div_mod n 10 ltac:(lia)) as Hdm.
           generalize dependent (n mod 10)%N. generalize dependent (n / 10)%N.
           intros; lia.
        -- intros _. apply Hc.
           apply N.div_str_pos. lia.
Qed.

Lemma of_N_spec (n : N) :
  exists c ds,
    JsString.of_N n = c :: ds
    /\ forallb is_digit (c :: ds) = true
    /\ fold_left digit_step (c :: ds) 0 = Z.of_N n
    /\ ((0 < n)%N -> c <> 48%N).
Proof.
  unfold JsString.of_N.
  assert (Hn : (n < 10 ^ N.of_nat (S (N.to_nat (N.log2 n))))%N).
  { replace (N.of_nat (S (N.to_nat (N.log2 n)))) with (N.succ (N.log2 n)) by lia.
    destruct n as [|p]; [reflexivity|].
    pose proof (N.log2_spec (N.pos p) ltac:(lia)) as [_ H].
    eapply N.lt_le_trans; [exact H|].
    apply N.pow_le_mono_l. lia. }
  destruct (digits_fuel_spec _ n [] Hn) as [c [ds [Hrun H]]].
  exists c, ds. rewrite Hrun, app_nil_r. auto.
Qed.

Lemma read_sign_digit (c : N) (s : jsstring) :
  is_digit c = true -> read_sign (c :: s) = (false, c :: s).
Proof.
  unfold read_sign, is_digit. intros H.
  destruct (N.eqb_spec c 45) as [->|_]; [discriminate | reflexivity].
Qed.

Lemma read_exp_sign_digit (c : N) (s : jsstring) :
  is_digit c = true -> read_exp_sign (c :: s) = (false, c :: s).
Proof.
  unfold read_exp_sign, is_digit. intros H.
  destruct (N.eqb_spec c 45) as [->|_]; [discriminate|].
  destruct (N.eqb_spec c 43) as [->|_]; [discriminate | reflexivity].
Qed.

(** The digits of a positive integer followed by an exponent part read
    back as that integer and that exponent. *)
Lemma of_Z_exponent_reads (k : Z) :
  k <= 0 -> read_exponent (101%N :: JsString.of_Z k) = Some k.
Proof.
  intros Hk. unfold read_exponent.
  change ((101 =? 101)%N || (101 =? 69)%N) with true. cbv iota.
  destruct k as [|p|p]; [reflexivity | lia |].
  unfold JsString.of_Z.
  destruct (of_N_spec (N.pos p)) as [c [ds [Hrun [Hds [Hval _]]]]].
  unfold read_exp_sign. change ((45 =? 45)%N) with true. cbv iota.
  rewrite Hrun. rewrite <- (app_nil_r (c :: ds)).
  rewrite read_digits_app by (auto; exact I).
  rewrite Hval.
  destruct (Z.eqb_spec (0 + Z.of_nat (List.length (c :: ds))) 0) as [E|_].
  - simpl in E. lia.
  - reflexivity.
Qed.

Lemma unsigned_decimal_exact (s k : Z) :
  0 < s -> k <= 0 ->
  unsigned_decimal (JsString.of_Z s ++ [101%N] ++ JsString.of_Z k) = Some (s, k).
Proof.
  intros Hs Hk. destruct s as [|p|p]; try lia.
  unfold JsString.of_Z at 1. change (Z.to_N (Z.pos p)) with (N.pos p).
  destruct (of_N_spec (N.pos p)) as [c [ds [Hrun [Hds [Hval Hc]]]]].
  rewrite Hrun. unfold unsigned_decimal.
  rewrite read_digits_app by (auto; reflexivity).
  rewrite Hval.
  destruct (Z.eqb_spec (0 + Z.of_nat (List.length (c :: ds))) 0) as [E|_].
  { simpl in E. lia. }
  assert (Hzero : JsString.is_prefix [48%N] ((c :: ds) ++ [101%N] ++ JsString.of_Z k) = false).
  { cbn [JsString.is_prefix app]. destruct (N.eqb_spec 48 c) as [E|_]; [|reflexivity].
    exfalso. apply Hc; [lia | now symmetry]. }
  rewrite Hzero, andb_false_r.
  change ([101%N] ++ JsString.of_Z k) with (101%N :: JsString.of_Z k).
  cbv beta iota. change ((101 =? 46)%N) with false. cbv beta iota.
  rewrite (of_Z_exponent_reads k Hk).
  f_equal. f_equal. lia.
Qed.

Lemma exact_literal_head (m : positive) (e : Z) :
  exists c s, exact_literal m e = c :: s /\ is_digit c = true.
Proof.
  unfold exact_literal.
  destruct (0 <=? e).
  - unfold JsString.of_Z.
    destruct (Z.pos m * 2 ^ e) as [|p|p] eqn:E.
    + destruct (of_N_spec (Z.to_N 0)) as [c [ds [Hrun [Hds _]]]].
      rewrite Hrun. exists c. eexists. split; [reflexivity|].
      simpl in Hds. now apply andb_prop in Hds as [H _].
    + destruct (of_N_spec (Z.to_N (Z.pos p))) as [c [ds [Hrun [Hds _]]]].
      rewrite Hrun. exists c. eexists. split; [reflexivity|].
      simpl in Hds. now apply andb_prop in Hds as [H _].
    + pose proof (Z.pow_nonneg 2 e ltac:(lia)). lia.
  - unfold JsString.of_Z.
    destruct (Z.pos m * 5 ^ (- e)) as [|p|p] eqn:E.
    + destruct (of_N_spec (Z.to_N 0)) as [c [ds [Hrun [Hds _]]]].
      rewrite Hrun. exists c. eexists. split; [reflexivity|].
      simpl in Hds. now apply andb_prop in Hds as [H _].
    + destruct (of_N_spec (Z.to_N (Z.pos p))) as [c [ds [Hrun [Hds _]]]].
      rewrite Hrun. exists c. eexists. split; [reflexivity|].
      simpl in Hds. now apply andb_prop in Hds as [H _].
    + pose proof (Z.pow_nonneg 5 (- e) ltac:(lia)). lia.
Qed.

(** The exact decimal expansion of a binary64 value reads back as it. *)
Lemma exact_literal_reads (m : positive) (e : Z) :
  canonical (S754_finite false m e) ->
  of_literal (exact_literal m e) = Some (S754_finite false m e).
Proof.
  intros Hcan. unfold of_literal, decimal_of_literal.
  destruct (exact_literal_head m e) as [c [s [Hhead Hc]]].
  rewrite Hhead, (read_sign_digit c s Hc), <- Hhead.
  unfold exact_literal.
  assert (He : -1074 <= e) by (simpl in Hcan; lia).
  destruct (Z.leb_spec 0 e) as [Hpos|Hneg].
  - rewrite unsigned_decimal_exact; [| pose proof (pow2_pos e Hpos); nia | lia].
    f_equal. unfold of_decimal. change (0 <=? 0) with true. cbv iota.
    apply round_ratio_exact; [lia| |exact Hcan].
    rewrite Z.pow_0_r, !Z.mul_1_r, Z.mul_1_l.
    rewrite (Z.pow_add_r 2 e 1074) by lia. ring.
  - assert (H5 : 0 < 5 ^ (- e)) by (apply Z.pow_pos_nonneg; lia).
    rewrite unsigned_decimal_exact; [| nia | lia].
    f_equal. unfold of_decimal.
    destruct (Z.leb_spec 0 e) as [H|_]; [lia|].
    apply round_ratio_exact; [apply Z.pow_pos_nonneg; lia| |exact Hcan].
    replace 10 with (2 * 5) by reflexivity.
    rewrite Z.pow_mul_l.
    replace 1074 with (- e + (e + 1074)) at 1 by lia.
    rewrite (Z.pow_add_r 2 (- e) (e + 1074)) by lia. ring.
Qed.

Lemma same_eq (x y : t) : same x y = true -> x = y.
Proof.
  destruct x as [a|a| |a m e], y as [b|b| |b m' e']; simpl; try discriminate;
    try reflexivity.
  - intros H. apply eqb_prop in H. now subst.
  - intros H. apply eqb_prop in H. now subst.
  - intros H. apply andb_prop in H as [H He]. apply andb_prop in H as [Hs Hm].
    apply eqb_prop in Hs. apply Pos.eqb_eq in Hm. apply Z.eqb_eq in He. now subst.
Qed.

Lemma first_reading_sound (x : t) (cs : list (Z * Z)) (txt : jsstring) :
  first_reading x cs = Some txt -> of_literal txt = Some x.
Proof.
  induction cs as [|c cs IH]; simpl; [discriminate|].
  destruct (of_literal (render c)) as [y|] eqn:E; [|exact IH].
  destruct (same y x) eqn:Hs; [|exact IH].
  intros H. injection H as <-. apply same_eq in Hs. now subst.
Qed.

Lemma shortest_sound (fuel : nat) (x : t) (n d p k : Z) (txt : jsstring) :
  shortest fuel x n d p k = Some txt -> of_literal txt = Some x.
Proof.
  revert k. induction fuel as [|fuel IH]; intros k; simpl; [discriminate|].
  destruct (first_reading x (candidates n d p k)) as [t'|] eqn:E.
  - intros H. injection H as <-. now apply first_reading_sound in E.
  - apply IH.
Qed.

Lemma to_string_pos_reads (m : positive) (e : Z) :
  canonical (S754_finite false m e) ->
  of_literal (to_string_pos m e) = Some (S754_finite false m e).
Proof.
  intros Hcan. unfold to_string_pos.
  destruct (exact_ratio m e) as [n d].
  destruct (shortest 17 _ n d (mag10 n d) 1) as [txt|] eqn:E.
  - now apply shortest_sound in E.
  - now apply exact_literal_reads.
Qed.

(** The sign of a rounded value is the sign given. *)
Lemma round_ratio_sign (sg sg' : bool) (n d : Z) (m : positive) (e : Z) :
  round_ratio sg n d = S754_finite sg' m e ->
  sg' = sg /\ forall sg2, round_ratio sg2 n d = S754_finite sg2 m e.
Proof.
  unfold round_ratio. destruct (n <=? 0); [discriminate|]. cbv zeta.
  unfold finish.
  match goal with |- context [round_half_even ?a ?b ?c] => generalize (round_half_even a b c) end.
  intros q.
  destruct (q =? 2 ^ 53).
  - destruct (2045 <? _); [discriminate|].
    destruct (2 ^ 52) as [|p|p]; try discriminate.
    intros H. injection H as <- <- <-. split; [reflexivity | intros sg2; reflexivity].
  - destruct (2045 <? _); [discriminate|].
    destruct q as [|p|p]; try discriminate.
    intros H. injection H as <- <- <-. split; [reflexivity | intros sg2; reflexivity].
Qed.

Lemma of_decimal_sign (sg sg' : bool) (mm k : Z) (m : positive) (e : Z) :
  of_decimal sg mm k = S754_finite sg' m e ->
  sg' = sg /\ forall sg2, of_decimal sg2 mm k = S754_finite sg2 m e.
Proof.
  unfold of_decimal. destruct (0 <=? k); apply round_ratio_sign.
Qed.

Lemma of_literal_negated (txt : jsstring) (m : positive) (e : Z) :
  of_literal txt = Some (S754_finite false m e) ->
  of_literal (45%N :: txt) = Some (S754_finite true m e).
Proof.
  unfold of_literal, decimal_of_literal.
  destruct (read_sign txt) as [sg s1] eqn:Hsign.
  destruct (unsigned_decimal s1) as [[mm k]|] eqn:Hdec; [|discriminate].
  intros H. injection H as H.
  apply of_decimal_sign in H as [Hsg Hall]. subst sg.
  assert (Hs1 : s1 = txt).
  { unfold read_sign in Hsign. destruct txt as [|c s'].
    - now injection Hsign as <-.
    - destruct (c =? 45)%N; [discriminate|]. now injection Hsign as <-. }
  subst s1.
  unfold read_sign. change ((45 =? 45)%N) with true. cbv iota.
  rewrite Hdec. f_equal. apply Hall.
Qed.

(** Printing a finite binary64 value and reading the text back gives the
    value, up to the sign of zero. *)
Lemma to_string_reads (x : t) :
  canonical x -> is_finite x = true ->
  of_literal (to_string x) = Some (drop_zero_sign x).
Proof.
  intros Hcan Hfin. destruct x as [s|s| |s m e]; try discriminate.
  - reflexivity.
  - destruct s; simpl.
    + apply of_literal_negated. apply to_string_pos_reads. exact Hcan.
    + apply to_string_pos_reads. exact Hcan.
Qed.

Lemma of_literal_canonical (txt : jsstring) (x : t) :
  of_literal txt = Some x -> canonical x.
Proof.
  unfold of_literal. destruct (decimal_of_literal txt) as [[[sg m] k]|]; [|discriminate].
  intros H. injection H as <-. unfold of_decimal.
  destruct (Z.leb_spec 0 k); apply round_ratio_canonical; [lia|].
  apply Z.pow_pos_nonneg; lia.
Qed.

End JsNumberFacts.

(* ===================================================================== *)
(** ** JSON: serializing then parsing *)
(* ===================================================================== *)

Module JsonFacts.

Import JsString Json JsNumberFacts.

Lemma json_induction (P : json -> Prop) :
  P JNull ->
  (forall b, P (JBool b)) ->
  (forall x, P (JNumber x)) ->
  (forall s, P (JString s)) ->
  (forall items, Forall P items -> P (JArray items)) ->
  (forall ms, Forall (fun kv => P (snd kv)) ms -> P (JObject ms)) ->
  forall v, P v.
Proof.
  intros Hnull Hbool Hnum Hstr Harr Hobj.
  fix IH 1. intros [|b|x|s|items|ms].
  - exact Hnull.
  - apply Hbool.
  - apply Hnum.
  - apply Hstr.
  - apply Harr. revert items. fix IHl 1. intros [|v items].
    + constructor.
    + constructor; [apply IH | apply IHl].
  - apply Hobj. revert ms. fix IHl 1. intros [|kv ms].
    + constructor.
    + constructor; [apply IH | apply IHl].
Qed.

(** *** Strings *)

Lemma lex_cons (m : lex_mode) (c : N) (s : jsstring) :
  lex m (c :: s)
  = match step m c with
    | Some (m', ts) => option_map (app ts) (lex m' s)
    | None => None
    end.
Proof.
  cbn [lex]. destruct (step m c) as [[m' ts]|]; [|reflexivity].
  destruct (lex m' s); reflexivity.
Qed.

Lemma option_map_nil {A : Type} (o : option (list A)) : option_map (app []) o = o.
Proof. destruct o; reflexivity. Qed.

Lemma option_map_app {A : Type} (a b : list A) (o : option (list A)) :
  option_map (app a) (option_map (app b) o) = option_map (app (a ++ b)) o.
Proof. destruct o; simpl; [now rewrite app_assoc | reflexivity]. Qed.

Lemma hex_value_digit (d : N) : (d < 16)%N -> hex_value (hex_digit d) = Some d.
Proof.
  intros Hd. unfold hex_digit, hex_value.
  destruct (N.ltb_spec d 10) as [H|H].
  - destruct (N.leb_spec 48 (48 + d)) as [_|H1]; [|lia].
    destruct (N.leb_spec (48 + d) 57) as [_|H2]; [|lia].
    cbn [andb]. f_equal. rewrite N.add_comm. apply N.add_sub.
  - destruct (N.leb_spec 48 (87 + d)) as [_|H1]; [|lia].
    destruct (N.leb_spec (87 + d) 57) as [H2|_]; [lia|].
    cbn [andb].
    destruct (N.leb_spec 97 (87 + d)) as [_|H3]; [|lia].
    destruct (N.leb_spec (87 + d) 102) as [_|H4]; [|lia].
    cbn [andb]. f_equal. rewrite N.add_comm. apply N.add_sub.
Qed.

Lemma hex_digits_value (c : N) :
  (c < 65536)%N ->
  (16 * (16 * (16 * (16 * 0 + c / 4096 mod 16) + c / 256 mod 16) + c / 16 mod 16)
   + c mod 16 = c)%N.
Proof.
  intros Hc.
  replace (c / 4096)%N with (c / 16 / 16 / 16)%N
    by (rewrite !N.Div0.div_div; reflexivity).
  replace (c / 256)%N with (c / 16 / 16)%N
    by (rewrite !N.Div0.div_div; reflexivity).
  pose proof (N.div_mod c 16 ltac:(lia)) as H0.
  pose proof (N.mod_lt c 16 ltac:(lia)) as L0.
  pose proof (N.div_mod (c / 16) 16 ltac:(lia)) as H1.
  pose proof (N.mod_lt (c / 16) 16 ltac:(lia)) as L1.
  pose proof (N.div_mod (c / 16 / 16) 16 ltac:(lia)) as H2.
  pose proof (N.mod_lt (c / 16 / 16) 16 ltac:(lia)) as L2.
  pose proof (N.div_mod (c / 16 / 16 / 16) 16 ltac:(lia)) as H3.
  pose proof (N.mod_lt (c / 16 / 16 / 16) 16 ltac:(lia)) as L3.
  generalize dependent (c / 16 / 16 / 16 / 16)%N. intros q4.
  generalize dependent (c / 16 / 16 / 16 mod 16)%N. intros d3.
  generalize dependent (c / 16 / 16 / 16)%N. intros q3.
  generalize dependent (c / 16 / 16 mod 16)%N. intros d2.
  generalize dependent (c / 16 / 16)%N. intros q2.
  generalize dependent (c / 16 mod 16)%N. intros d1.
  generalize dependent (c / 16)%N. intros q1.
  generalize dependent (c mod 16)%N. intros d0.
  intros. lia.
Qed.

Lemma lex_unicode_escape (c : N) (acc rest : jsstring) :
  (c < 65536)%N ->
  lex (LString acc) (unicode_escape c ++ rest) = lex (LString (c :: acc)) rest.
Proof.
  intros Hc. unfold unicode_escape.
  cbn [app]. rewrite lex_cons. cbn [step].
  change ((92 =? 34)%N) with false. change ((92 =? 92)%N) with true. cbv iota.
  rewrite lex_cons. cbn [step]. change ((117 =? 117)%N) with true. cbv iota.
  rewrite !option_map_nil.
  assert (Hd : forall x, (x mod 16 < 16)%N) by (intros x; apply N.mod_lt; lia).
  rewrite lex_cons. cbn [step]. rewrite (hex_value_digit _ (Hd _)). cbv beta iota zeta.
  rewrite lex_cons. cbn [step]. rewrite (hex_value_digit _ (Hd _)). cbv beta iota zeta.
  rewrite lex_cons. cbn [step]. rewrite (hex_value_digit _ (Hd _)). cbv beta iota zeta.
  rewrite lex_cons. cbn [step]. rewrite (hex_value_digit _ (Hd _)). cbv beta iota zeta.
  rewrite !option_map_nil.
  now rewrite (hex_digits_value c Hc).
Qed.

Lemma lex_plain_unit (c : N) (acc rest : jsstring) :
  (c =? 34)%N = false -> (c =? 92)%N = false -> (c <? 32)%N = false ->
  lex (LString acc) (c :: rest) = lex (LString (c :: acc)) rest.
Proof.
  intros H1 H2 H3. rewrite lex_cons. cbn [step]. rewrite H1, H2, H3.
  apply option_map_nil.
Qed.

Lemma lex_short_escape (c d : N) (acc rest : jsstring) :
  (c =? 117)%N = false -> unescape c = Some d ->
  lex (LString acc) (92%N :: c :: rest) = lex (LString (d :: acc)) rest.
Proof.
  intros H1 H2. rewrite lex_cons. cbn [step].
  change ((92 =? 34)%N) with false. change ((92 =? 92)%N) with true. cbv iota.
  rewrite lex_cons. cbn [step]. rewrite H1, H2. now rewrite !option_map_nil.
Qed.

Lemma lex_quote_unit (c : N) (acc rest : jsstring) :
  lex (LString acc) (quote_unit c ++ rest) = lex (LString (c :: acc)) rest.
Proof.
  unfold quote_unit.
  destruct (N.eqb_spec c 8) as [->|N8]; [now apply lex_short_escape|].
  destruct (N.eqb_spec c 9) as [->|N9]; [now apply lex_short_escape|].
  destruct (N.eqb_spec c 10) as [->|N10]; [now apply lex_short_escape|].
  destruct (N.eqb_spec c 12) as [->|N12]; [now apply lex_short_escape|].
  destruct (N.eqb_spec c 13) as [->|N13]; [now apply lex_short_escape|].
  destruct (N.eqb_spec c 34) as [->|N34]; [now apply lex_short_escape|].
  destruct (N.eqb_spec c 92) as [->|N92]; [now apply lex_short_escape|].
  destruct (N.ltb_spec c 32) as [Hlt|Hge].
  - apply lex_unicode_escape. lia.
  - cbn [orb].
    destruct (is_high_surrogate c) eqn:Hh.
    + apply lex_unicode_escape. unfold is_high_surrogate in Hh.
      apply andb_prop in Hh as [_ Hh]. apply N.leb_le in Hh. lia.
    + destruct (is_low_surrogate c) eqn:Hl.
      * apply lex_unicode_escape. unfold is_low_surrogate in Hl.
        apply andb_prop in Hl as [_ Hl]. apply N.leb_le in Hl. lia.
      * cbn [orb app]. apply lex_plain_unit.
        -- now apply N.eqb_neq.
        -- now apply N.eqb_neq.
        -- apply N.ltb_ge. exact Hge.
Qed.

Lemma quote_units_cons (c : N) (s : jsstring) :
  quote_units (c :: s)
  = match s with
    | d :: s' =>
        if is_high_surrogate c && is_low_surrogate d
        then c :: d :: quote_units s'
        else quote_unit c ++ quote_units s
    | [] => quote_unit c
    end.
Proof. destruct s; reflexivity. Qed.

Lemma surrogate_plain (c : N) :
  is_high_surrogate c || is_low_surrogate c = true ->
  (c =? 34)%N = false /\ (c =? 92)%N = false /\ (c <? 32)%N = false.
Proof.
  unfold is_high_surrogate, is_low_surrogate. intros H.
  assert (55296 <= c)%N.
  { apply orb_prop in H as [H|H]; apply andb_prop in H as [H _];
      apply N.leb_le in H; lia. }
  repeat split; [apply N.eqb_neq | apply N.eqb_neq | apply N.ltb_ge]; lia.
Qed.

(** Inside a string, the escaped text of [s] reads back as [s]. *)
Lemma lex_quote_units (n : nat) :
  forall (s acc rest : jsstring),
    (List.length s <= n)%nat ->
    lex (LString acc) (quote_units s ++ rest) = lex (LString (rev s ++ acc)) rest.
Proof.
  induction n as [|n IH]; intros s acc rest Hlen.
  - destruct s; [reflexivity | simpl in Hlen; lia].
  - destruct s as [|c s]; [reflexivity|].
    rewrite quote_units_cons. destruct s as [|d s'].
    + rewrite lex_quote_unit. reflexivity.
    + destruct (is_high_surrogate c && is_low_surrogate d) eqn:Hpair.
      * apply andb_prop in Hpair as [Hc Hd].
        destruct (surrogate_plain c) as [C1 [C2 C3]]; [now rewrite Hc|].
        destruct (surrogate_plain d) as [D1 [D2 D3]]; [now rewrite Hd, orb_true_r|].
        cbn [app]. rewrite (lex_plain_unit c) by assumption.
        rewrite (lex_plain_unit d) by assumption.
        rewrite IH by (simpl in Hlen; lia).
        cbn [rev]. now rewrite <- !app_assoc.
      * rewrite <- app_assoc, lex_quote_unit.
        rewrite IH by (simpl in *; lia).
        cbn [rev]. now rewrite <- !app_assoc.
Qed.

(** A quoted string is lexed as one string token. *)
Lemma lex_quote (s rest : jsstring) :
  lex LDefault (quote s ++ rest) = option_map (cons (TString s)) (lex LDefault rest).
Proof.
  unfold quote. cbn [app]. rewrite lex_cons.
  change (step LDefault 34%N) with (Some (LString [], @nil token)).
  cbv iota. rewrite option_map_nil.
  rewrite <- app_assoc.
  rewrite (lex_quote_units (List.length s) s) by apply le_n.
  cbn [app]. rewrite lex_cons. cbn [step].
  change ((34 =? 34)%N) with true. cbv iota.
  rewrite app_nil_r, rev_involutive. reflexivity.
Qed.

(** *** Numbers *)

Lemma digit_number_char (c : N) : JsNumber.is_digit c = true -> is_number_char c = true.
Proof. unfold is_number_char. now intros ->. Qed.

Lemma digits_number_chars (ds : jsstring) :
  forallb JsNumber.is_digit ds = true -> forallb is_number_char ds = true.
Proof.
  induction ds as [|c ds IH]; simpl; [reflexivity|].
  intros H. apply andb_prop in H as [Hc Hds].
  now rewrite (digit_number_char c Hc), IH.
Qed.

Lemma read_digits_chars (s : jsstring) (acc cnt v n : Z) (rest : jsstring) :
  JsNumber.read_digits s acc cnt = (v, n, rest) ->
  exists ds, s = ds ++ rest /\ forallb JsNumber.is_digit ds = true
             /\ n = cnt + Z.of_nat (List.length ds).
Proof.
  intros E. destruct (read_digits_split s acc cnt) as [ds [Hs [Hds Hn]]].
  rewrite E in Hs, Hn. simpl in Hs, Hn. now exists ds.
Qed.

Lemma read_exponent_chars (s : jsstring) (ex : Z) :
  JsNumber.read_exponent s = Some ex -> forallb is_number_char s = true.
Proof.
  unfold JsNumber.read_exponent. destruct s as [|c s]; [reflexivity|].
  destruct ((c =? 101)%N || (c =? 69)%N) eqn:Hc; [|discriminate].
  assert (Hcn : is_number_char c = true).
  { unfold is_number_char. apply orb_prop in Hc as [H|H]; rewrite H;
      rewrite ?orb_true_r; reflexivity. }
  destruct (JsNumber.read_exp_sign s) as [neg s1] eqn:Hsign.
  destruct (JsNumber.read_digits s1 0 0) as [[v cnt] rest] eqn:Hd.
  destruct rest; [|discriminate]. intros _.
  apply read_digits_chars in Hd as [ds [Hs1 [Hds _]]].
  rewrite app_nil_r in Hs1. subst s1.
  apply digits_number_chars in Hds.
  cbn [forallb]. rewrite Hcn. cbn [andb].
  unfold JsNumber.read_exp_sign in Hsign. destruct s as [|d s'].
  - reflexivity.
  - destruct (N.eqb_spec d 45) as [->|_].
    + injection Hsign as _ <-. exact Hds.
    + destruct (N.eqb_spec d 43) as [->|_].
      * injection Hsign as _ <-. exact Hds.
      * injection Hsign as _ <-. exact Hds.
Qed.

Lemma unsigned_decimal_chars (s1 : jsstring) (m k : Z) :
  JsNumber.unsigned_decimal s1 = Some (m, k) ->
  forallb is_number_char s1 = true
  /\ exists c s', s1 = c :: s' /\ JsNumber.is_digit c = true.
Proof.
  unfold JsNumber.unsigned_decimal.
  destruct (JsNumber.read_digits s1 0 0) as [[ip n_int] s2] eqn:Hd.
  apply read_digits_chars in Hd as [ds1 [Hs1 [Hds1 Hn]]].
  destruct (Z.eqb_spec n_int 0) as [E|Hne]; [discriminate|].
  destruct ((1 <? n_int) && is_prefix [48%N] s1); [discriminate|].
  intros H.
  assert (Hs2 : forallb is_number_char s2 = true).
  { destruct s2 as [|c s3]; [reflexivity|].
    destruct (N.eqb_spec c 46) as [->|Hc].
    - destruct (JsNumber.read_digits s3 ip 0) as [[m' n_frac] s4] eqn:Hd2.
      apply read_digits_chars in Hd2 as [ds2 [Hs3 [Hds2 _]]].
      destruct (n_frac =? 0); [discriminate|].
      destruct (JsNumber.read_exponent s4) as [ex|] eqn:Hex; [|discriminate].
      apply read_exponent_chars in Hex. subst s3.
      cbn [forallb]. rewrite forallb_app, (digits_number_chars _ Hds2), Hex.
      reflexivity.
    - destruct (JsNumber.read_exponent (c :: s3)) as [ex|] eqn:Hex; [|discriminate].
      now apply read_exponent_chars in Hex. }
  split.
  - subst s1. now rewrite forallb_app, (digits_number_chars _ Hds1), Hs2.
  - destruct ds1 as [|c ds1]; [simpl in Hn; lia|].
    exists c, (ds1 ++ s2). split; [now subst s1|].
    simpl in Hds1. now apply andb_prop in Hds1 as [Hc _].
Qed.

(** A number literal is made of number characters and starts with a digit
    or a minus sign. *)
Lemma of_literal_chars (txt : jsstring) (x : number) :
  JsNumber.of_literal txt = Some x ->
  forallb is_number_char txt = true
  /\ exists c s, txt = c :: s /\ (JsNumber.is_digit c || (c =? 45)%N) = true.
Proof.
  unfold JsNumber.of_literal, JsNumber.decimal_of_literal.
  destruct (JsNumber.read_sign txt) as [sg s1] eqn:Hsign.
  destruct (JsNumber.unsigned_decimal s1) as [[m k]|] eqn:Hdec; [|discriminate].
  intros _. apply unsigned_decimal_chars in Hdec as [Hchars [c [s' [Hs1 Hc]]]].
  unfold JsNumber.read_sign in Hsign. destruct txt as [|d txt'].
  - injection Hsign as _ <-. discriminate.
  - destruct (N.eqb_spec d 45) as [->|_].
    + injection Hsign as _ <-. split.
      * cbn [forallb]. now rewrite Hchars.
      * exists 45%N, txt'. split; [reflexivity|]. apply orb_true_r.
    + injection Hsign as _ <-. split; [exact Hchars|].
      injection Hs1 as -> ->. exists c, s'. split; [reflexivity|]. now rewrite Hc.
Qed.

Lemma step_default_number (c : N) :
  (JsNumber.is_digit c || (c =? 45)%N) = true ->
  step_default c = Some (LNumber [c], []).
Proof.
  intros H. unfold step_default.
  assert (Hc : (c = 45 \/ 48 <= c <= 57)%N).
  { apply orb_prop in H as [H|H].
    - unfold JsNumber.is_digit in H. apply andb_prop in H as [H1 H2].
      apply N.leb_le in H1, H2. lia.
    - apply N.eqb_eq in H. lia. }
  assert (Hws : is_ws c = false).
  { unfold is_ws.
    destruct (N.eqb_spec c 9); [lia|]. destruct (N.eqb_spec c 10); [lia|].
    destruct (N.eqb_spec c 13); [lia|]. destruct (N.eqb_spec c 32); [lia|].
    reflexivity. }
  rewrite Hws.
  destruct (N.eqb_spec c 123); [lia|]. destruct (N.eqb_spec c 125); [lia|].
  destruct (N.eqb_spec c 91); [lia|]. destruct (N.eqb_spec c 93); [lia|].
  destruct (N.eqb_spec c 58); [lia|]. destruct (N.eqb_spec c 44); [lia|].
  destruct (N.eqb_spec c 34); [lia|].
  now rewrite H.
Qed.

Lemma lex_number_run (txt cs rest : jsstring) :
  forallb is_number_char txt = true ->
  lex (LNumber cs) (txt ++ rest) = lex (LNumber (rev txt ++ cs)) rest.
Proof.
  revert cs. induction txt as [|c txt IH]; intros cs H; [reflexivity|].
  simpl in H. apply andb_prop in H as [Hc Htxt].
  cbn [app]. rewrite lex_cons. cbn [step]. rewrite Hc.
  rewrite option_map_nil, IH by exact Htxt.
  cbn [rev]. now rewrite <- app_assoc.
Qed.

Lemma lex_number_end (cs rest : jsstring) (x : number) :
  delimited rest ->
  JsNumber.of_literal (rev cs) = Some x ->
  lex (LNumber cs) rest = option_map (cons (TNumber x)) (lex LDefault rest).
Proof.
  intros Hrest Hlit. destruct rest as [|c rest].
  - simpl. now rewrite Hlit.
  - destruct Hrest as [Hc _].
    rewrite !lex_cons. cbn [step close]. rewrite Hc, Hlit.
    destruct (step_default c) as [[m' t2]|]; [|reflexivity].
    change (cons (TNumber x)) with (app [TNumber x]).
    now rewrite option_map_app.
Qed.

(** The text of a number, followed by a delimiter, is lexed as a number
    token. *)
Lemma lex_number (txt rest : jsstring) (x : number) :
  JsNumber.of_literal txt = Some x ->
  delimited rest ->
  lex LDefault (txt ++ rest) = option_map (cons (TNumber x)) (lex LDefault rest).
Proof.
  intros Hlit Hrest.
  destruct (of_literal_chars txt x Hlit) as [Hchars [c [s [-> Hc]]]].
  cbn [app]. rewrite lex_cons. cbn [step]. rewrite (step_default_number c Hc).
  rewrite option_map_nil.
  simpl in Hchars. apply andb_prop in Hchars as [_ Hs].
  rewrite lex_number_run by exact Hs.
  apply lex_number_end; [exact Hrest|].
  rewrite rev_app_distr, rev_involutive. exact Hlit.
Qed.

(** *** Words *)

Lemma lex_word_end (cs rest : jsstring) (t : token) :
  delimited rest ->
  word_token (rev cs) = Some t ->
  lex (LWord cs) rest = option_map (cons t) (lex LDefault rest).
Proof.
  intros Hrest Hw. destruct rest as [|c rest].
  - simpl. now rewrite Hw.
  - destruct Hrest as [_ Hc].
    rewrite !lex_cons. cbn [step close]. rewrite Hc, Hw.
    destruct (step_default c) as [[m' t2]|]; [|reflexivity].
    change (cons t) with (app [t]).
    now rewrite option_map_app.
Qed.

Lemma lex_null (rest : jsstring) :
  delimited rest ->
  lex LDefault (u "null" ++ rest) = option_map (cons TNull) (lex LDefault rest).
Proof.
  intros H. change (u "null" ++ rest) with (110%N :: 117%N :: 108%N :: 108%N :: rest).
  rewrite lex_cons. change (step LDefault 110%N) with (Some (LWord [110%N], @nil token)).
  cbv beta iota. rewrite option_map_nil.
  do 3 (rewrite lex_cons; cbn [step];
        match goal with |- context [is_letter ?c] => change (is_letter c) with true end;
        cbv beta iota; rewrite option_map_nil).
  now apply lex_word_end.
Qed.

Lemma lex_true (rest : jsstring) :
  delimited rest ->
  lex LDefault (u "true" ++ rest) = option_map (cons TTrue) (lex LDefault rest).
Proof.
  intros H. change (u "true" ++ rest) with (116%N :: 114%N :: 117%N :: 101%N :: rest).
  rewrite lex_cons. change (step LDefault 116%N) with (Some (LWord [116%N], @nil token)).
  cbv beta iota. rewrite option_map_nil.
  do 3 (rewrite lex_cons; cbn [step];
        match goal with |- context [is_letter ?c] => change (is_letter c) with true end;
        cbv beta iota; rewrite option_map_nil).
  now apply lex_word_end.
Qed.

Lemma lex_false (rest : jsstring) :
  delimited rest ->
  lex LDefault (u "false" ++ rest) = option_map (cons TFalse) (lex LDefault rest).
Proof.
  intros H.
  change (u "false" ++ rest) with (102%N :: 97%N :: 108%N :: 115%N :: 101%N :: rest).
  rewrite lex_cons. change (step LDefault 102%N) with (Some (LWord [102%N], @nil token)).
  cbv beta iota. rewrite option_map_nil.
  do 4 (rewrite lex_cons; cbn [step];
        match goal with |- context [is_letter ?c] => change (is_letter c) with true end;
        cbv beta iota; rewrite option_map_nil).
  now apply lex_word_end.
Qed.

Lemma wf_array (items : list json) : wf (JArray items) <-> Forall wf items.
Proof.
  cbn [wf]. induction items as [|v items IH].
  - split; [constructor | exact (fun _ => I)].
  - split.
    + intros [Hv Hrest]. constructor; [exact Hv | now apply IH].
    + intros H. inversion H; subst. split; [assumption | now apply IH].
Qed.

Lemma wf_object (ms : list (jsstring * json)) : wf (JObject ms) <-> wf_members ms.
Proof.
  unfold wf_members. cbn [wf].
  assert (H : (fix all (l : list (jsstring * json)) : Prop :=
                 match l with
                 | [] => True
                 | kv :: l' => wf (snd kv) /\ all l'
                 end) ms <-> Forall (fun kv => wf (snd kv)) ms).
  { induction ms as [|kv ms IH].
    - split; [constructor | exact (fun _ => I)].
    - split.
      + intros [Hv Hrest]. constructor; [exact Hv | now apply IH].
      + intros H. inversion H; subst. split; [assumption | now apply IH]. }
  tauto.
Qed.

Lemma join_cons (sp p : jsstring) (ps : list jsstring) :
  join sp (p :: ps) = p ++ flat_map (fun q => sp ++ q) ps.
Proof.
  revert p. induction ps as [|q ps IH]; intros p.
  - simpl. now rewrite app_nil_r.
  - change (join sp (p :: q :: ps)) with (p ++ sp ++ join sp (q :: ps)).
    rewrite IH. cbn [flat_map]. now rewrite <- app_assoc.
Qed.

Lemma flat_map_map {A B C : Type} (f : B -> list C) (g : A -> B) (l : list A) :
  flat_map f (List.map g l) = flat_map (fun a => f (g a)) l.
Proof. induction l as [|a l IH]; simpl; [reflexivity | now rewrite IH]. Qed.

Lemma lex_punct (c : N) (t : token) (rest : jsstring) :
  step_default c = Some (LDefault, [t]) ->
  lex LDefault (c :: rest) = option_map (cons t) (lex LDefault rest).
Proof. intros H. rewrite lex_cons. cbn [step]. now rewrite H. Qed.

(** The elements after the first, each behind a comma, up to the closing
    bracket or brace. *)
Lemma lex_seq {A : Type} (txt : A -> jsstring) (tk : A -> list token) (l : list A)
  (close_c : N) (close_t : token) (rest : jsstring) :
  Forall (fun a => forall rest', delimited rest' ->
                   lex LDefault (txt a ++ rest')
                   = option_map (app (tk a)) (lex LDefault rest')) l ->
  step_default close_c = Some (LDefault, [close_t]) ->
  delimited (close_c :: rest) ->
  lex LDefault (flat_map (fun a => [44%N] ++ txt a) l ++ close_c :: rest)
  = option_map (app (flat_map (fun a => TComma :: tk a) l ++ [close_t]))
               (lex LDefault rest).
Proof.
  intros Hl Hclose Hdelim. induction Hl as [|a l Ha Hl IH].
  - cbn [flat_map app]. now apply lex_punct.
  - cbn [flat_map]. rewrite <- !app_assoc.
    change ([44%N] ++ txt a ++ flat_map (fun a0 => [44%N] ++ txt a0) l ++ close_c :: rest)
      with (44%N :: txt a ++ flat_map (fun a0 => [44%N] ++ txt a0) l ++ close_c :: rest).
    rewrite (lex_punct 44%N TComma) by reflexivity.
    rewrite Ha.
    + rewrite IH.
      change (cons TComma) with (app [TComma]).
      rewrite !option_map_app. f_equal.
    + destruct l; [exact Hdelim | split; reflexivity].
Qed.

Lemma lex_member (kv : jsstring * json) :
  lexes_as_toks (snd kv) -> all_finite (snd kv) = true -> wf (snd kv) ->
  forall rest, delimited rest ->
    lex LDefault ((quote (fst kv) ++ [58%N] ++ stringify (snd kv)) ++ rest)
    = option_map (app (TString (fst kv) :: TColon :: toks (snd kv))) (lex LDefault rest).
Proof.
  intros Hv Hfin Hwf rest Hrest.
  rewrite <- !app_assoc. rewrite lex_quote. cbn [app].
  rewrite (lex_punct 58%N TColon) by reflexivity.
  rewrite (Hv Hfin Hwf rest Hrest).
  change (cons (TString (fst kv))) with (app [TString (fst kv)]).
  change (cons TColon) with (app [TColon]).
  now rewrite !option_map_app.
Qed.

(** The text of a value is lexed as the tokens of the value. *)
Lemma lex_stringify (v : json) : lexes_as_toks v.
Proof.
  induction v as [|b|x|s|items IH|ms IH] using json_induction;
    unfold lexes_as_toks; intros Hfin Hwf rest Hrest.
  - change (toks JNull) with [TNull]. now apply lex_null.
  - destruct b.
    + change (toks (JBool true)) with [TTrue]. now apply lex_true.
    + change (toks (JBool false)) with [TFalse]. now apply lex_false.
  - cbn [stringify toks]. cbn [all_finite] in Hfin. rewrite Hfin.
    apply lex_number; [|exact Hrest].
    apply to_string_reads; assumption.
  - cbn [stringify toks]. apply lex_quote.
  - cbn [stringify toks]. cbn [all_finite] in Hfin. apply wf_array in Hwf.
    rewrite <- !app_assoc. cbn [app].
    rewrite (lex_punct 91%N TLBracket) by reflexivity.
    assert (Hall : Forall (fun a => forall rest', delimited rest' ->
                             lex LDefault (stringify a ++ rest')
                             = option_map (app (toks a)) (lex LDefault rest')) items).
    { rewrite Forall_forall in *. rewrite forallb_forall in Hfin.
      intros a Ha. apply (IH a Ha); auto. }
    destruct items as [|v items].
    + cbn [List.map join sep app].
      rewrite (lex_punct 93%N TRBracket) by reflexivity.
      change (cons TLBracket) with (app [TLBracket]).
      change (cons TRBracket) with (app [TRBracket]).
      now rewrite option_map_app.
    + cbn [List.map]. rewrite join_cons. unfold sep.
      rewrite !flat_map_map. inversion Hall as [|? ? Hv Hitems]; subst.
      rewrite <- app_assoc. rewrite Hv.
      * rewrite (lex_seq stringify toks items 93%N TRBracket rest Hitems);
          [|reflexivity|split; reflexivity].
        change (cons TLBracket) with (app [TLBracket]).
        rewrite !option_map_app. f_equal.
        cbn [app]. now rewrite <- app_assoc.
      * destruct items; [split; reflexivity | split; reflexivity].
  - cbn [stringify toks]. cbn [all_finite] in Hfin. apply wf_object in Hwf as [_ Hwf].
    rewrite <- !app_assoc. cbn [app].
    rewrite (lex_punct 123%N TLBrace) by reflexivity.
    assert (Hall : Forall (fun a => forall rest', delimited rest' ->
                             lex LDefault ((quote (fst a) ++ [58%N] ++ stringify (snd a)) ++ rest')
                             = option_map (app (TString (fst a) :: TColon :: toks (snd a)))
                                          (lex LDefault rest')) ms).
    { rewrite Forall_forall in *. rewrite forallb_forall in Hfin.
      intros a Ha. apply lex_member; auto. }
    destruct ms as [|kv ms].
    + cbn [List.map join sep app].
      rewrite (lex_punct 125%N TRBrace) by reflexivity.
      change (cons TLBrace) with (app [TLBrace]).
      change (cons TRBrace) with (app [TRBrace]).
      now rewrite option_map_app.
    + cbn [List.map]. rewrite join_cons. unfold sep.
      rewrite !flat_map_map. inversion Hall as [|? ? Hv Hitems]; subst.
      rewrite <- app_assoc. rewrite Hv.
      * rewrite (lex_seq (fun a => quote (fst a) ++ 58%N :: stringify (snd a))
                   (fun a => TString (fst a) :: TColon :: toks (snd a))
                   ms 125%N TRBrace rest Hitems);
          [|reflexivity|split; reflexivity].
        change (cons TLBrace) with (app [TLBrace]).
        rewrite !option_map_app. f_equal.
        cbn [app]. now rewrite <- app_assoc.
      * destruct ms; [split; reflexivity | split; reflexivity].
Qed.

(** *** The grammar machine on the tokens of a value *)

Lemma run_array_first (v : json) (st : list frame) (rest : list token) :
  run (SArrayFirst st) (toks v ++ rest) = run (SValue (FArray [] :: st)) (toks v ++ rest).
Proof. destruct v as [|[]|x|s|items|ms]; reflexivity. Qed.

Lemma run_items (items : list json) :
  Forall (fun v => forall st rest,
              run (SValue st) (toks v ++ rest) = run (reduce (drop_zero_signs v) st) rest)
         items ->
  forall done st rest,
    run (SArrayNext done st)
        (flat_map (fun a => TComma :: toks a) items ++ TRBracket :: rest)
    = run (reduce (JArray (rev done ++ List.map drop_zero_signs items)) st) rest.
Proof.
  induction 1 as [|v items Hv _ IH]; intros done st rest.
  - cbn [flat_map app List.map run ptrans]. now rewrite app_nil_r.
  - cbn [flat_map]. rewrite <- app_assoc. cbn [app run ptrans].
    rewrite <- ?app_assoc, Hv. cbn [reduce]. rewrite IH.
    cbn [rev List.map]. now rewrite <- app_assoc.
Qed.

Lemma obj_get_none (k : jsstring) (ms : list (jsstring * json)) :
  ~ In k (List.map fst ms) -> obj_get k ms = None.
Proof.
  induction ms as [|[k' v'] ms IH]; intros Hin; [reflexivity|].
  cbn [obj_get]. destruct (JsString.eqb k k') eqn:E.
  - apply JsStringFacts.eqb_eq in E. subst. elim Hin. now left.
  - apply IH. intros H. apply Hin. now right.
Qed.

Lemma obj_get_some (k : jsstring) (ms : list (jsstring * json)) (v : json) :
  obj_get k ms = Some v -> In k (List.map fst ms).
Proof.
  induction ms as [|[k' v'] ms IH]; cbn [obj_get]; [discriminate|].
  destruct (JsString.eqb k k') eqn:E.
  - apply JsStringFacts.eqb_eq in E. subst. intros _. now left.
  - intros H. right. now apply IH.
Qed.

Lemma insert_index_last (i : N) (k : jsstring) (v : json) (ms : list (jsstring * json)) :
  array_index k = Some i ->
  Forall (fun k' => precedes k' k) (List.map fst ms) ->
  insert_index i k v ms = ms ++ [(k, v)].
Proof.
  intros Hk. induction ms as [|[k' v'] ms IH]; intros Hall; [reflexivity|].
  cbn [List.map fst] in Hall. inversion Hall as [|? ? Hk' Hall']; subst.
  cbn [insert_index app]. unfold precedes in Hk'. rewrite Hk in Hk'.
  destruct (array_index k') as [j|]; [|contradiction].
  apply N.ltb_lt in Hk'. rewrite Hk'. f_equal. now apply IH.
Qed.

(** A key that is new and comes after the keys present is added at the
    end. *)
Lemma obj_set_new (k : jsstring) (v : json) (ms : list (jsstring * json)) :
  ~ In k (List.map fst ms) ->
  Forall (fun k' => precedes k' k) (List.map fst ms) ->
  obj_set k v ms = ms ++ [(k, v)].
Proof.
  intros Hin Hall. unfold obj_set. rewrite (obj_get_none k ms Hin).
  destruct (array_index k) as [i|] eqn:Hk; [|reflexivity].
  now apply insert_index_last.
Qed.

Lemma key_order_app (ks : list jsstring) (k : jsstring) (ks' : list jsstring) :
  key_order (ks ++ k :: ks') -> Forall (fun k' => precedes k' k) ks.
Proof.
  induction ks as [|a ks IH]; cbn [app key_order]; [constructor|].
  intros [Ha Hrest]. constructor; [|now apply IH].
  rewrite Forall_forall in Ha. apply Ha. apply in_or_app. right. now left.
Qed.

Lemma run_members (ms : list (jsstring * json)) :
  Forall (fun kv => forall st rest,
              run (SValue st) (toks (snd kv) ++ rest)
              = run (reduce (drop_zero_signs (snd kv)) st) rest) ms ->
  forall done st rest,
    property_keys (List.map fst done ++ List.map fst ms) ->
    run (SObjectNext done st)
        (flat_map (fun kv => TComma :: TString (fst kv) :: TColon :: toks (snd kv)) ms
           ++ TRBrace :: rest)
    = run (reduce (JObject (done ++ List.map (fun kv => (fst kv, drop_zero_signs (snd kv))) ms))
                  st) rest.
Proof.
  induction 1 as [|[k v] ms Hv _ IH]; intros done st rest Hnd.
  - cbn [flat_map app List.map run ptrans]. now rewrite app_nil_r.
  - cbn [flat_map]. rewrite <- app_assoc. cbn [app run ptrans fst snd].
    rewrite <- ?app_assoc. cbn [snd] in Hv. rewrite Hv. cbn [reduce].
    cbn [List.map fst] in Hnd.
    rewrite obj_set_new.
    + rewrite IH.
      * cbn [List.map fst snd]. now rewrite <- app_assoc.
      * rewrite map_app. cbn [List.map fst]. now rewrite <- app_assoc.
    + destruct Hnd as [Hnd _]. apply NoDup_remove_2 in Hnd.
      intros H. apply Hnd. apply in_or_app. now left.
    + destruct Hnd as [_ Hord]. now apply key_order_app in Hord.
Qed.

(** The tokens of a value are parsed as the value (up to the sign of
    zero). *)
Lemma run_toks (v : json) : parses_back v.
Proof.
  induction v as [|b|x|s|items IH|ms IH] using json_induction;
    unfold parses_back; intros Hwf st rest.
  - reflexivity.
  - destruct b; reflexivity.
  - reflexivity.
  - reflexivity.
  - apply wf_array in Hwf.
    assert (Hall : Forall (fun v => forall st rest,
                             run (SValue st) (toks v ++ rest)
                             = run (reduce (drop_zero_signs v) st) rest) items).
    { rewrite Forall_forall in *. intros a Ha. apply (IH a Ha). auto. }
    cbn [toks drop_zero_signs]. destruct items as [|v items].
    + reflexivity.
    + cbn [List.map sep]. rewrite flat_map_map.
      rewrite <- ?app_assoc. cbn [app run ptrans begin_value].
      rewrite <- ?app_assoc.
      inversion Hall as [|? ? Hv Hitems]; subst.
      rewrite run_array_first, Hv. cbn [reduce].
      change ([TRBracket] ++ rest) with (TRBracket :: rest).
      now rewrite (run_items items Hitems).
  - apply wf_object in Hwf as [Hnd Hwf].
    assert (Hall : Forall (fun kv => forall st rest,
                             run (SValue st) (toks (snd kv) ++ rest)
                             = run (reduce (drop_zero_signs (snd kv)) st) rest) ms).
    { rewrite Forall_forall in *. intros a Ha. apply (IH a Ha). auto. }
    cbn [toks drop_zero_signs]. destruct ms as [|[k v] ms].
    + reflexivity.
    + cbn [List.map sep fst snd]. rewrite flat_map_map.
      rewrite <- ?app_assoc. cbn [app run ptrans begin_value].
      rewrite <- ?app_assoc.
      inversion Hall as [|? ? Hv Hitems]; subst. cbn [snd] in Hv.
      rewrite Hv. cbn [reduce].
      rewrite (obj_set_new k _ []); [|intros [] | constructor]. cbn [app].
      change ([TRBrace] ++ rest) with (TRBrace :: rest).
      rewrite (run_members ms Hitems); [reflexivity|].
      exact Hnd.
Qed.

(** Parsing the text of a well-formed value with finite numbers gives the
    value back, up to the sign of zero. *)
Lemma parse_stringify (v : json) :
  all_finite v = true -> wf v -> parse (stringify v) = Some (drop_zero_signs v).
Proof.
  intros Hfin Hwf. unfold parse.
  rewrite <- (app_nil_r (stringify v)).
  rewrite (lex_stringify v Hfin Hwf [] I). cbn [lex close option_map].
  now rewrite (run_toks v Hwf).
Qed.

(** *** What [parse] builds is well formed *)

Lemma array_index_text (k : jsstring) (i : N) :
  array_index k = Some i -> k = JsString.of_N i.
Proof.
  unfold array_index.
  set (n := fold_left _ k 0%N).
  destruct (n <? 4294967295)%N; [|discriminate]. cbn [andb].
  destruct (JsString.eqb (JsString.of_N n) k) eqn:E; [|discriminate].
  intros H. injection H as <-. symmetry. now apply JsStringFacts.eqb_eq.
Qed.

Lemma replace_value_keys (k : jsstring) (v : json) (ms : list (jsstring * json)) :
  List.map fst (replace_value k v ms) = List.map fst ms.
Proof.
  induction ms as [|[k' v'] ms IH]; [reflexivity|].
  cbn [replace_value]. destruct (JsString.eqb k k') eqn:E.
  - apply JsStringFacts.eqb_eq in E. now subst.
  - cbn [List.map fst]. now rewrite IH.
Qed.

Lemma replace_value_wf (k : jsstring) (v : json) (ms : list (jsstring * json)) :
  wf v -> Forall (fun kv => wf (snd kv)) ms ->
  Forall (fun kv => wf (snd kv)) (replace_value k v ms).
Proof.
  intros Hv. induction 1 as [|[k' v'] ms Hv' Hall IH]; [constructor|].
  cbn [replace_value]. destruct (JsString.eqb k k'); constructor; assumption.
Qed.

Lemma insert_index_perm (i : N) (k : jsstring) (v : json) (ms : list (jsstring * json)) :
  forall kv, In kv (insert_index i k v ms) <-> kv = (k, v) \/ In kv ms.
Proof.
  induction ms as [|[k' v'] ms IH]; intros kv; cbn [insert_index].
  - cbn [In]. intuition congruence.
  - destruct (array_index k') as [j|]; [destruct (j <? i)%N|]; cbn [In];
      try rewrite IH; cbn [In]; intuition congruence.
Qed.

Lemma insert_index_keys (i : N) (k : jsstring) (v : json) (ms : list (jsstring * json))
      (x : jsstring) :
  In x (List.map fst (insert_index i k v ms)) -> x = k \/ In x (List.map fst ms).
Proof.
  intros H. apply in_map_iff in H as [[x' v'] [Hx Hin]]. cbn [fst] in Hx. subst x'.
  apply insert_index_perm in Hin as [Hin|Hin].
  - injection Hin as -> _. now left.
  - right. apply in_map_iff. now exists (x, v').
Qed.

Lemma obj_set_keys (k : jsstring) (v : json) (ms : list (jsstring * json)) (x : jsstring) :
  In x (List.map fst (obj_set k v ms)) -> x = k \/ In x (List.map fst ms).
Proof.
  unfold obj_set. destruct (obj_get k ms).
  - rewrite replace_value_keys. now right.
  - destruct (array_index k) as [i|].
    + apply insert_index_keys.
    + rewrite map_app. intros H. apply in_app_or in H as [H|[H|[]]]; [now right | now left].
Qed.

Lemma precedes_trans (a b c : jsstring) : precedes a b -> precedes b c -> precedes a c.
Proof.
  unfold precedes.
  destruct (array_index a), (array_index b), (array_index c); try tauto.
  apply N.lt_trans.
Qed.

Lemma insert_index_nodup (i : N) (k : jsstring) (v : json) (ms : list (jsstring * json)) :
  ~ In k (List.map fst ms) -> NoDup (List.map fst ms) ->
  NoDup (List.map fst (insert_index i k v ms)).
Proof.
  induction ms as [|[k' v'] ms IH]; intros Hin Hnd; cbn [insert_index].
  - repeat constructor. intros [].
  - cbn [List.map fst] in Hin, Hnd. inversion Hnd as [|? ? Hk' Hnd']; subst.
    assert (Hnew : NoDup (k :: k' :: List.map fst ms)) by (constructor; assumption).
    destruct (array_index k') as [j|]; [destruct (j <? i)%N|]; cbn [List.map fst];
      try exact Hnew.
    constructor.
    + intros H. apply insert_index_keys in H as [H|H]; [|now apply Hk'].
      apply Hin. left. now symmetry.
    + apply IH; [|exact Hnd']. intros H. apply Hin. now right.
Qed.

Lemma insert_index_order (i : N) (k : jsstring) (v : json) (ms : list (jsstring * json)) :
  array_index k = Some i -> ~ In k (List.map fst ms) ->
  key_order (List.map fst ms) -> key_order (List.map fst (insert_index i k v ms)).
Proof.
  intros Hk. induction ms as [|[k' v'] ms IH]; intros Hin Hord; cbn [insert_index].
  - cbn. split; [constructor | exact I].
  - cbn [List.map fst key_order] in Hin, Hord. destruct Hord as [Hk' Hord].
    assert (Hfirst : precedes k k' -> key_order (k :: k' :: List.map fst ms)).
    { intros Hkk'. cbn [key_order]. split; [|split; assumption].
      constructor; [exact Hkk'|].
      eapply Forall_impl; [|exact Hk']. intros x. now apply precedes_trans. }
    destruct (array_index k') as [j|] eqn:Ek'; [destruct (j <? i)%N eqn:Eji|].
    + cbn [List.map fst key_order]. split.
      * rewrite Forall_forall. intros x Hx.
        apply insert_index_keys in Hx as [->|Hx].
        -- unfold precedes. rewrite Ek', Hk. now apply N.ltb_lt.
        -- rewrite Forall_forall in Hk'. now apply Hk'.
      * apply IH; [|exact Hord]. intros H. apply Hin. now right.
    + apply Hfirst. unfold precedes. rewrite Hk, Ek'.
      apply N.ltb_ge in Eji. apply N.le_lteq in Eji as [Hlt|Heq]; [exact Hlt|].
      subst j. elim Hin. left.
      apply array_index_text in Hk. apply array_index_text in Ek'. congruence.
    + apply Hfirst. unfold precedes. now rewrite Hk, Ek'.
Qed.

Lemma key_order_last (ks : list jsstring) (k : jsstring) :
  array_index k = None -> key_order ks -> key_order (ks ++ [k]).
Proof.
  intros Hk. induction ks as [|a ks IH]; cbn [app key_order].
  - intros _. split; [constructor | exact I].
  - intros [Ha Hord]. split; [|now apply IH].
    apply Forall_app. split; [exact Ha|]. constructor; [|constructor].
    unfold precedes. rewrite Hk. now destruct (array_index a).
Qed.

Lemma obj_set_wf (k : jsstring) (v : json) (ms : list (jsstring * json)) :
  wf_members ms -> wf v -> wf_members (obj_set k v ms).
Proof.
  unfold wf_members, property_keys. intros [[Hnd Hord] Hall] Hv.
  unfold obj_set. destruct (obj_get k ms) as [old|] eqn:Eget.
  - rewrite replace_value_keys. split; [split; assumption|].
    now apply replace_value_wf.
  - assert (Hin : ~ In k (List.map fst ms)).
    { intros H. apply in_map_iff in H as [[k' v'] [Hk' H]]. cbn [fst] in Hk'. subst k'.
      clear - Eget H. induction ms as [|[a b] ms IH]; [destruct H|].
      cbn [obj_get] in Eget. destruct (JsString.eqb k a) eqn:E; [discriminate|].
      destruct H as [H|H]; [|now apply IH].
      injection H as -> _. apply JsStringFacts.eqb_neq in E. now apply E. }
    destruct (array_index k) as [i|] eqn:Hk.
    + split; [split|].
      * now apply insert_index_nodup.
      * now apply insert_index_order.
      * rewrite Forall_forall in *. intros kv Hkv.
        apply insert_index_perm in Hkv as [->|Hkv]; [exact Hv | now apply Hall].
    + split; [split|].
      * rewrite map_app. cbn [List.map fst].
        apply NoDup_app; [exact Hnd | repeat constructor; intros [] |].
        intros x Hx [<-|[]]. now apply Hin.
      * rewrite map_app. now apply key_order_last.
      * apply Forall_app. split; [exact Hall | repeat constructor; exact Hv].
Qed.

Lemma reduce_wf (v : json) (st : list frame) :
  wf v -> Forall wf_frame st -> wf_state (reduce v st).
Proof.
  intros Hv Hst. destruct st as [|[items|ms k] st]; cbn [reduce wf_state].
  - exact Hv.
  - inversion Hst; subst. split; [constructor; assumption | assumption].
  - inversion Hst; subst. split; [now apply obj_set_wf | assumption].
Qed.

Lemma begin_value_wf (t : token) (st : list frame) (s' : pstate) :
  wf_token t -> Forall wf_frame st -> begin_value t st = Some s' -> wf_state s'.
Proof.
  intros Ht Hst. destruct t; cbn [begin_value]; intros H; try discriminate;
    injection H as <-; try (apply reduce_wf; [exact Ht || exact I | exact Hst]);
    exact Hst.
Qed.

Lemma ptrans_wf (s s' : pstate) (t : token) :
  wf_state s -> wf_token t -> ptrans s t = Some s' -> wf_state s'.
Proof.
  intros Hs Ht. destruct s as [st|st|items st|st|ms st|ms k st|ms st|v];
    cbn [wf_state] in Hs.
  - apply begin_value_wf; assumption.
  - destruct t; cbn [ptrans]; intros H;
      try (apply (begin_value_wf _ (FArray [] :: st) _ Ht); [|exact H];
           constructor; [constructor | exact Hs]).
    injection H as <-. apply reduce_wf; [exact I | exact Hs].
  - destruct Hs as [Hitems Hst].
    destruct t; cbn [ptrans]; intros H; try discriminate; injection H as <-.
    + apply reduce_wf; [|exact Hst]. apply wf_array. now apply Forall_rev.
    + cbn [wf_state]. constructor; assumption.
  - destruct t; cbn [ptrans]; intros H; try discriminate; injection H as <-.
    + apply reduce_wf; [|exact Hs]. apply wf_object.
      split; [split; [constructor | exact I] | constructor].
    + cbn [wf_state]. split; [|exact Hs].
      split; [split; [constructor | exact I] | constructor].
  - destruct Hs as [Hms Hst].
    destruct t; cbn [ptrans]; intros H; try discriminate; injection H as <-.
    cbn [wf_state]. split; assumption.
  - destruct Hs as [Hms Hst].
    destruct t; cbn [ptrans]; intros H; try discriminate; injection H as <-.
    cbn [wf_state]. constructor; assumption.
  - destruct Hs as [Hms Hst].
    destruct t; cbn [ptrans]; intros H; try discriminate; injection H as <-.
    + apply reduce_wf; [|exact Hst]. now apply wf_object.
    + cbn [wf_state]. split; assumption.
  - destruct t; discriminate.
Qed.

Lemma run_wf (ts : list token) :
  forall s v, wf_state s -> Forall wf_token ts -> run s ts = Some v -> wf v.
Proof.
  induction ts as [|t ts IH]; intros s v Hs Hts; cbn [run].
  - destruct s; try discriminate. intros H. injection H as <-. exact Hs.
  - inversion Hts; subst.
    destruct (ptrans s t) as [s'|] eqn:E; [|discriminate].
    apply IH; [|assumption]. now apply (ptrans_wf s s' t).
Qed.

Lemma close_wf (m : lex_mode) (ts : list token) :
  close m = Some ts -> Forall wf_token ts.
Proof.
  destruct m as [|acc|acc|acc todo v|cs|cs]; cbn [close]; try discriminate.
  - intros H. injection H as <-. constructor.
  - destruct (JsNumber.of_literal (rev cs)) as [x|] eqn:E; [|discriminate].
    intros H. injection H as <-. constructor; [|constructor].
    now apply of_literal_canonical in E.
  - destruct (word_token (rev cs)) as [t|] eqn:E; [|discriminate].
    intros H. injection H as <-. constructor; [|constructor].
    unfold word_token in E.
    repeat match type of E with
           | (if ?b then _ else _) = _ => destruct b
           end; try discriminate; injection E as <-; exact I.
Qed.

Lemma step_default_wf (c : N) (m' : lex_mode) (ts : list token) :
  step_default c = Some (m', ts) -> Forall wf_token ts.
Proof.
  unfold step_default.
  repeat match goal with
         | |- (if ?b then _ else _) = _ -> _ => destruct b
         end; intros H; try discriminate; injection H as <- <-;
    repeat constructor.
Qed.

Lemma step_wf (m m' : lex_mode) (c : N) (ts : list token) :
  step m c = Some (m', ts) -> Forall wf_token ts.
Proof.
  destruct m as [|acc|acc|acc todo v|cs|cs]; cbn [step].
  - apply step_default_wf.
  - repeat match goal with
           | |- (if ?b then _ else _) = _ -> _ => destruct b
           end; intros H; try discriminate; injection H as <- <-; repeat constructor.
  - destruct (c =? 117)%N.
    + intros H. injection H as <- <-. constructor.
    + destruct (unescape c); [|discriminate]. intros H. injection H as <- <-. constructor.
  - destruct (hex_value c); [|discriminate].
    destruct todo as [|[|todo]]; intros H; injection H as <- <-; constructor.
  - destruct (is_number_char c).
    + intros H. injection H as <- <-. constructor.
    + destruct (close (LNumber cs)) as [t1|] eqn:E1; [|discriminate].
      destruct (step_default c) as [[m2 t2]|] eqn:E2; [|discriminate].
      intros H. injection H as <- <-. apply Forall_app. split.
      * now apply close_wf in E1.
      * now apply step_default_wf in E2.
  - destruct (is_letter c).
    + intros H. injection H as <- <-. constructor.
    + destruct (close (LWord cs)) as [t1|] eqn:E1; [|discriminate].
      destruct (step_default c) as [[m2 t2]|] eqn:E2; [|discriminate].
      intros H. injection H as <- <-. apply Forall_app. split.
      * now apply close_wf in E1.
      * now apply step_default_wf in E2.
Qed.

Lemma lex_wf (s : jsstring) :
  forall m ts, lex m s = Some ts -> Forall wf_token ts.
Proof.
  induction s as [|c s IH]; intros m ts.
  - apply close_wf.
  - rewrite lex_cons. destruct (step m c) as [[m' t1]|] eqn:E; [|discriminate].
    destruct (lex m' s) as [r|] eqn:Er; [|discriminate].
    cbn [option_map]. intros H. injection H as <-.
    apply Forall_app. split; [now apply step_wf in E | now apply (IH m')].
Qed.

(** Every value that [parse] returns is well formed. *)
Lemma parse_wf (text : jsstring) (v : json) : parse text = Some v -> wf v.
Proof.
  unfold parse. destruct (lex LDefault text) as [ts|] eqn:E; [|discriminate].
  apply run_wf; [constructor | now apply lex_wf in E].
Qed.

(** *** The text of a value: no line feed, no white space at the ends *)

Lemma number_char_cases (c : N) :
  is_number_char c = true ->
  (c = 43 \/ c = 45 \/ c = 46 \/ (48 <= c <= 57) \/ c = 69 \/ c = 101)%N.
Proof.
  unfold is_number_char, JsNumber.is_digit. intros H.
  repeat match type of H with
         | (_ || _) = true => apply orb_prop in H as [H|H]
         end.
  - apply andb_prop in H as [H1 H2]. apply N.leb_le in H1, H2. lia.
  - apply N.eqb_eq in H. lia.
  - apply N.eqb_eq in H. lia.
  - apply N.eqb_eq in H. lia.
  - apply N.eqb_eq in H. lia.
  - apply N.eqb_eq in H. lia.
Qed.

Lemma below_128_not_space (c : N) :
  (32 < c < 128)%N -> is_trim_space c = false.
Proof.
  intros H. unfold is_trim_space.
  repeat match goal with
         | |- context [(?a <=? ?b)%N] => destruct (N.leb_spec a b); try lia
         | |- context [(?a =? ?b)%N] => destruct (N.eqb_spec a b); try lia
         end; reflexivity.
Qed.

Lemma number_char_not_space (c : N) :
  is_number_char c = true -> is_trim_space c = false /\ c <> 10%N.
Proof.
  intros H. apply number_char_cases in H.
  split; [apply below_128_not_space|]; lia.
Qed.

Lemma hex_digit_no_line_feed (n : N) : hex_digit n <> 10%N.
Proof. unfold hex_digit. destruct (n <? 10)%N; lia. Qed.

Lemma quote_unit_no_line_feed (c : N) : no_line_feed (quote_unit c).
Proof.
  unfold quote_unit, no_line_feed.
  repeat match goal with
         | |- context [if (c =? ?k)%N then _ else _] =>
             destruct (N.eqb_spec c k); [repeat constructor; discriminate|]
         end.
  destruct (N.ltb_spec c 32) as [Hlt|Hge]; cbn [orb].
  - unfold unicode_escape.
    repeat constructor; try discriminate; apply hex_digit_no_line_feed.
  - destruct (is_high_surrogate c || is_low_surrogate c).
    + unfold unicode_escape.
      repeat constructor; try discriminate; apply hex_digit_no_line_feed.
    + repeat constructor. lia.
Qed.

Lemma quote_units_no_line_feed (n : nat) :
  forall s, (List.length s <= n)%nat -> no_line_feed (quote_units s).
Proof.
  induction n as [|n IH]; intros s Hlen.
  - destruct s; [constructor | simpl in Hlen; lia].
  - destruct s as [|c s]; [constructor|].
    rewrite quote_units_cons. destruct s as [|d s'].
    + apply quote_unit_no_line_feed.
    + destruct (is_high_surrogate c && is_low_surrogate d) eqn:Hpair.
      * apply andb_prop in Hpair as [Hc Hd].
        unfold is_high_surrogate in Hc. unfold is_low_surrogate in Hd.
        apply andb_prop in Hc as [Hc _]. apply andb_prop in Hd as [Hd _].
        apply N.leb_le in Hc, Hd.
        constructor; [lia|]. constructor; [lia|].
        apply IH. simpl in Hlen. lia.
      * apply Forall_app. split; [apply quote_unit_no_line_feed|].
        apply IH. simpl in *. lia.
Qed.

Lemma quote_no_line_feed (s : jsstring) : no_line_feed (quote s).
Proof.
  unfold quote. constructor; [discriminate|].
  apply Forall_app. split.
  - apply (quote_units_no_line_feed (List.length s)). apply le_n.
  - repeat constructor. discriminate.
Qed.

Lemma join_no_line_feed (parts : list jsstring) :
  Forall no_line_feed parts -> no_line_feed (join [44%N] parts).
Proof.
  intros H. destruct parts as [|p ps]; [constructor|].
  rewrite join_cons. inversion H as [|? ? Hp Hps]; subst. clear H.
  apply Forall_app. split; [exact Hp|].
  induction Hps as [|q ps Hq _ IH]; [constructor|].
  cbn [flat_map]. apply Forall_app. split; [|exact IH].
  apply Forall_app. split; [repeat constructor; discriminate | exact Hq].
Qed.

Lemma to_string_chars (x : number) :
  JsNumber.canonical x -> JsNumber.is_finite x = true ->
  forallb is_number_char (JsNumber.to_string x) = true
  /\ JsNumber.to_string x <> [].
Proof.
  intros Hcan Hfin.
  destruct (of_literal_chars _ _ (to_string_reads x Hcan Hfin)) as [H [c [s [E _]]]].
  split; [exact H | rewrite E; discriminate].
Qed.

Lemma number_chars_no_line_feed (s : jsstring) :
  forallb is_number_char s = true -> no_line_feed s.
Proof.
  intros H. apply Forall_forall. intros c Hc.
  rewrite forallb_forall in H. exact (proj2 (number_char_not_space c (H c Hc))).
Qed.

Lemma stringify_no_line_feed (v : json) :
  all_finite v = true -> wf v -> no_line_feed (stringify v).
Proof.
  induction v as [|b|x|s|items IH|ms IH] using json_induction; intros Hfin Hwf.
  - repeat constructor; discriminate.
  - destruct b; repeat constructor; discriminate.
  - cbn [stringify]. cbn [all_finite] in Hfin. rewrite Hfin.
    apply number_chars_no_line_feed. now apply to_string_chars.
  - apply quote_no_line_feed.
  - cbn [stringify]. cbn [all_finite] in Hfin. apply wf_array in Hwf.
    apply Forall_app. split; [repeat constructor; discriminate|].
    apply Forall_app. split; [|repeat constructor; discriminate].
    apply join_no_line_feed. apply Forall_forall. intros p Hp.
    apply in_map_iff in Hp as [v [<- Hv]].
    rewrite Forall_forall in *. rewrite forallb_forall in Hfin. apply IH; auto.
  - cbn [stringify]. cbn [all_finite] in Hfin. apply wf_object in Hwf as [_ Hwf].
    apply Forall_app. split; [repeat constructor; discriminate|].
    apply Forall_app. split; [|repeat constructor; discriminate].
    apply join_no_line_feed. apply Forall_forall. intros p Hp.
    apply in_map_iff in Hp as [kv [<- Hkv]].
    rewrite Forall_forall in *. rewrite forallb_forall in Hfin.
    apply Forall_app. split; [apply quote_no_line_feed|].
    apply Forall_app. split; [repeat constructor; discriminate|].
    apply (IH kv); auto.
Qed.

Lemma last_app_one (s : jsstring) (c d : N) : last (s ++ [c]) d = c.
Proof. apply last_last. Qed.

(** The text of a value starts and ends with something other than white
    space. *)
Lemma stringify_ends (v : json) :
  all_finite v = true -> wf v ->
  exists c s, stringify v = c :: s
              /\ is_trim_space c = false
              /\ is_trim_space (last (c :: s) c) = false.
Proof.
  intros Hfin Hwf. destruct v as [|b|x|s|items|ms].
  - eexists. eexists. split; [reflexivity|]. split; reflexivity.
  - destruct b; (eexists; eexists; split; [reflexivity|]; split; reflexivity).
  - cbn [stringify]. cbn [all_finite] in Hfin. rewrite Hfin.
    destruct (to_string_chars x Hwf Hfin) as [Hchars Hne].
    destruct (JsNumber.to_string x) as [|c s]; [now elim Hne|].
    exists c, s. split; [reflexivity|].
    rewrite forallb_forall in Hchars. split.
    + apply (number_char_not_space c), Hchars. now left.
    + apply (number_char_not_space _), Hchars.
      destruct (@exists_last _ (c :: s) ltac:(discriminate)) as [s' [d E]].
      rewrite E, last_last. apply in_or_app. right. now left.
  - cbn [stringify]. unfold quote. eexists. eexists. split; [reflexivity|].
    split; [reflexivity|].
    change (34%N :: quote_units s ++ [34%N]) with ((34%N :: quote_units s) ++ [34%N]).
    now rewrite last_last.
  - cbn [stringify]. eexists. eexists. split; [reflexivity|]. split; [reflexivity|].
    change (91%N :: (join [44%N] (List.map stringify items) ++ [93%N]))
      with ((91%N :: join [44%N] (List.map stringify items)) ++ [93%N]).
    now rewrite last_last.
  - cbn [stringify]. eexists. eexists. split; [reflexivity|]. split; [reflexivity|].
    match goal with
    | |- context [last (123%N :: (?j ++ [125%N])) _] =>
        change (123%N :: (j ++ [125%N])) with ((123%N :: j) ++ [125%N])
    end.
    now rewrite last_last.
Qed.

Lemma trim_unchanged (c : N) (s : jsstring) :
  is_trim_space c = false ->
  is_trim_space (last (c :: s) c) = false ->
  trim (c :: s) = c :: s.
Proof.
  intros Hc Hlast. unfold trim. cbn [trim_start]. rewrite Hc.
  unfold trim_end.
  destruct (@exists_last _ (c :: s) ltac:(discriminate)) as [s' [d E]].
  rewrite E in *. rewrite last_last in Hlast.
  rewrite rev_app_distr. cbn [rev app trim_start]. rewrite Hlast.
  cbn [rev]. now rewrite rev_involutive.
Qed.

Lemma find_line_feed (p s : jsstring) :
  In 10%N p -> no_line_feed s -> find p s = None.
Proof.
  intros Hp Hs. destruct (find p s) as [[before after]|] eqn:E; [|reflexivity].
  apply ExtractionFacts.find_app in E. subst s.
  unfold no_line_feed in Hs. rewrite Forall_forall in Hs.
  exfalso. apply (Hs 10%N); [|reflexivity].
  apply in_or_app. right. apply in_or_app. now left.
Qed.

(** No fence is found in the text of a value. *)
Lemma jsonMatch_stringify (v : json) :
  all_finite v = true -> wf v -> AIService.jsonMatch (stringify v) = None.
Proof.
  intros Hfin Hwf. pose proof (stringify_no_line_feed v Hfin Hwf) as H.
  unfold AIService.jsonMatch, AIService.match_fence.
  rewrite !find_line_feed; auto.
  - apply in_or_app. right. now left.
  - apply in_or_app. right. now left.
Qed.

Lemma parseJSONResponse_wf (response : jsstring) (payload : json) :
  AIService.parseJSONResponse response = Js.Returned payload -> wf payload.
Proof.
  unfold AIService.parseJSONResponse.
  destruct (parse _) as [v|] eqn:E; [|discriminate].
  intros H. injection H as <-. now apply parse_wf in E.
Qed.

Lemma parseJSONResponse_stringify (v : json) :
  all_finite v = true -> wf v ->
  AIService.parseJSONResponse (stringify v) = Js.Returned (drop_zero_signs v).
Proof.
  intros Hfin Hwf. unfold AIService.parseJSONResponse.
  rewrite (jsonMatch_stringify v Hfin Hwf).
  destruct (stringify_ends v Hfin Hwf) as [c [s [E [Hc Hlast]]]].
  rewrite E, (trim_unchanged c s Hc Hlast), <- E.
  now rewrite (parse_stringify v Hfin Hwf).
Qed.

End JsonFacts.

Module RoundTripFacts.

Import Json.

Lemma drop_zero_signs_id (v : json) :
  no_negative_zero v = true -> drop_zero_signs v = v.
Proof.
  induction v as [|b|x|s|items IH|ms IH] using JsonFacts.json_induction;
    cbn [no_negative_zero drop_zero_signs]; intros H; try reflexivity.
  - destruct x as [[]| | |]; try reflexivity. discriminate.
  - f_equal. rewrite forallb_forall in H. rewrite Forall_forall in IH.
    rewrite <- (map_id items) at 2. apply map_ext_in. intros a Ha. apply IH; auto.
  - f_equal. rewrite forallb_forall in H. rewrite Forall_forall in IH.
    rewrite <- (map_id ms) at 2. apply map_ext_in. intros [k a] Ha.
    cbn [fst snd]. f_equal. apply (IH (k, a)); auto.
Qed.

End RoundTripFacts.

(** C10 (as stated, refuted).  The response [{"confidence": 1e999}] parses
    to a payload whose number is Infinity; serialized, that payload is
    [{"confidence":null}], which parses to a payload with [null] in place
    of the number. *)
Lemma C10_roundtrip_counterexample :
  exists payload,
    AIService.parseJSONResponse Scenarios.overflowing_response = Js.Returned payload
    /\ payload = Json.JObject [(JsString.u "confidence", Json.JNumber (S754_infinity false))]
    /\ Json.stringify payload = JsString.uq "{'confidence':null}"
    /\ AIService.parseJSONResponse (Json.stringify payload)
       = Js.Returned (Json.JObject [(JsString.u "confidence", Json.JNull)])
    /\ AIService.parseJSONResponse (Json.stringify payload) <> Js.Returned payload.
Proof.
  eexists. split; [vm_compute; reflexivity|].
  split; [reflexivity|]. split; [vm_compute; reflexivity|].
  split; [vm_compute; reflexivity|]. vm_compute. discriminate.
Qed.

(** C10 (amended).  For every response from which a payload is parsed, if
    every number of the payload is finite, then serializing the payload
    and parsing the text again gives the payload back, up to the sign of
    zero ([-0] is serialized as [0]); it gives exactly the payload when no
    number in it is [-0]. *)
Theorem C10_finite_payload_roundtrip (response : jsstring) (payload : Json.json) :
  AIService.parseJSONResponse response = Js.Returned payload ->
  Json.all_finite payload = true ->
  AIService.parseJSONResponse (Json.stringify payload)
  = Js.Returned (Json.drop_zero_signs payload)
  /\ (Json.no_negative_zero payload = true ->
      AIService.parseJSONResponse (Json.stringify payload) = Js.Returned payload).
Proof.
  intros Hparse Hfin.
  pose proof (JsonFacts.parseJSONResponse_wf _ _ Hparse) as Hwf.
  pose proof (JsonFacts.parseJSONResponse_stringify payload Hfin Hwf) as Hround.
  split; [exact Hround|].
  intros Hzero. rewrite Hround. now rewrite RoundTripFacts.drop_zero_signs_id.
Qed.

Lemma C10_finite_payload_roundtrip_witness :
  exists payload,
    AIService.parseJSONResponse Scenarios.fenced_response = Js.Returned payload
    /\ Json.all_finite payload = true
    /\ AIService.parseJSONResponse (Json.stringify payload) = Js.Returned payload.
Proof.
  eassert (Hparse : AIService.parseJSONResponse Scenarios.fenced_response = Js.Returned _)
    by (vm_compute; reflexivity).
  eexists. split; [exact Hparse|]. split; [reflexivity|].
  exact (proj2 (C10_finite_payload_roundtrip _ _ Hparse eq_refl) eq_refl).
Defined.

(* ===================================================================== *)
(** ** Further properties of the sources *)
(* ===================================================================== *)

Module DeploymentRunFacts.

Import JsString Js WordPress WordPressFacts DeploymentRun.



Lemma forallb_cut (ok : jsstring -> bool) (pre post : list jsstring) (cmd : jsstring) :
  ok cmd = false -> forallb ok (pre ++ cmd :: post) = false.
Proof.
  intros Hc. rewrite forallb_app. cbn [forallb]. rewrite Hc.
  now rewrite andb_false_r.
Qed.

Lemma steps_app (a b : list action) : steps (a ++ b) = steps a ++ steps b.
Proof. unfold steps. apply flat_map_app. Qed.

Lemma status_writes_app (a b : list action) :
  status_writes (a ++ b) = status_writes a ++ status_writes b.
Proof. unfold status_writes. apply flat_map_app. Qed.

Lemma status_writes_none (acts : list action) :
  (forall i st, ~ In (SetStatus i st) acts) -> status_writes acts = [].
Proof.
  induction acts as [|a acts IH]; intros H; [reflexivity|].
  cbn [status_writes flat_map]. destruct a as [s m|c|i st].
  - apply IH. intros i st Hin. apply (H i st). now right.
  - apply IH. intros i st Hin. apply (H i st). now right.
  - elim (H i st). now left.
Qed.

Lemma steps_progress (s m : jsstring) (acts : list action) :
  steps (Progress s m :: acts) = s :: steps acts.
Proof. reflexivity. Qed.

Lemma steps_command (c : jsstring) (acts : list action) :
  steps (Command c :: acts) = steps acts.
Proof. reflexivity. Qed.

Lemma steps_status (i : jsstring) (st : site_status) (acts : list action) :
  steps (SetStatus i st :: acts) = steps acts.
Proof. reflexivity. Qed.

Lemma steps_nil : steps [] = [].
Proof. reflexivity. Qed.





Lemma status_writes_progress (s m : jsstring) (acts : list action) :
  status_writes (Progress s m :: acts) = status_writes acts.
Proof. reflexivity. Qed.

Lemma status_writes_status (i : jsstring) (st : site_status) (acts : list action) :
  status_writes (SetStatus i st :: acts) = (i, st) :: status_writes acts.
Proof. reflexivity. Qed.

Lemma status_writes_command (c : jsstring) (acts : list action) :
  status_writes (Command c :: acts) = status_writes acts.
Proof. reflexivity. Qed.

Lemma status_writes_nil : status_writes [] = [].
Proof. reflexivity. Qed.

(** While the plugins are installed no step is reported and no status is
    written. *)
Lemma install_plugins_quiet (config : SSHConfig) (host_ : remote) (ps : list jsstring) :
  steps (fst (install_plugins config host_ ps)) = []
  /\ status_writes (fst (install_plugins config host_ ps)) = [].
Proof.
  induction ps as [|p ps IH]; [split; reflexivity|].
  cbn [install_plugins].
  destruct (executeCommand config host_ (wpPluginInstall_command p)); [|split; reflexivity].
  destruct (install_plugins config host_ ps) as [acts r]. exact IH.
Qed.

(** What the [try] block reports: steps among the three installation
    steps, then, when it completes, the status DEPLOYED and the step
    'completed'. *)
Lemma deploy_steps_events (config : SSHConfig) (host_ : remote) (siteId : jsstring)
  (d : deployment_data) :
  match deploy_steps config host_ siteId d with
  | (acts, Returned _) =>
      exists acts', acts = acts' ++ [SetStatus siteId DEPLOYED;
                                    Progress (u "completed") (u "Deployment successful!")]
                    /\ quiet acts'
  | (acts, Thrown _) => quiet acts
  end.
Proof.
  unfold deploy_steps, quiet.
  set (allowed := installation_steps).
  assert (Hstep : forall acts acts' : list action,
             incl (steps acts') allowed /\ status_writes acts' = [] ->
             acts = acts' ++ [SetStatus siteId DEPLOYED;
                              Progress (u "completed") (u "Deployment successful!")] ->
             exists acts'', acts = acts'' ++ [SetStatus siteId DEPLOYED;
                                             Progress (u "completed") (u "Deployment successful!")]
                            /\ incl (steps acts'') allowed /\ status_writes acts'' = []).
  { intros acts acts' Hi ->. now exists acts'. }
  assert (Hin1 : In (u "core_install") allowed) by now left.
  assert (Hin2 : In (u "theme_install") allowed) by (right; now left).
  assert (Hin3 : In (u "plugins_install") allowed) by (right; right; now left).
  clearbody allowed.
  destruct (executeCommand config host_ _) as [out|e].
  2:{ split; [|reflexivity]. cbn. intros x [<-|[]]. exact Hin1. }
  destruct (theme d) as [[|c th]|];
    [| destruct (executeCommand config host_ (wpThemeInstall_command (c :: th))) as [o|e] |];
    try (split; [cbn; intros x [<-|[<-|[]]]; assumption | reflexivity]);
    (destruct (plugins d) as [[|p ps]|];
     [| destruct (install_plugins_quiet config host_ (p :: ps)) as [Hs Hw];
        destruct (install_plugins config host_ (p :: ps)) as [acts [[]|e]];
        cbn [fst] in Hs, Hw |]);
    cbv beta iota zeta;
    try (eapply Hstep; [|rewrite ?app_assoc; reflexivity]);
    (split;
     [ rewrite ?steps_app, ?steps_progress, ?steps_command, ?steps_nil, ?Hs;
       intros x Hx; cbn [In app] in Hx; intuition (subst; assumption)
     | rewrite ?status_writes_app, ?status_writes_progress, ?status_writes_command,
         ?status_writes_nil, ?Hw; reflexivity ]).
Qed.

(** The two ways a deployment ends. *)
Lemma deploySite_ends (config : SSHConfig) (host_ : remote) (siteId : jsstring)
  (d : deployment_data) :
  (forallb (command_ok config host_) (planned_commands d) = true
   /\ exists acts,
        deploySite config host_ siteId d
        = (Progress (u "init") (u "Initializing deployment...") :: acts
             ++ [SetStatus siteId DEPLOYED;
                 Progress (u "completed") (u "Deployment successful!")],
           Returned tt)
        /\ commands acts = planned_commands d
        /\ quiet acts)
  \/ (forallb (command_ok config host_) (planned_commands d) = false
      /\ exists acts cmd post e,
           deploySite config host_ siteId d
           = (Progress (u "init") (u "Initializing deployment...") :: (acts ++ [Command cmd])
                ++ [Progress (u "failed") (message e); SetStatus siteId FAILED],
              Thrown e)
           /\ planned_commands d = commands acts ++ cmd :: post
           /\ forallb (command_ok config host_) (commands acts) = true
           /\ executeCommand config host_ cmd = Thrown e
           /\ quiet (acts ++ [Command cmd])).
Proof.
  pose proof (deploy_steps_spec config host_ siteId d) as Hspec.
  pose proof (deploy_steps_events config host_ siteId d) as Hev.
  unfold deploySite.
  destruct (deploy_steps config host_ siteId d) as [acts [[]|e]].
  - left. destruct Hspec as [[acts' [Ha Hc]] Hall]. destruct Hev as [acts'' [-> Hq]].
    apply app_inv_tail in Ha. subst acts''.
    split; [apply forallb_forall; exact Hall|].
    exists acts'. split; [reflexivity|]. split; assumption.
  - right. destruct Hspec as [pre [cmd [post [-> [Hp [Hx [Hall Hns]]]]]]].
    split.
    + rewrite Hp. apply forallb_cut. now apply executeCommand_thrown in Hx.
    + exists pre, cmd, post, e. cbn [deploy_failed].
      split; [reflexivity|]. split; [exact Hp|].
      split; [apply forallb_forall; exact Hall|]. split; [exact Hx | exact Hev].
Qed.

End DeploymentRunFacts.




(** X3. A deployment writes the status of its site exactly once, and of no
    other site: DEPLOYED when every planned command succeeds, FAILED
    otherwise.  Its first progress event is 'init'; its last one is
    'completed' when every command succeeds and 'failed' otherwise, and
    the events between them name installation steps only. *)
Theorem X3_deploySite_reports_once
  (config : WordPress.SSHConfig) (host_ : WordPress.remote) (siteId : jsstring)
  (d : WordPress.deployment_data) :
  let run := WordPress.deploySite config host_ siteId d in
  let all_ok := forallb (DeploymentRun.command_ok config host_) (WordPress.planned_commands d) in
  DeploymentRun.status_writes (fst run)
  = [(siteId, if all_ok then WordPress.DEPLOYED else WordPress.FAILED)]
  /\ exists middle,
       DeploymentRun.steps (fst run)
       = JsString.u "init" :: middle
           ++ [if all_ok then JsString.u "completed" else JsString.u "failed"]
       /\ incl middle DeploymentRun.installation_steps.
Proof.
  intros run all_ok. subst run all_ok.
  destruct (DeploymentRunFacts.deploySite_ends config host_ siteId d)
    as [[Hok [acts [-> [_ [Hs Hw]]]]] | [Hok [acts [cmd [post [e [-> [_ [_ [_ [Hs Hw]]]]]]]]]]];
    cbn [fst]; rewrite Hok.
  - split.
    + rewrite DeploymentRunFacts.status_writes_progress, DeploymentRunFacts.status_writes_app, Hw.
      reflexivity.
    + exists (DeploymentRun.steps acts). split; [|exact Hs].
      rewrite DeploymentRunFacts.steps_progress, DeploymentRunFacts.steps_app. reflexivity.
  - split.
    + rewrite DeploymentRunFacts.status_writes_progress, DeploymentRunFacts.status_writes_app, Hw.
      reflexivity.
    + exists (DeploymentRun.steps (acts ++ [WordPress.Command cmd])). split; [|exact Hs].
      rewrite DeploymentRunFacts.steps_progress, DeploymentRunFacts.steps_app. reflexivity.
Qed.

Module TextFacts.

Import JsString Text PromptTemplates.

Lemma lacks_app (c : N) (a b : jsstring) :
  lacks c (a ++ b) = lacks c a && lacks c b.
Proof. unfold lacks. apply forallb_app. Qed.

Lemma lacks_cons (c d : N) (s : jsstring) :
  lacks c (d :: s) = negb (d =? c)%N && lacks c s.
Proof. reflexivity. Qed.

Lemma is_prefix_self (p y : jsstring) : is_prefix p (p ++ y) = true.
Proof.
  induction p as [|c p IH]; [reflexivity|].
  cbn [app is_prefix]. now rewrite N.eqb_refl, IH.
Qed.

Lemma skipn_self (p y : jsstring) : skipn (List.length p) (p ++ y) = y.
Proof. induction p as [|c p IH]; [reflexivity | exact IH]. Qed.

Lemma find_unfold (p s : jsstring) :
  find p s
  = if is_prefix p s then Some ([], skipn (List.length p) s)
    else match s with
         | [] => None
         | c :: s' =>
             match find p s' with
             | Some (before, after) => Some (c :: before, after)
             | None => None
             end
         end.
Proof. destruct s; reflexivity. Qed.

(** The leftmost occurrence of [p] in [x ++ p ++ y] is the one
    displayed, when no occurrence starts inside [x]. *)
Lemma find_first (p x y : jsstring) :
  (forall x1 c x2, x = x1 ++ c :: x2 -> is_prefix p (c :: x2 ++ p ++ y) = false) ->
  find p (x ++ p ++ y) = Some (x, y).
Proof.
  induction x as [|c x IH]; intros H.
  - cbn [app]. rewrite find_unfold, is_prefix_self, skipn_self. reflexivity.
  - cbn [app]. rewrite find_unfold.
    rewrite (H [] c x eq_refl).
    rewrite IH; [reflexivity|].
    intros x1 c' x2 ->. apply (H (c :: x1) c' x2). reflexivity.
Qed.

(** No occurrence of [p] starts inside a text that lacks the first code
    unit of [p]. *)
Lemma find_past (c0 : N) (p' x y : jsstring) :
  lacks c0 x = true ->
  find (c0 :: p') (x ++ (c0 :: p') ++ y) = Some (x, y).
Proof.
  intros Hx. apply find_first. intros x1 c x2 ->.
  rewrite lacks_app, lacks_cons in Hx.
  apply andb_prop in Hx as [_ Hx]. apply andb_prop in Hx as [Hc _].
  cbn [is_prefix]. apply negb_true_iff in Hc.
  rewrite N.eqb_sym, Hc. reflexivity.
Qed.

(** ... nor inside a text that lacks the second code unit of [p], when
    the first two differ. *)
Lemma find_past_second (c0 c1 : N) (p' x y : jsstring) :
  c0 <> c1 -> lacks c1 x = true ->
  find (c0 :: c1 :: p') (x ++ (c0 :: c1 :: p') ++ y) = Some (x, y).
Proof.
  intros Hne Hx. apply find_first. intros x1 c x2 ->.
  rewrite lacks_app, lacks_cons in Hx.
  apply andb_prop in Hx as [_ Hx]. apply andb_prop in Hx as [_ Hx].
  cbn [is_prefix]. destruct (c0 =? c)%N; [|reflexivity]. cbn [andb].
  destruct x2 as [|d x2]; cbn [app is_prefix].
  - apply N.eqb_neq in Hne. rewrite N.eqb_sym, Hne. reflexivity.
  - rewrite lacks_cons in Hx. apply andb_prop in Hx as [Hd _].
    apply negb_true_iff in Hd. rewrite N.eqb_sym, Hd. reflexivity.
Qed.

Lemma find_none_here (p s : jsstring) : find p s = None -> is_prefix p s = false.
Proof.
  rewrite find_unfold. destruct (is_prefix p s); [discriminate | reflexivity].
Qed.

Lemma find_none_tail (p : jsstring) (c : N) (s : jsstring) :
  find p (c :: s) = None -> find p s = None.
Proof.
  rewrite find_unfold. destruct (is_prefix p (c :: s)); [discriminate|].
  destruct (find p s) as [[b a]|]; [discriminate | reflexivity].
Qed.

(** A text that lacks the first code unit of [p] has no occurrence of
    [p]. *)
Lemma find_lacking (c0 : N) (p' s : jsstring) :
  lacks c0 s = true -> find (c0 :: p') s = None.
Proof.
  induction s as [|c s IH]; intros H; [reflexivity|].
  rewrite lacks_cons in H. apply andb_prop in H as [Hc Hs].
  rewrite find_unfold. cbn [is_prefix]. apply negb_true_iff in Hc.
  rewrite N.eqb_sym, Hc. cbn [andb]. now rewrite IH.
Qed.

(** *** Replacement *)

Lemma expand_plain (r : jsstring) : lacks dollar r = true -> expands_to r r.
Proof.
  intros H m b a. induction r as [|c r IH]; [reflexivity|].
  rewrite lacks_cons in H. apply andb_prop in H as [Hc Hr].
  apply negb_true_iff in Hc. unfold dollar in Hc.
  cbn [expand]. rewrite Hc. now rewrite IH.
Qed.

Lemma expand_app_plain (a r v : jsstring) :
  lacks dollar a = true -> expands_to r v -> expands_to (a ++ r) (a ++ v).
Proof.
  intros H Hr m b af. induction a as [|c a IH]; [apply Hr|].
  rewrite lacks_cons in H. apply andb_prop in H as [Hc Ha].
  apply negb_true_iff in Hc. unfold dollar in Hc.
  cbn [app expand]. rewrite Hc. now rewrite IH.
Qed.

Lemma expand_dollars (a b : jsstring) :
  lacks dollar a = true -> lacks dollar b = true ->
  expands_to (a ++ u "$$" ++ b) (a ++ u "$" ++ b).
Proof.
  intros Ha Hb. apply expand_app_plain; [exact Ha|].
  intros m bf af. change (u "$$" ++ b) with (36%N :: 36%N :: b).
  cbn [expand]. rewrite !N.eqb_refl.
  now rewrite (expand_plain b Hb).
Qed.

Lemma replace_from_cons_skip (p r : jsstring) (k : nat) (b : jsstring) (c : N) (s : jsstring) :
  replace_all_from p r (S k) b (c :: s) = replace_all_from p r k (c :: b) s.
Proof. reflexivity. Qed.

Lemma replace_from_cons (p r b : jsstring) (c : N) (s : jsstring) :
  replace_all_from p r 0 b (c :: s)
  = if is_prefix p (c :: s)
    then expand r p (rev b) (skipn (List.length p) (c :: s))
           ++ replace_all_from p r (List.length p - 1) (c :: b) s
    else c :: replace_all_from p r 0 (c :: b) s.
Proof. reflexivity. Qed.

(** With a replacement text that stands for one text, the text already
    passed does not matter. *)
Lemma replace_from_before (p r v : jsstring) :
  expands_to r v ->
  forall s k b b', replace_all_from p r k b s = replace_all_from p r k b' s.
Proof.
  intros Hr. induction s as [|c s IH]; intros k b b'; [reflexivity|].
  destruct k as [|k].
  - rewrite !replace_from_cons. destruct (is_prefix p (c :: s)).
    + rewrite !Hr. f_equal. apply IH.
    + f_equal. apply IH.
  - rewrite !replace_from_cons_skip. apply IH.
Qed.

Lemma replace_from_skip (p r v : jsstring) :
  expands_to r v ->
  forall k s b, (k <= List.length s)%nat ->
                replace_all_from p r k b s = replace_all_from p r 0 [] (skipn k s).
Proof.
  intros Hr. induction k as [|k IH]; intros s b Hk.
  - cbn [skipn]. now apply (replace_from_before p r v).
  - destruct s as [|c s]; [cbn in Hk; lia|].
    rewrite replace_from_cons_skip. cbn [skipn]. apply IH. cbn in Hk. lia.
Qed.

Lemma replace_none (p r : jsstring) :
  forall s b, find p s = None -> replace_all_from p r 0 b s = s.
Proof.
  induction s as [|c s IH]; intros b H; [reflexivity|].
  rewrite replace_from_cons, (find_none_here _ _ H).
  f_equal. apply IH. now apply find_none_tail in H.
Qed.

Lemma is_prefix_length (p s : jsstring) :
  is_prefix p s = true -> (List.length p <= List.length s)%nat.
Proof.
  revert s. induction p as [|a p IH]; intros [|c s]; cbn [is_prefix List.length];
    try discriminate; try lia.
  intros H. apply andb_prop in H as [_ H]. apply IH in H. lia.
Qed.

Lemma replace_some (p r v : jsstring) :
  p <> [] -> expands_to r v ->
  forall s x y b,
    find p s = Some (x, y) ->
    replace_all_from p r 0 b s = x ++ v ++ replace_all_from p r 0 [] y.
Proof.
  intros Hp Hr. induction s as [|c s IH]; intros x y b H.
  - rewrite find_unfold in H. destruct p as [|a p]; [now elim Hp | discriminate].
  - rewrite find_unfold in H. rewrite replace_from_cons.
    destruct (is_prefix p (c :: s)) eqn:E.
    + injection H as <- <-. rewrite Hr. cbn [app]. do 1 f_equal.
      destruct p as [|a p]; [now elim Hp|].
      apply is_prefix_length in E. cbn [List.length] in E.
      replace (List.length (a :: p) - 1)%nat with (List.length p) by (cbn; lia).
      cbn [List.length skipn].
      apply (replace_from_skip _ _ v Hr). lia.
    + destruct (find p s) as [[x' y']|] eqn:F; [|discriminate].
      injection H as <- <-. cbn [app]. f_equal. now apply IH.
Qed.

Lemma find_shorter (p s x y : jsstring) :
  p <> [] -> find p s = Some (x, y) -> (List.length y < List.length s)%nat.
Proof.
  intros Hp H. apply ExtractionFacts.find_app in H. subst s.
  rewrite !length_app. destruct p; [now elim Hp | cbn; lia].
Qed.

(** [replace] with a replacement text that stands for [v] is the literal
    replacement by [v]. *)
Lemma replace_all_splice (p r v : jsstring) :
  p <> [] -> expands_to r v -> forall s, replace_all p r s = splice p v s.
Proof.
  intros Hp Hr s. unfold replace_all, splice.
  assert (H : forall fuel s, (List.length s < fuel)%nat ->
                             replace_all_from p r 0 [] s = splice_fuel fuel p v s).
  { induction fuel as [|fuel IH]; intros s' Hs; [lia|].
    cbn [splice_fuel]. destruct (find p s') as [[x y]|] eqn:F.
    - rewrite (replace_some p r v Hp Hr _ _ _ _ F). do 2 f_equal.
      apply IH. pose proof (find_shorter _ _ _ _ Hp F). lia.
    - now apply replace_none. }
  apply H. lia.
Qed.

Lemma splice_none (p v s : jsstring) : find p s = None -> splice p v s = s.
Proof. unfold splice. cbn [splice_fuel]. now intros ->. Qed.

Lemma splice_fuel_enough (p v : jsstring) :
  p <> [] ->
  forall fuel fuel' s,
    (List.length s < fuel)%nat -> (List.length s < fuel')%nat ->
    splice_fuel fuel p v s = splice_fuel fuel' p v s.
Proof.
  intros Hp. induction fuel as [|fuel IH]; intros fuel' s H H'; [lia|].
  destruct fuel' as [|fuel']; [lia|]. cbn [splice_fuel].
  destruct (find p s) as [[x y]|] eqn:F; [|reflexivity].
  do 2 f_equal. pose proof (find_shorter _ _ _ _ Hp F). apply IH; lia.
Qed.

Lemma splice_some (p v s x y : jsstring) :
  p <> [] -> find p s = Some (x, y) -> splice p v s = x ++ v ++ splice p v y.
Proof.
  intros Hp F. unfold splice at 1. cbn [splice_fuel]. rewrite F. do 2 f_equal.
  pose proof (find_shorter _ _ _ _ Hp F).
  apply splice_fuel_enough; [exact Hp | lia | lia].
Qed.

Lemma placeholder_cons (key : string) :
  exists p', placeholder key = brace :: brace :: p'.
Proof. unfold placeholder. eexists. reflexivity. Qed.

Lemma placeholder_nonempty (key : string) : placeholder key <> [].
Proof. destruct (placeholder_cons key) as [p' ->]. discriminate. Qed.

(** The replacement text ["$&"] puts the matched text back. *)
Lemma replace_matched (p : jsstring) :
  p <> [] ->
  forall s k b, replace_all_from p (u "$&") k b s = skipn k s.
Proof.
  intros Hp. induction s as [|c s IH]; intros k b.
  - now destruct k.
  - destruct k as [|k].
    + rewrite replace_from_cons. destruct (is_prefix p (c :: s)) eqn:E.
      * change (expand (u "$&") p (rev b) (skipn (List.length p) (c :: s))) with (p ++ []).
        rewrite app_nil_r, IH. cbn [skipn].
        etransitivity; [|symmetry; apply (ExtractionFacts.is_prefix_app _ _ E)].
        destruct p as [|a p]; [now elim Hp|].
        replace (List.length (a :: p) - 1)%nat with (List.length p) by (cbn; lia).
        reflexivity.
      * now rewrite IH.
    + rewrite replace_from_cons_skip. apply IH.
Qed.

(** *** [substituteVariables] *)

Lemma substitute_nil (template : jsstring) : substituteVariables template [] = template.
Proof. reflexivity. Qed.

Lemma substitute_cons (template : jsstring) (key : string) (v : jsstring)
  (variables : list (string * jsstring)) :
  substituteVariables template ((key, v) :: variables)
  = substituteVariables (replace_all (placeholder key) v template) variables.
Proof. reflexivity. Qed.

(** One placeholder, standing once in a text whose part before it has no
    brace, replaced by a value without dollar sign. *)
Lemma replace_once (key : string) (x y v : jsstring) :
  lacks brace x = true -> lacks dollar v = true ->
  find (placeholder key) y = None ->
  replace_all (placeholder key) v (x ++ placeholder key ++ y) = x ++ v ++ y.
Proof.
  intros Hx Hv Hy.
  rewrite (replace_all_splice _ v v (placeholder_nonempty key) (expand_plain v Hv)).
  rewrite (splice_some _ v _ x y (placeholder_nonempty key)).
  - now rewrite (splice_none _ _ _ Hy).
  - destruct (placeholder_cons key) as [p' ->]. now apply find_past.
Qed.

(** Three placeholders, each standing once and in this order, replaced
    in this order by values of which none brings a dollar sign and none
    but the last a brace. *)
Lemma substitute_three (k1 k2 k3 : string) (a b c e v1 v2 v3 : jsstring) :
  lacks brace a = true -> lacks brace b = true -> lacks brace c = true ->
  find (placeholder k1) (b ++ placeholder k2 ++ c ++ placeholder k3 ++ e) = None ->
  find (placeholder k2) (c ++ placeholder k3 ++ e) = None ->
  find (placeholder k3) e = None ->
  lacks dollar v1 = true -> lacks brace v1 = true ->
  lacks dollar v2 = true -> lacks brace v2 = true ->
  lacks dollar v3 = true ->
  substituteVariables
    (a ++ placeholder k1 ++ b ++ placeholder k2 ++ c ++ placeholder k3 ++ e)
    [(k1, v1); (k2, v2); (k3, v3)]
  = a ++ v1 ++ b ++ v2 ++ c ++ v3 ++ e.
Proof.
  intros Ha Hb Hc F1 F2 F3 D1 B1 D2 B2 D3.
  rewrite !substitute_cons, substitute_nil.
  rewrite (replace_once k1 a _ v1 Ha D1 F1).
  replace (a ++ v1 ++ b ++ placeholder k2 ++ c ++ placeholder k3 ++ e)
    with ((a ++ v1 ++ b) ++ placeholder k2 ++ c ++ placeholder k3 ++ e)
    by now rewrite <- !app_assoc.
  rewrite (replace_once k2 _ _ v2); [| now rewrite !lacks_app, Ha, B1, Hb | exact D2 | exact F2].
  replace ((a ++ v1 ++ b) ++ v2 ++ c ++ placeholder k3 ++ e)
    with ((a ++ v1 ++ b ++ v2 ++ c) ++ placeholder k3 ++ e)
    by now rewrite <- !app_assoc.
  rewrite (replace_once k3 _ _ v3); [| now rewrite !lacks_app, Ha, B1, Hb, B2, Hc | exact D3 | exact F3].
  now rewrite <- !app_assoc.
Qed.

(** The text before the first brace of a template stays where it is. *)
Lemma replace_from_past (c0 : N) (p' r x : jsstring) :
  lacks c0 x = true ->
  forall b s,
    replace_all_from (c0 :: p') r 0 b (x ++ s)
    = x ++ replace_all_from (c0 :: p') r 0 (rev x ++ b) s.
Proof.
  induction x as [|c x IH]; intros Hx b s; [reflexivity|].
  rewrite lacks_cons in Hx. apply andb_prop in Hx as [Hc Hx].
  apply negb_true_iff in Hc.
  cbn [app]. rewrite replace_from_cons. cbn [is_prefix].
  rewrite N.eqb_sym, Hc. cbn [andb]. f_equal.
  rewrite (IH Hx). cbn [rev]. now rewrite <- app_assoc.
Qed.

Lemma substitute_keeps_head (x : jsstring) (variables : list (string * jsstring)) :
  lacks brace x = true ->
  forall s, exists s', substituteVariables (x ++ s) variables = x ++ s'.
Proof.
  intros Hx. induction variables as [|[key v] variables IH]; intros s.
  - now exists s.
  - rewrite substitute_cons. unfold replace_all.
    destruct (placeholder_cons key) as [p' ->].
    rewrite (replace_from_past _ _ _ _ Hx). apply IH.
Qed.

Lemma is_prefix_app_r (p s rest : jsstring) :
  is_prefix p s = true -> is_prefix p (s ++ rest) = true.
Proof.
  revert s. induction p as [|a p IH]; intros [|c s]; cbn [is_prefix app];
    try discriminate; try reflexivity.
  intros H. apply andb_prop in H as [-> H]. now rewrite (IH _ H).
Qed.

Lemma includes_app_r (s rest w : jsstring) :
  includes s w = true -> includes (s ++ rest) w = true.
Proof.
  unfold includes. induction s as [|c s IH]; rewrite find_unfold.
  - destruct (is_prefix w []) eqn:E; [|discriminate].
    intros _. rewrite find_unfold, (is_prefix_app_r _ _ rest E). reflexivity.
  - destruct (is_prefix w (c :: s)) eqn:E.
    + intros _. rewrite find_unfold, (is_prefix_app_r _ _ rest E). reflexivity.
    + intros H. cbn [app]. rewrite find_unfold.
      destruct (is_prefix w (c :: s ++ rest)); [reflexivity|].
      destruct (find w s) as [[x y]|]; [|discriminate].
      specialize (IH eq_refl). now destruct (find w (s ++ rest)) as [[x' y']|].
Qed.

(** *** White space around a text *)

Lemma trim_start_blank (l x : jsstring) :
  blank l = true -> trim_start (l ++ x) = trim_start x.
Proof.
  induction l as [|c l IH]; intros H; [reflexivity|].
  cbn [blank forallb] in H. apply andb_prop in H as [Hc Hl].
  cbn [app trim_start]. rewrite Hc. now apply IH.
Qed.

Lemma trim_start_all_blank (l : jsstring) : blank l = true -> trim_start l = [].
Proof.
  intros H. rewrite <- (app_nil_r l). now rewrite trim_start_blank.
Qed.

Lemma blank_rev (r : jsstring) : blank r = true -> blank (rev r) = true.
Proof.
  unfold blank. rewrite !forallb_forall. intros H x Hx. apply H. now apply in_rev.
Qed.

Lemma trim_end_blank (x r : jsstring) :
  blank r = true -> trim_end (x ++ r) = trim_end x.
Proof.
  intros H. unfold trim_end. rewrite rev_app_distr.
  now rewrite (trim_start_blank _ _ (blank_rev _ H)).
Qed.

Lemma trim_padded (l s r : jsstring) :
  blank l = true -> blank r = true -> trim (l ++ s ++ r) = trim s.
Proof.
  intros Hl Hr. unfold trim. rewrite (trim_start_blank _ _ Hl).
  destruct (JsStringFacts.trim_start_split s) as [l' [Hs Hl']].
  pose proof (JsStringFacts.trim_start_head s) as Hh.
  destruct (trim_start s) as [|c t] eqn:E.
  - rewrite app_nil_r in Hs. rewrite Hs.
    rewrite trim_start_all_blank; [reflexivity|].
    unfold blank in *. now rewrite forallb_app, Hl', Hr.
  - rewrite Hs at 1. rewrite <- app_assoc, (trim_start_blank _ _ Hl').
    cbn [app trim_start]. rewrite Hh.
    change (c :: t ++ r) with ((c :: t) ++ r). now apply trim_end_blank.
Qed.

Lemma blank_lacks_backtick (l : jsstring) : blank l = true -> lacks backtick l = true.
Proof.
  unfold blank, lacks. rewrite !forallb_forall. intros H x Hx.
  specialize (H x Hx). apply negb_true_iff. apply N.eqb_neq. intros ->.
  discriminate.
Qed.

Lemma jsonMatch_lacking (s : jsstring) :
  lacks backtick s = true -> AIService.jsonMatch s = None.
Proof.
  intros H. unfold AIService.jsonMatch, AIService.match_fence.
  change (u "```json" ++ [10%N]) with (backtick :: u "``json" ++ [10%N]).
  change (u "```" ++ [10%N]) with (backtick :: u "``" ++ [10%N]).
  now rewrite !(find_lacking _ _ _ H).
Qed.

End TextFacts.

(** X4. A payload inside a [```json] fence is extracted whatever text
    surrounds the fence: when neither the text before the fence nor the
    block holds a backtick, the result is the block, trimmed and parsed, or
    the malformed-response error when the block is not JSON. *)
Theorem X4_fenced_payload_is_extracted (pre body post : jsstring) :
  Text.lacks Text.backtick pre = true ->
  Text.lacks Text.backtick body = true ->
  AIService.parseJSONResponse
    (pre ++ (JsString.u "```json" ++ [10%N]) ++ body ++ AIService.fence_closing ++ post)
  = match Json.parse (JsString.trim body) with
    | Some payload => Js.Returned payload
    | None => Js.Thrown AIService.invalid_json_error
    end.
Proof.
  intros Hpre Hbody.
  unfold AIService.parseJSONResponse, AIService.jsonMatch, AIService.match_fence.
  change (JsString.u "```json" ++ [10%N])
    with (Text.backtick :: JsString.u "``json" ++ [10%N]).
  rewrite (TextFacts.find_past _ _ _ _ Hpre).
  change AIService.fence_closing with (10%N :: Text.backtick :: JsString.u "``").
  rewrite TextFacts.find_past_second; [reflexivity | discriminate | exact Hbody].
Qed.

Lemma X4_fenced_payload_is_extracted_witness :
  Text.lacks Text.backtick (JsString.u "Here is the plan:" ++ [10%N]) = true
  /\ Text.lacks Text.backtick (JsString.uq "{'confidence': 0.85}") = true
  /\ AIService.parseJSONResponse
       ((JsString.u "Here is the plan:" ++ [10%N]) ++ (JsString.u "```json" ++ [10%N])
          ++ JsString.uq "{'confidence': 0.85}" ++ AIService.fence_closing
          ++ JsString.u " Anything else?")
     = Js.Returned (Json.JObject [(JsString.u "confidence",
                                    Json.JNumber (JsNumber.of_decimal false 85 (-2)))]).
Proof.
  split; [reflexivity|]. split; [reflexivity|].
  rewrite (X4_fenced_payload_is_extracted
             (JsString.u "Here is the plan:" ++ [10%N]) (JsString.uq "{'confidence': 0.85}")
             (JsString.u " Anything else?") eq_refl eq_refl).
  vm_compute. reflexivity.
Defined.

(** X5. White space around a response makes no difference, including the
    white space that [JSON.parse] itself does not accept (a no-break
    space, a byte order mark): a response without backticks, padded with
    white space on both sides, gives what the response gives. *)
Theorem X5_surrounding_space_is_ignored (l response r : jsstring) :
  Text.blank l = true -> Text.blank r = true ->
  Text.lacks Text.backtick response = true ->
  AIService.parseJSONResponse (l ++ response ++ r) = AIService.parseJSONResponse response.
Proof.
  intros Hl Hr Hs. unfold AIService.parseJSONResponse.
  rewrite (TextFacts.jsonMatch_lacking response Hs).
  rewrite TextFacts.jsonMatch_lacking.
  - now rewrite TextFacts.trim_padded.
  - rewrite !TextFacts.lacks_app, Hs.
    now rewrite (TextFacts.blank_lacks_backtick _ Hl), (TextFacts.blank_lacks_backtick _ Hr).
Qed.

Lemma X5_surrounding_space_is_ignored_witness :
  Text.blank [65279%N; 160%N] = true
  /\ Text.blank [10%N; 8232%N] = true
  /\ Text.lacks Text.backtick (JsString.uq "{'confidence': 0.85}") = true
  /\ AIService.parseJSONResponse
       ([65279%N; 160%N] ++ JsString.uq "{'confidence': 0.85}" ++ [10%N; 8232%N])
     = Js.Returned (Json.JObject [(JsString.u "confidence",
                                    Json.JNumber (JsNumber.of_decimal false 85 (-2)))]).
Proof.
  split; [reflexivity|]. split; [reflexivity|]. split; [reflexivity|].
  rewrite (X5_surrounding_space_is_ignored
             [65279%N; 160%N] (JsString.uq "{'confidence': 0.85}") [10%N; 8232%N]
             eq_refl eq_refl eq_refl).
  vm_compute. reflexivity.
Defined.

(** X6. The prompt of the planning agent is the planning template in which
    each of the three placeholders stands once, with the business name, the
    business type and the description in their places, character for
    character, when none of them holds a dollar sign and neither the name
    nor the type holds a brace. *)
Theorem X6_planning_prompt_holds_fields_verbatim (name type description : jsstring) :
  Text.lacks Text.dollar name && Text.lacks Text.brace name = true ->
  Text.lacks Text.dollar type && Text.lacks Text.brace type = true ->
  Text.lacks Text.dollar description = true ->
  exists a b c e,
    PromptTemplates.PLANNING_AGENT_PROMPT
    = a ++ Text.placeholder "businessName" ++ b ++ Text.placeholder "businessType"
        ++ c ++ Text.placeholder "description" ++ e
    /\ Text.lacks Text.brace (a ++ b ++ c) = true
    /\ PromptTemplates.substituteVariables PromptTemplates.PLANNING_AGENT_PROMPT
         [("businessName"%string, name); ("businessType"%string, type);
          ("description"%string, description)]
       = a ++ name ++ b ++ type ++ c ++ description ++ e.
Proof.
  intros Hn Ht Hd.
  apply andb_prop in Hn as [Dn Bn]. apply andb_prop in Ht as [Dt Bt].
  destruct (JsString.find (Text.placeholder "businessName")
              PromptTemplates.PLANNING_AGENT_PROMPT) as [[a r1]|] eqn:F1;
    [|vm_compute in F1; discriminate].
  destruct (JsString.find (Text.placeholder "businessType") r1) as [[b r2]|] eqn:F2;
    [|vm_compute in F1; injection F1 as <- <-; vm_compute in F2; discriminate].
  destruct (JsString.find (Text.placeholder "description") r2) as [[c e]|] eqn:F3;
    [|vm_compute in F1; injection F1 as <- <-; vm_compute in F2; injection F2 as <- <-;
      vm_compute in F3; discriminate].
  exists a, b, c, e.
  assert (HT : PromptTemplates.PLANNING_AGENT_PROMPT
               = a ++ Text.placeholder "businessName" ++ b ++ Text.placeholder "businessType"
                   ++ c ++ Text.placeholder "description" ++ e).
  { apply ExtractionFacts.find_app in F1, F2, F3. now rewrite F1, F2, F3. }
  split; [exact HT|]. rewrite HT.
  vm_compute in F1. injection F1 as <- <-.
  vm_compute in F2. injection F2 as <- <-.
  vm_compute in F3. injection F3 as <- <-.
  split; [vm_compute; reflexivity|].
  apply TextFacts.substitute_three; try assumption; vm_compute; reflexivity.
Qed.

Lemma X6_planning_prompt_holds_fields_verbatim_witness :
  Text.lacks Text.dollar (Agents.businessName Scenarios.joes_pizza)
  && Text.lacks Text.brace (Agents.businessName Scenarios.joes_pizza) = true
  /\ Text.lacks Text.dollar (Agents.businessType Scenarios.joes_pizza)
     && Text.lacks Text.brace (Agents.businessType Scenarios.joes_pizza) = true
  /\ Text.lacks Text.dollar (Agents.description Scenarios.joes_pizza) = true
  /\ exists a b c e,
       PromptTemplates.PLANNING_AGENT_PROMPT
       = a ++ Text.placeholder "businessName" ++ b ++ Text.placeholder "businessType"
           ++ c ++ Text.placeholder "description" ++ e
       /\ Text.lacks Text.brace (a ++ b ++ c) = true
       /\ PromptTemplates.substituteVariables PromptTemplates.PLANNING_AGENT_PROMPT
            [("businessName"%string, Agents.businessName Scenarios.joes_pizza);
             ("businessType"%string, Agents.businessType Scenarios.joes_pizza);
             ("description"%string, Agents.description Scenarios.joes_pizza)]
          = a ++ Agents.businessName Scenarios.joes_pizza ++ b
              ++ Agents.businessType Scenarios.joes_pizza ++ c
              ++ Agents.description Scenarios.joes_pizza ++ e.
Proof.
  split; [reflexivity|]. split; [reflexivity|]. split; [reflexivity|].
  exact (X6_planning_prompt_holds_fields_verbatim
           (Agents.businessName Scenarios.joes_pizza)
           (Agents.businessType Scenarios.joes_pizza)
           (Agents.description Scenarios.joes_pizza) eq_refl eq_refl eq_refl).
Defined.

(** X7. Values without a dollar sign are inserted as they are:
    substituting them is replacing, for each variable in turn, the
    occurrences of its placeholder, found from left to right, by the
    value.  (The keys are plain names, as all keys of the agents are.) *)
Theorem X7_values_without_dollar_are_literal
  (template : jsstring) (variables : list (string * jsstring)) :
  forallb (fun kv => Text.identifier (fst kv)) variables = true ->
  forallb (fun kv => Text.lacks Text.dollar (snd kv)) variables = true ->
  PromptTemplates.substituteVariables template variables
  = fold_left (fun result kv => Text.splice (Text.placeholder (fst kv)) (snd kv) result)
      variables template.
Proof.
  intros _. revert template.
  induction variables as [|[key v] variables IH]; intros template H; [reflexivity|].
  cbn [forallb snd] in H. apply andb_prop in H as [Hv H].
  rewrite TextFacts.substitute_cons. cbn [fold_left fst snd].
  rewrite (TextFacts.replace_all_splice _ v v (TextFacts.placeholder_nonempty key)
             (TextFacts.expand_plain v Hv)).
  now apply IH.
Qed.

Lemma X7_values_without_dollar_are_literal_witness :
  forallb (fun kv => Text.identifier (fst kv))
    [("who"%string, JsString.u "Joe"); ("what"%string, JsString.u "{{who}}")] = true
  /\ forallb (fun kv => Text.lacks Text.dollar (snd kv))
       [("who"%string, JsString.u "Joe"); ("what"%string, JsString.u "{{who}}")] = true
  /\ PromptTemplates.substituteVariables (JsString.u "{{what}} by {{who}}, for {{who}}")
       [("who"%string, JsString.u "Joe"); ("what"%string, JsString.u "{{who}}")]
     = JsString.u "{{who}} by Joe, for Joe".
Proof.
  split; [reflexivity|]. split; [reflexivity|].
  rewrite (X7_values_without_dollar_are_literal
             (JsString.u "{{what}} by {{who}}, for {{who}}")
             [("who"%string, JsString.u "Joe"); ("what"%string, JsString.u "{{who}}")]
             eq_refl eq_refl).
  vm_compute. reflexivity.
Defined.

(** X8. A dollar sign in a value is read as a replacement pattern: the
    value [$&] puts every placeholder back, so that the template is
    unchanged, and the value [$$] is inserted as a single dollar sign. *)
Theorem X8_dollar_patterns_in_values (template : jsstring) (key : string) :
  Text.identifier key = true ->
  PromptTemplates.substituteVariables template [(key, JsString.u "$&")] = template
  /\ PromptTemplates.substituteVariables template [(key, JsString.u "$$")]
     = Text.splice (Text.placeholder key) (JsString.u "$") template.
Proof.
  intros _. rewrite !TextFacts.substitute_cons, !TextFacts.substitute_nil. split.
  - unfold PromptTemplates.replace_all.
    now rewrite (TextFacts.replace_matched _ (TextFacts.placeholder_nonempty key)).
  - apply (TextFacts.replace_all_splice _ _ _ (TextFacts.placeholder_nonempty key)).
    exact (TextFacts.expand_dollars [] [] eq_refl eq_refl).
Qed.

Lemma X8_dollar_patterns_in_values_witness :
  Text.identifier "businessName" = true
  /\ PromptTemplates.substituteVariables (JsString.u "Business: {{businessName}}")
       [("businessName"%string, JsString.u "$&")]
     = JsString.u "Business: {{businessName}}"
  /\ PromptTemplates.substituteVariables (JsString.u "Business: {{businessName}}")
       [("businessName"%string, JsString.u "$$")]
     = JsString.u "Business: $".
Proof.
  split; [reflexivity|].
  destruct (X8_dollar_patterns_in_values (JsString.u "Business: {{businessName}}")
              "businessName" eq_refl) as [H1 H2].
  split; [exact H1|]. rewrite H2. vm_compute. reflexivity.
Defined.

Module PromptFacts.

Import JsString Json Js Agents Prompts AgentFacts.

Lemma get_member (data : json) (key : string) :
  data <> JNull -> get data key = Returned (member data key).
Proof. intros H. destruct data; try reflexivity. now elim H. Qed.



(** The planning agent succeeds with what it reads from the payload, or
    fails with the message of the error. *)
Lemma planning_execute (ai : AIService.t) (input : AgentInput) :
  PlanningAgent.execute ai input
  = Returned match answer ai (planning input) planning_system with
             | inl payload => planning_output payload
             | inr msg => failed_output msg
             end.
Proof.
  unfold PlanningAgent.execute, answer, planning, planning_system.
  set (prompt := PromptTemplates.substituteVariables _ _). clearbody prompt.
  set (system := u _). clearbody system.
  change (@Some JsString.t system) with (@Some jsstring system).
  destruct (AIService.generateCompletion ai prompt (@Some jsstring system)) as [text|e];
    [|reflexivity].
  cbn [bind]. destruct (AIService.parseJSONResponse text) as [p|e]; [|reflexivity].
  destruct p; reflexivity.
Qed.

Lemma design_execute (ai : AIService.t) (input : AgentInput) :
  DesignAgent.execute ai input
  = Returned match answer ai (design input) design_system with
             | inl payload => design_output payload
             | inr msg => failed_output msg
             end.
Proof.
  unfold DesignAgent.execute, answer, design, design_system.
  set (prompt := PromptTemplates.substituteVariables _ _). clearbody prompt.
  set (system := u _). clearbody system.
  change (@Some JsString.t system) with (@Some jsstring system).
  destruct (AIService.generateCompletion ai prompt (@Some jsstring system)) as [text|e];
    [|reflexivity].
  cbn [bind]. destruct (AIService.parseJSONResponse text) as [p|e]; [|reflexivity].
  destruct p; reflexivity.
Qed.

Lemma content_execute (ai : AIService.t) (input : AgentInput) (pages : value) :
  ContentAgent.execute ai input pages
  = Returned match ContentAgent.pages_summary pages with
             | Thrown e => failed_output (message e)
             | Returned summary =>
                 match answer ai (content input summary) content_system with
                 | inl payload => content_output payload
                 | inr msg => failed_output msg
                 end
             end.
Proof.
  unfold ContentAgent.execute, answer.
  destruct (ContentAgent.pages_summary pages) as [summary|e]; [|reflexivity].
  cbn [bind]. unfold content, content_system.
  set (prompt := PromptTemplates.substituteVariables _ _). clearbody prompt.
  set (system := u _). clearbody system.
  change (@Some JsString.t system) with (@Some jsstring system).
  destruct (AIService.generateCompletion ai prompt (@Some jsstring system)) as [text|e];
    [|reflexivity].
  cbn [bind]. destruct (AIService.parseJSONResponse text) as [p|e]; [|reflexivity].
  destruct p; reflexivity.
Qed.

Lemma orchestrate_make (ai : AIService.t) (input : AgentInput) :
  Orchestrator.orchestrate (Orchestrator.make ai) input
  = match answer ai (planning input) planning_system with
    | inr msg =>
        ([Orchestrator.progress_planning; Orchestrator.Invoked Orchestrator.Planning],
         {| Orchestrator.success := false;
            Orchestrator.siteArchitecture := None;
            Orchestrator.content := None;
            Orchestrator.design := None;
            Orchestrator.overallConfidence := JsNumber.zero;
            Orchestrator.errors := [msg] |})
    | inl payload =>
        let dr := agent_result (answer ai (design input) design_system) design_output in
        let cr := content_result ai input (member payload "pages") in
        (full_trace,
         {| Orchestrator.success := success dr && success cr;
            Orchestrator.siteArchitecture := Some (data (planning_output payload));
            Orchestrator.content := Some (data cr);
            Orchestrator.design := Some (data dr);
            Orchestrator.overallConfidence :=
              Orchestrator.average
                ([confidence (planning_output payload)]
                   ++ (if success dr then [confidence dr] else [])
                   ++ (if success cr then [confidence cr] else []));
            Orchestrator.errors := failure_messages dr ++ failure_messages cr |})
    end.
Proof.
  unfold Orchestrator.orchestrate, Orchestrator.make.
  cbn [Orchestrator.planningAgent Orchestrator.designAgent Orchestrator.contentAgent].
  rewrite planning_execute, design_execute.
  destruct (answer ai (planning input) planning_system) as [payload|msg]; [|reflexivity].
  cbn [success planning_output negb data Orchestrator.data_pages].
  rewrite content_execute. unfold content_result.
  destruct (answer ai (design input) design_system) as [q|m];
    (destruct (ContentAgent.pages_summary (member payload "pages")) as [summary|e];
     [destruct (answer ai (content input summary) content_system) as [c|m'] |]);
    reflexivity.
Qed.

End PromptFacts.








Module MockFacts.

Import JsString Json Js Agents Prompts.

Lemma mock_completion (ai : AIService.t) (prompt : jsstring) (system : option jsstring) :
  AIService.has_client ai = false ->
  AIService.generateCompletion ai prompt system = Returned (AIService.mockResponse prompt).
Proof. unfold AIService.generateCompletion. now intros ->. Qed.

Lemma mock_planning_parses :
  AIService.parseJSONResponse (stringify AIService.mock_planning)
  = Returned AIService.mock_planning.
Proof. vm_compute. reflexivity. Qed.

Lemma mock_other_parses :
  AIService.parseJSONResponse (stringify AIService.mock_other)
  = Returned AIService.mock_other.
Proof. vm_compute. reflexivity. Qed.

(** Without a client every request is answered with one of the two mock
    payloads. *)
Lemma mock_answer (ai : AIService.t) (prompt system : jsstring) :
  AIService.has_client ai = false ->
  answer ai prompt system
  = inl (if includes prompt (u "planning") then AIService.mock_planning
         else AIService.mock_other).
Proof.
  intros H. unfold answer. rewrite (mock_completion _ _ _ H).
  unfold AIService.mockResponse. destruct (includes prompt (u "planning")).
  - now rewrite mock_planning_parses.
  - now rewrite mock_other_parses.
Qed.

(** The planning prompt says 'planning', whatever the input. *)
Lemma planning_prompt_says_planning (input : AgentInput) :
  includes (planning input) (u "planning") = true.
Proof.
  unfold planning.
  set (head := u "You are a website planning expert.").
  assert (Hsplit : PromptTemplates.PLANNING_AGENT_PROMPT
                   = head ++ skipn (List.length head) PromptTemplates.PLANNING_AGENT_PROMPT)
    by (vm_compute; reflexivity).
  rewrite Hsplit.
  destruct (TextFacts.substitute_keeps_head head
              [("businessName"%string, businessName input);
               ("businessType"%string, businessType input);
               ("description"%string, description input)] eq_refl
              (skipn (List.length head) PromptTemplates.PLANNING_AGENT_PROMPT)) as [s' ->].
  apply TextFacts.includes_app_r. reflexivity.
Qed.

Lemma mock_planning_confidence :
  as_number (member AIService.mock_planning "confidence") = JsNumber.of_decimal false 85 (-2).
Proof. vm_compute. reflexivity. Qed.

Lemma mock_other_confidence :
  as_number (member AIService.mock_other "confidence") = JsNumber.of_decimal false 8 (-1).
Proof. vm_compute. reflexivity. Qed.

End MockFacts.

(** X14. Without a generation client (no API key, or a provider other
    than Anthropic) a run succeeds on every input: all three agents are
    invoked and succeed on the mock payloads, the plan is the mock plan,
    no error is reported, and the overall confidence is the mean of 0.85
    for planning and of 0.85 or 0.8 for each of the other two. *)
Theorem X14_mock_run_always_succeeds (ai : AIService.t) (input : Agents.AgentInput) :
  AIService.has_client ai = false ->
  let run := Orchestrator.orchestrate (Orchestrator.make ai) input in
  In (Orchestrator.Invoked Orchestrator.Design) (fst run)
  /\ In (Orchestrator.Invoked Orchestrator.Content) (fst run)
  /\ Orchestrator.success (snd run) = true
  /\ Orchestrator.errors (snd run) = []
  /\ Orchestrator.siteArchitecture (snd run)
     = Some (Agents.data (Prompts.planning_output AIService.mock_planning))
  /\ exists design_confidence content_confidence,
       In design_confidence [JsNumber.of_decimal false 85 (-2); JsNumber.of_decimal false 8 (-1)]
       /\ In content_confidence [JsNumber.of_decimal false 85 (-2); JsNumber.of_decimal false 8 (-1)]
       /\ Orchestrator.overallConfidence (snd run)
          = Orchestrator.average
              [JsNumber.of_decimal false 85 (-2); design_confidence; content_confidence].
Proof.
  intros H run. subst run. rewrite PromptFacts.orchestrate_make.
  rewrite (MockFacts.mock_answer _ _ _ H), MockFacts.planning_prompt_says_planning.
  cbv zeta. cbn [fst snd].
  rewrite (MockFacts.mock_answer _ _ _ H).
  unfold Prompts.content_result.
  set (pages := Prompts.member AIService.mock_planning "pages").
  destruct (Agents.ContentAgent.pages_summary pages) as [summary|e] eqn:Es;
    [|vm_compute in Es; discriminate].
  rewrite (MockFacts.mock_answer _ _ _ H).
  split; [unfold Prompts.full_trace; cbn; tauto|].
  split; [unfold Prompts.full_trace; cbn; tauto|].
  cbn [Prompts.agent_result Prompts.design_output Prompts.content_output
         Prompts.planning_output Agents.success Agents.confidence Agents.data Agents.errors
         Prompts.failure_messages andb app
         Orchestrator.success Orchestrator.errors Orchestrator.siteArchitecture
         Orchestrator.overallConfidence].
  split; [reflexivity|]. split; [reflexivity|]. split; [reflexivity|].
  rewrite MockFacts.mock_planning_confidence.
  destruct (JsString.includes (Prompts.design input) (JsString.u "planning")),
    (JsString.includes (Prompts.content input summary) (JsString.u "planning"));
    rewrite ?MockFacts.mock_planning_confidence, ?MockFacts.mock_other_confidence;
    do 2 eexists; (split; [|split; [|reflexivity]]);
    first [left; reflexivity | right; left; reflexivity].
Qed.

Lemma X14_mock_run_always_succeeds_witness :
  AIService.has_client Scenarios.mock = false
  /\ Orchestrator.success
       (snd (Orchestrator.orchestrate (Orchestrator.make Scenarios.mock) Scenarios.joes_pizza))
     = true.
Proof.
  split; [reflexivity|].
  exact (proj1 (proj2 (proj2 (X14_mock_run_always_succeeds Scenarios.mock Scenarios.joes_pizza
                                eq_refl)))).
Defined.

(** X15. The generation client never sends a request without a model,
    with no room for tokens or with a temperature of zero: a provider is
    only ever asked requests in which the three are set, so that a
    configured temperature of 0 is sent as the default.  What the provider
    would answer to any other request makes no difference. *)
Theorem X15_requests_are_sendable
  (cfg : AIService.AIProviderConfig)
  (create create' : AIService.request -> Js.outcome (list AIService.content_block))
  (prompt : jsstring) (system : option jsstring) :
  (forall req, Prompts.sendable prompt system req -> create req = create' req) ->
  AIService.generateWithAnthropic
    {| AIService.config := cfg; AIService.messages_create := create |} prompt system
  = AIService.generateWithAnthropic
      {| AIService.config := cfg; AIService.messages_create := create' |} prompt system.
Proof.
  intros H. unfold AIService.generateWithAnthropic.
  cbn [AIService.config AIService.messages_create].
  rewrite H; [reflexivity|].
  unfold Prompts.sendable.
  cbn [AIService.req_model AIService.req_max_tokens AIService.req_temperature
         AIService.req_prompt AIService.req_system].
  repeat split.
  - unfold AIService.string_or. now destruct (AIService.model cfg).
  - unfold AIService.number_or.
    destruct (Js.truthy (Some (Json.JNumber (AIService.maxTokens cfg)))) eqn:E;
      [exact E | reflexivity].
  - unfold AIService.number_or.
    destruct (Js.truthy (Some (Json.JNumber (AIService.temperature cfg)))) eqn:E;
      [exact E | reflexivity].
Qed.

Lemma X15_requests_are_sendable_witness :
  (forall req,
      Prompts.sendable (JsString.u "Plan a site.") None req ->
      AIService.messages_create MoreScenarios.terse req
      = AIService.messages_create MoreScenarios.strict req)
  /\ AIService.generateWithAnthropic MoreScenarios.strict (JsString.u "Plan a site.") None
     = Js.Returned (JsString.uq "{'confidence': 0.9}").
Proof.
  assert (H : forall req,
             Prompts.sendable (JsString.u "Plan a site.") None req ->
             AIService.messages_create MoreScenarios.terse req
             = AIService.messages_create MoreScenarios.strict req).
  { intros req [Hm [Ht [Hc _]]]. cbn [MoreScenarios.terse MoreScenarios.strict
                                       AIService.messages_create].
    now rewrite Hm, Ht, Hc. }
  split; [exact H|].
  exact (eq_trans
           (eq_sym (X15_requests_are_sendable Scenarios.anthropic_config
                      (AIService.messages_create MoreScenarios.terse)
                      (AIService.messages_create MoreScenarios.strict)
                      (JsString.u "Plan a site.") None H))
           eq_refl).
Defined.

Module ObjectFacts.

Import JsString Json.

Lemma obj_get_replace_same (k : jsstring) (v old : json) (ms : list (jsstring * json)) :
  obj_get k ms = Some old -> obj_get k (replace_value k v ms) = Some v.
Proof.
  induction ms as [|[k' v'] ms IH]; cbn [obj_get replace_value]; [discriminate|].
  destruct (eqb k k') eqn:E.
  - intros _. cbn [obj_get]. now rewrite JsStringFacts.eqb_refl.
  - intros H. cbn [obj_get]. rewrite E. now apply IH.
Qed.

Lemma obj_get_replace_other (k k' : jsstring) (v : json) (ms : list (jsstring * json)) :
  k' <> k -> obj_get k' (replace_value k v ms) = obj_get k' ms.
Proof.
  intros Hne. induction ms as [|[a b] ms IH]; [reflexivity|].
  cbn [replace_value]. destruct (eqb k a) eqn:E.
  - apply JsStringFacts.eqb_eq in E. subst a. cbn [obj_get].
    apply JsStringFacts.eqb_neq in Hne. now rewrite Hne.
  - cbn [obj_get]. destruct (eqb k' a); [reflexivity | exact IH].
Qed.

Lemma obj_get_insert_same (i : N) (k : jsstring) (v : json) (ms : list (jsstring * json)) :
  obj_get k ms = None -> obj_get k (insert_index i k v ms) = Some v.
Proof.
  induction ms as [|[a b] ms IH]; cbn [obj_get insert_index].
  - intros _. now rewrite JsStringFacts.eqb_refl.
  - destruct (eqb k a) eqn:E; [discriminate|]. intros H.
    destruct (array_index a) as [j|]; [destruct (j <? i)%N|]; cbn [obj_get];
      rewrite ?E, ?JsStringFacts.eqb_refl; auto.
Qed.

Lemma obj_get_insert_other (i : N) (k k' : jsstring) (v : json) (ms : list (jsstring * json)) :
  k' <> k -> obj_get k' (insert_index i k v ms) = obj_get k' ms.
Proof.
  intros Hne. apply JsStringFacts.eqb_neq in Hne.
  induction ms as [|[a b] ms IH]; cbn [insert_index obj_get].
  - now rewrite Hne.
  - destruct (array_index a) as [j|]; [destruct (j <? i)%N|]; cbn [obj_get];
      rewrite ?Hne, ?IH; reflexivity.
Qed.

Lemma obj_get_app (k : jsstring) (ms ms' : list (jsstring * json)) :
  obj_get k (ms ++ ms')
  = match obj_get k ms with Some v => Some v | None => obj_get k ms' end.
Proof.
  induction ms as [|[a b] ms IH]; [reflexivity|].
  cbn [app obj_get]. destruct (eqb k a); [reflexivity | exact IH].
Qed.

(** Reading a property after it is set gives the value set ... *)
Lemma obj_get_set_same (k : jsstring) (v : json) (ms : list (jsstring * json)) :
  obj_get k (obj_set k v ms) = Some v.
Proof.
  unfold obj_set. destruct (obj_get k ms) as [old|] eqn:E.
  - now apply (obj_get_replace_same k v old).
  - destruct (array_index k) as [i|].
    + now apply obj_get_insert_same.
    + rewrite obj_get_app, E. cbn [obj_get]. now rewrite JsStringFacts.eqb_refl.
Qed.

(** ... and the other properties are as before. *)
Lemma obj_get_set_other (k k' : jsstring) (v : json) (ms : list (jsstring * json)) :
  k' <> k -> obj_get k' (obj_set k v ms) = obj_get k' ms.
Proof.
  intros Hne. unfold obj_set. destruct (obj_get k ms) as [old|].
  - now apply obj_get_replace_other.
  - destruct (array_index k) as [i|].
    + now apply obj_get_insert_other.
    + rewrite obj_get_app. destruct (obj_get k' ms); [reflexivity|].
      cbn [obj_get]. apply JsStringFacts.eqb_neq in Hne. now rewrite Hne.
Qed.

End ObjectFacts.

Module AuthFacts.

Import JsString Text TextFacts Auth.

Lemma find_none_suffix (p x s : jsstring) :
  find p (x ++ s) = None -> is_prefix p s = false.
Proof.
  induction x as [|c x IH]; cbn [app]; intros H.
  - now apply find_none_here.
  - apply IH. now apply find_none_tail in H.
Qed.

(** A match of [q] that begins before a code unit foreign to [q] ends
    before it. *)
Lemma is_prefix_before (q x : jsstring) (c : N) (rest : jsstring) :
  lacks c q = true -> is_prefix q (x ++ c :: rest) = true -> is_prefix q x = true.
Proof.
  revert x. induction q as [|d q IH]; intros x Hq H; [reflexivity|].
  rewrite lacks_cons in Hq. apply andb_prop in Hq as [Hd Hq].
  apply negb_true_iff in Hd.
  destruct x as [|e x]; cbn [app is_prefix] in *.
  - rewrite Hd in H. discriminate.
  - apply andb_prop in H as [-> H]. cbn [andb]. now apply IH.
Qed.

(** The leftmost occurrence of a text in which the first code unit does
    not come back, written after a text free of it. *)
Lemma find_after_free (c : N) (p' x y : jsstring) :
  lacks c p' = true ->
  find (c :: p') x = None ->
  find (c :: p') (x ++ (c :: p') ++ y) = Some (x, y).
Proof.
  intros Hp Hx. apply find_first. intros x1 d x2 ->.
  pose proof (find_none_suffix _ _ _ Hx) as Hs.
  destruct (is_prefix (c :: p') (d :: x2 ++ (c :: p') ++ y)) eqn:E; [|reflexivity].
  cbn [is_prefix] in E, Hs. apply andb_prop in E as [Hcd E].
  rewrite Hcd in Hs. cbn [andb] in Hs.
  change (x2 ++ (c :: p') ++ y) with (x2 ++ c :: (p' ++ y)) in E.
  rewrite (is_prefix_before _ _ _ _ Hp E) in Hs. discriminate.
Qed.

Lemma find_none_left (p x y : jsstring) : find p (x ++ y) = None -> find p x = None.
Proof.
  induction x as [|c x IH]; cbn [app]; intros H.
  - rewrite find_unfold. destruct (is_prefix p []) eqn:E; [|reflexivity].
    apply find_none_here in H. pose proof (is_prefix_app_r _ _ y E) as E'.
    cbn [app] in E'. congruence.
  - rewrite find_unfold. pose proof (find_none_here _ _ H) as Hh.
    destruct (is_prefix p (c :: x)) eqn:E.
    + pose proof (is_prefix_app_r _ _ y E) as E'. cbn [app] in E'. congruence.
    + apply find_none_tail in H. now rewrite (IH H).
Qed.

Lemma remove_first_bearer (before token : jsstring) :
  find (u "Bearer ") (before ++ token) = None ->
  remove_first (u "Bearer ") (before ++ u "Bearer " ++ token) = before ++ token
  /\ remove_first (u "Bearer ") (before ++ token) = before ++ token.
Proof.
  intros H. unfold remove_first. rewrite H. split; [|reflexivity].
  change (u "Bearer ") with (66%N :: u "earer ").
  rewrite find_after_free; [reflexivity | reflexivity |].
  now apply find_none_left in H.
Qed.

End AuthFacts.

(** X16. The middleware drops the leftmost ["Bearer "] of the
    Authorization header wherever it stands, and verifies what is left:
    the scheme is not checked, so that a header holding the bare token is
    verified as the same token.  A missing header and a header of which
    nothing is left are refused with status 401, whatever the verifier. *)
Theorem X16_authenticate_drops_first_bearer
  (verify : jsstring -> option Json.json) (before token : jsstring) :
  JsString.find (JsString.u "Bearer ") (before ++ token) = None ->
  Auth.authenticate verify (Some (before ++ JsString.u "Bearer " ++ token))
  = Auth.authenticate verify (Some (before ++ token))
  /\ Auth.authenticate verify None
     = Auth.Refuse (Http.AppError (JsString.u "Authentication required") 401)
  /\ Auth.authenticate verify (Some (JsString.u "Bearer "))
     = Auth.Refuse (Http.AppError (JsString.u "Authentication required") 401).
Proof.
  intros H. destruct (AuthFacts.remove_first_bearer before token H) as [H1 H2].
  split; [|split; reflexivity].
  unfold Auth.authenticate. cbn [option_map]. now rewrite H1, H2.
Qed.

Lemma X16_authenticate_drops_first_bearer_witness :
  JsString.find (JsString.u "Bearer ") ([] ++ JsString.u "eyJhbGciOi.eyJpZCI6IjEifQ.c2ln") = None
  /\ Auth.authenticate (fun token => Some (Json.JString token))
       (Some ([] ++ JsString.u "Bearer " ++ JsString.u "eyJhbGciOi.eyJpZCI6IjEifQ.c2ln"))
     = Auth.Proceed (Json.JString (JsString.u "eyJhbGciOi.eyJpZCI6IjEifQ.c2ln")).
Proof.
  split; [reflexivity|].
  rewrite (proj1 (X16_authenticate_drops_first_bearer
                    (fun token => Some (Json.JString token)) []
                    (JsString.u "eyJhbGciOi.eyJpZCI6IjEifQ.c2ln") eq_refl)).
  reflexivity.
Defined.

Module SiteFacts.

Import JsString Json Js Http SiteService.

Lemma createSite_cases (w : world) (python_api_url userId : jsstring)
  (data : list (jsstring * json)) :
  let input := {| name := obj_get (u "business_name") data;
                  businessType := obj_get (u "business_type") data;
                  description := obj_get (u "description") data;
                  status := u "GENERATING";
                  userId := userId |} in
  let url := python_api_url ++ u "/api/v1/sites/generate" in
  (exists e,
      db_create w input = Thrown e
      /\ createSite w python_api_url userId data = ([Create input], Rejected (Raised e)))
  \/ (exists created,
         db_create w input = Returned created
         /\ ((exists response_data job_id,
                 http_post w url (request_body data (id created)) = Returned response_data
                 /\ job_id_of response_data = Returned job_id
                 /\ createSite w python_api_url userId data
                    = ([Create input; Post url (request_body data (id created))],
                       Resolved (created, job_id)))
             \/ ((exists e,
                     (response_data <- http_post w url (request_body data (id created)) ;;
                      job_id_of response_data) = Thrown e)
                 /\ exists f,
                      createSite w python_api_url userId data
                      = ([Create input; Post url (request_body data (id created));
                          Update (id created) (u "FAILED")],
                         Rejected f)
                      /\ (db_update w (id created) (u "FAILED") = Returned tt
                          /\ f = start_failed
                          \/ exists e, db_update w (id created) (u "FAILED") = Thrown e
                                       /\ f = Raised e)))).
Proof.
  intros input url. unfold createSite. fold input. fold url.
  destruct (db_create w input) as [created|e]; [right | left; now exists e].
  exists created. split; [reflexivity|].
  destruct (http_post w url (request_body data (id created))) as [rd|e] eqn:Ep; cbn [bind].
  - destruct (job_id_of rd) as [j|e] eqn:Ej.
    + left. now exists rd, j.
    + right. split; [now exists e|].
      destruct (db_update w (id created) (u "FAILED")) as [[]|e'] eqn:Eu;
        eexists; (split; [reflexivity|]); [left; now split | right; now exists e'].
  - right. split; [now exists e|].
    destruct (db_update w (id created) (u "FAILED")) as [[]|e'] eqn:Eu;
      eexists; (split; [reflexivity|]); [left; now split | right; now exists e'].
Qed.

End SiteFacts.

(** X17. Whatever the request body holds, the body posted to the Python
    engine carries as [webhook_url] the callback of the site just created,
    and every other member of the request body as it came: a member
    [webhook_url] of the request is overwritten. *)
Theorem X17_createSite_sets_the_callback
  (w : SiteService.world) (python_api_url userId : jsstring)
  (data : list (jsstring * Json.json)) (url : jsstring) (body : Json.json) :
  In (SiteService.Post url body)
     (fst (SiteService.createSite w python_api_url userId data)) ->
  url = python_api_url ++ JsString.u "/api/v1/sites/generate"
  /\ exists created members,
       SiteService.db_create w
         {| SiteService.name := Json.obj_get (JsString.u "business_name") data;
            SiteService.businessType := Json.obj_get (JsString.u "business_type") data;
            SiteService.description := Json.obj_get (JsString.u "description") data;
            SiteService.status := JsString.u "GENERATING";
            SiteService.userId := userId |} = Js.Returned created
       /\ body = Json.JObject members
       /\ Json.obj_get (JsString.u "webhook_url") members
          = Some (Json.JString (SiteService.callback (SiteService.id created)))
       /\ forall key, key <> JsString.u "webhook_url" ->
                      Json.obj_get key members = Json.obj_get key data.
Proof.
  intros Hin.
  destruct (SiteFacts.createSite_cases w python_api_url userId data)
    as [[e [_ E]] | [created [Hc [[rd [j [_ [_ E]]]] | [_ [f [E _]]]]]]];
    rewrite E in Hin; cbn [fst In] in Hin.
  - destruct Hin as [H|[]]. discriminate.
  - destruct Hin as [H|[H|[]]]; [discriminate|]. injection H as <- <-.
    split; [reflexivity|]. exists created. eexists. split; [exact Hc|].
    split; [reflexivity|]. split.
    + apply ObjectFacts.obj_get_set_same.
    + intros key Hk. now apply ObjectFacts.obj_get_set_other.
  - destruct Hin as [H|[H|[H|[]]]]; try discriminate. injection H as <- <-.
    split; [reflexivity|]. exists created. eexists. split; [exact Hc|].
    split; [reflexivity|]. split.
    + apply ObjectFacts.obj_get_set_same.
    + intros key Hk. now apply ObjectFacts.obj_get_set_other.
Qed.

Lemma X17_createSite_sets_the_callback_witness :
  In (SiteService.Post
        (JsString.u "https://localhost:8000" ++ JsString.u "/api/v1/sites/generate")
        (SiteService.request_body SiteScenarios.redirecting (JsString.u "site-1")))
     (fst (SiteService.createSite SiteScenarios.engine_up (JsString.u "https://localhost:8000")
             (JsString.u "user-1") SiteScenarios.redirecting))
  /\ SiteService.request_body SiteScenarios.redirecting (JsString.u "site-1")
     = Json.JObject
         [(JsString.u "business_name", Json.JString (JsString.u "Joe's Pizza"));
          (JsString.u "webhook_url",
            Json.JString (JsString.u "http://localhost:3001/api/v1/sites/site-1/webhook"))]
  /\ exists created members,
       SiteService.db_create SiteScenarios.engine_up
         {| SiteService.name := Json.obj_get (JsString.u "business_name") SiteScenarios.redirecting;
            SiteService.businessType :=
              Json.obj_get (JsString.u "business_type") SiteScenarios.redirecting;
            SiteService.description :=
              Json.obj_get (JsString.u "description") SiteScenarios.redirecting;
            SiteService.status := JsString.u "GENERATING";
            SiteService.userId := JsString.u "user-1" |} = Js.Returned created
       /\ SiteService.request_body SiteScenarios.redirecting (JsString.u "site-1")
          = Json.JObject members
       /\ Json.obj_get (JsString.u "webhook_url") members
          = Some (Json.JString (SiteService.callback (SiteService.id created)))
       /\ forall key, key <> JsString.u "webhook_url" ->
                      Json.obj_get key members = Json.obj_get key SiteScenarios.redirecting.
Proof.
  assert (Hin : In (SiteService.Post
                      (JsString.u "https://localhost:8000"
                         ++ JsString.u "/api/v1/sites/generate")
                      (SiteService.request_body SiteScenarios.redirecting
                         (JsString.u "site-1")))
                   (fst (SiteService.createSite SiteScenarios.engine_up
                           (JsString.u "https://localhost:8000") (JsString.u "user-1")
                           SiteScenarios.redirecting))).
  { right. left. reflexivity. }
  split; [exact Hin|]. split; [vm_compute; reflexivity|].
  exact (proj2 (X17_createSite_sets_the_callback _ _ _ _ _ _ Hin)).
Defined.

(** X18. A call that rejects after the site was created has asked the
    database, as its last action, to mark that site FAILED; when that
    update succeeds the error is the fixed [AppError] with status 500,
    whatever made the call to the engine fail.  A call that resolves has
    posted once and updated nothing. *)
Theorem X18_createSite_marks_failures
  (w : SiteService.world) (python_api_url userId : jsstring)
  (data : list (jsstring * Json.json)) :
  match SiteService.createSite w python_api_url userId data with
  | (acts, Http.Resolved (created, job_id)) =>
      exists input url body,
        acts = [SiteService.Create input; SiteService.Post url body]
        /\ SiteService.db_create w input = Js.Returned created
  | (acts, Http.Rejected f) =>
      (exists input e,
          acts = [SiteService.Create input]
          /\ SiteService.db_create w input = Js.Thrown e /\ f = Http.Raised e)
      \/ (exists input url body created,
             acts = [SiteService.Create input; SiteService.Post url body;
                     SiteService.Update (SiteService.id created) (JsString.u "FAILED")]
             /\ SiteService.db_create w input = Js.Returned created
             /\ (SiteService.db_update w (SiteService.id created) (JsString.u "FAILED")
                 = Js.Returned tt ->
                 f = Http.AppError (JsString.u "Failed to start site generation") 500))
  end.
Proof.
  destruct (SiteFacts.createSite_cases w python_api_url userId data)
    as [[e [Hc E]] | [created [Hc [[rd [j [_ [_ E]]]] | [_ [f [E Hf]]]]]]];
    rewrite E.
  - left. eexists. exists e. repeat split. exact Hc.
  - do 3 eexists. split; [reflexivity | exact Hc].
  - right. do 3 eexists. exists created. split; [reflexivity|]. split; [exact Hc|].
    intros Hu. destruct Hf as [[_ ->] | [e [Hu' _]]]; [reflexivity|].
    rewrite Hu in Hu'. discriminate.
Qed.

Module ApiClientFacts.

Import JsString ApiClient.

Lemma ends_with_slash_app (url : jsstring) : ends_with_slash (url ++ u "/") = true.
Proof. unfold ends_with_slash. rewrite rev_app_distr. reflexivity. Qed.

End ApiClientFacts.

(** X19. The REST client is set up on the same base URL whether or not
    the site URL ends with a slash: the base URL is the site URL, with one
    slash added when it ends with none, followed by [wp-json/wp/v2/]. *)
Theorem X19_base_url_ignores_trailing_slash (url : jsstring) :
  ApiClient.ends_with_slash url = false ->
  ApiClient.baseURL (url ++ JsString.u "/") = ApiClient.baseURL url
  /\ ApiClient.baseURL url = url ++ JsString.u "/wp-json/wp/v2/".
Proof.
  intros H. unfold ApiClient.baseURL.
  rewrite ApiClientFacts.ends_with_slash_app, H. split; [reflexivity|].
  now rewrite <- app_assoc.
Qed.

Lemma X19_base_url_ignores_trailing_slash_witness :
  ApiClient.ends_with_slash (JsString.u "https://joes.example") = false
  /\ ApiClient.baseURL (JsString.u "https://joes.example" ++ JsString.u "/")
     = ApiClient.baseURL (JsString.u "https://joes.example").
Proof.
  split; [reflexivity|].
  exact (proj1 (X19_base_url_ignores_trailing_slash (JsString.u "https://joes.example")
                  eq_refl)).
Defined.

Module PageListFacts.

Import JsString Json Js Agents Prompts.






End PageListFacts.


